(** * CORALL: vessel simulation with reactive collision avoidance

    A shallow embedding of the Python sources
    [src/navigation/reactive_avoidance.py], [src/utils/imazu_cases.py],
    [src/core/simulation.py], [src/core/comparison_simulation.py],
    [src/decision_making/decision_making.py],
    [src/decision_making/multi_llm_decision.py], [src/utils/validation.py]
    and, for its indexing of the obstacle colours,
    [src/visualization/animate.py].  Python floats are modelled as real numbers,
    one-dimensional numpy arrays as lists, two-dimensional arrays as lists of
    rows, and the dictionary of encounter cases as a finite map keyed by
    strings. *)

From Stdlib Require Import Reals Lra Lia ZArith List Ascii String.
From stdpp Require Import base decidable list strings pretty gmap.

Local Open Scope R_scope.

(** ** Numpy primitives over the reals *)

Module Np.

#[export] Instance Rle_decision : RelDecision Rle := Rle_dec.
#[export] Instance Rlt_decision : RelDecision Rlt := Rlt_dec.
#[export] Instance Req_decision : EqDecision R := Req_dec_T.

(** [np.zeros_like(x)] *)
Definition zeros_like (x : list R) : list R := map (fun _ => 0) x.

(** [np.zeros(n)] and [np.ones(n)] *)
Definition zeros (n : nat) : list R := repeat 0 n.
Definition ones (n : nat) : list R := repeat 1 n.

(** [np.zeros((n, m))] *)
Definition zeros2 (n m : nat) : list (list R) := repeat (zeros m) n.

(** [y[mask] = f(x[mask])]: assignment through a boolean mask computed
    from [x]; entries outside the mask keep their value. *)
Definition mask_set (mask : R -> bool) (f : R -> R) (x y : list R) : list R :=
  zip_with (fun xi yi => if mask xi then f xi else yi) x y.

(** [np.sum] of a one-dimensional array; the sum of the empty array is 0. *)
Definition sum (v : list R) : R := foldr Rplus 0 v.

(** [np.arctan2(y, x)] on real arguments: the angle of the point [(x, y)]
    in (-pi, pi], with [arctan2(0, 0) = 0]. *)
Definition arctan2 (y x : R) : R :=
  if decide (0 < x) then atan (y / x)
  else if decide (x < 0) then
    (if decide (0 <= y) then atan (y / x) + PI else atan (y / x) - PI)
  else if decide (0 < y) then PI / 2
  else if decide (y < 0) then - (PI / 2)
  else 0.

End Np.

Import Np.

(** ** [reactive_avoidance.py] *)

(** [zmf(x, a, b)]: the Z-shaped membership function, applied to an array.
    The three masked assignments are performed in the order of the source. *)
Definition zmf (x : list R) (a b : R) : list R :=
  let y := zeros_like x in
  let y := mask_set (fun xi => bool_decide (xi <= a)) (fun _ => 1) x y in
  let y := mask_set (fun xi => bool_decide (a < xi) && bool_decide (xi < (a + b) / 2))
                    (fun xi => 1 - 2 * ((xi - a) / (b - a)) ^ 2) x y in
  let y := mask_set (fun xi => bool_decide ((a + b) / 2 <= xi) && bool_decide (xi < b))
                    (fun xi => 2 * ((xi - b) / (b - a)) ^ 2) x y in
  y.

(** The value [zmf] computes for one entry of the array. *)
Definition zmf_at (a b xi : R) : R :=
  let y := 0 in
  let y := if bool_decide (xi <= a) then 1 else y in
  let y := if bool_decide (a < xi) && bool_decide (xi < (a + b) / 2)
           then 1 - 2 * ((xi - a) / (b - a)) ^ 2 else y in
  let y := if bool_decide ((a + b) / 2 <= xi) && bool_decide (xi < b)
           then 2 * ((xi - b) / (b - a)) ^ 2 else y in
  y.

(** The two influence radii and the angular spread of [reactive_avoidance]. *)
Definition ra_a : R := 600.0 / 1852.
Definition ra_b : R := 1200 / 1852.
Definition ra_sig : R := 80 * PI / 180.

(** [reactive_avoidance(x_ob, y_ob, x, y, psi, t)] returns
    [(psi_oa, w_b, w_r, distance_ob, bearing_ob)].  The locals [x_distro]
    and [c] of the source are never read and are left out. *)
Definition reactive_avoidance (x_ob y_ob : list R) (x y psi t : R)
  : R * list R * list R * list R * list R :=
  let a := ra_a in
  let b := ra_b in
  let sig := ra_sig in
  let distance_ob :=
    map sqrt (zip_with Rplus (map (fun xo => (xo - x) ^ 2) x_ob)
                             (map (fun yo => (yo - y) ^ 2) y_ob)) in
  let los_ob :=
    zip_with arctan2 (map (fun yo => yo - y) y_ob) (map (fun xo => xo - x) x_ob) in
  let bearing_ob := map (fun l => psi - l) los_ob in
  let w_r := zmf distance_ob a b in
  let w_b := map (fun be => - exp (- (be ^ 2) / (2 * sig ^ 2))) bearing_ob in
  let psi_oa := Np.sum (zip_with Rmult w_r w_b) * 2 in
  (psi_oa, w_b, w_r, distance_ob, bearing_ob).

Definition ra_psi_oa (r : R * list R * list R * list R * list R) : R :=
  let '(psi_oa, _, _, _, _) := r in psi_oa.
Definition ra_w_b (r : R * list R * list R * list R * list R) : list R :=
  let '(_, w_b, _, _, _) := r in w_b.
Definition ra_w_r (r : R * list R * list R * list R * list R) : list R :=
  let '(_, _, w_r, _, _) := r in w_r.
Definition ra_distance_ob (r : R * list R * list R * list R * list R) : list R :=
  let '(_, _, _, d, _) := r in d.
Definition ra_bearing_ob (r : R * list R * list R * list R * list R) : list R :=
  let '(_, _, _, _, be) := r in be.

(** ** The avoidance field as the specification words it *)

Module FieldSpec.

(** Range weight: 1 up to [a], [1 - 2 t^2] up to the midpoint,
    [2 (1 - t)^2] up to [b], 0 from [b] on, with [t = (d - a) / (b - a)]. *)
Definition w_r (a b d : R) : R :=
  let t := (d - a) / (b - a) in
  if decide (d <= a) then 1
  else if decide (d < (a + b) / 2) then 1 - 2 * t ^ 2
  else if decide (d < b) then 2 * (1 - t) ^ 2
  else 0.

(** Bearing weight: [- exp (- beta^2 / (2 sigma^2))]. *)
Definition w_b (sigma beta : R) : R := - exp (- (beta ^ 2) / (2 * sigma ^ 2)).

(** The derivative of the range weight between [a] and [b]. *)
Definition w_r' (a b d : R) : R :=
  if decide (d < (a + b) / 2) then - (4 * (d - a) / (b - a) ^ 2)
  else 4 * (d - b) / (b - a) ^ 2.

(** Distance and relative bearing of an obstacle at [ob] seen from the
    vessel at [(x, y)] heading [psi]. *)
Definition distance (x y : R) (ob : R * R) : R :=
  sqrt ((ob.1 - x) ^ 2 + (ob.2 - y) ^ 2).
Definition bearing (x y psi : R) (ob : R * R) : R :=
  psi - arctan2 (ob.2 - y) (ob.1 - x).

(** Bias = 2 * sum over the obstacles of range weight times bearing weight. *)
Fixpoint weighted_sum (x y psi : R) (obs : list (R * R)) : R :=
  match obs with
  | [] => 0
  | ob :: rest =>
      w_r ra_a ra_b (distance x y ob) * w_b ra_sig (bearing x y psi ob)
      + weighted_sum x y psi rest
  end.
Definition bias (x y psi : R) (obs : list (R * R)) : R :=
  2 * weighted_sum x y psi obs.

End FieldSpec.

(** ** [imazu_cases.py] *)

Definition nautical_to_meters (nm_value : R) : R := nm_value * 1852.

(** One entry of a case: [[[x, y], angle]], the angle in degrees. *)
Definition obstacle : Type := (R * R) * R.

Definition ob (x y angle : R) : obstacle := ((x, y), angle).

Definition obstacle_cases : gmap string (list obstacle) :=
  list_to_map
  [ ("Case 1", [ob (nautical_to_meters 6) (nautical_to_meters 0) 180]);
    ("Case 2", [ob (nautical_to_meters 5) (nautical_to_meters (-2.14)) 90]);
    ("Case 3", [ob (nautical_to_meters 3) (nautical_to_meters 0) 0]);
    ("Case 4", [ob (nautical_to_meters 3.44) (nautical_to_meters (1.55 + 0.08)) 295]);
    ("Case 5", [ob (nautical_to_meters 5) (nautical_to_meters (-2.0 - 0.14)) 90;
                ob (nautical_to_meters (7 - 0.05)) (nautical_to_meters 0) 180]);
    ("Case 6", [ob (nautical_to_meters 3.4) (nautical_to_meters (-1.5 + 0.03)) 45;
                ob (nautical_to_meters 3) (nautical_to_meters (-0.35 - 0.04)) 10]);
    ("Case 7", [ob (nautical_to_meters 3) (nautical_to_meters 0) 0;
                ob (nautical_to_meters 3.4) (nautical_to_meters (-1.5 + 0.01)) 45]);
    ("Case 8", [ob (nautical_to_meters 5) (nautical_to_meters (-2.13)) 90;
                ob (nautical_to_meters 7) (nautical_to_meters 0) 180]);
    ("Case 9", [ob (nautical_to_meters 3.4) (nautical_to_meters (-1.5 + 0.03)) 45;
                ob (nautical_to_meters 5) (nautical_to_meters (-2.1 - 0.05)) 90]);
    ("Case 10", [ob (nautical_to_meters 3) (nautical_to_meters 0.35) 350;
                 ob (nautical_to_meters 4.4) (nautical_to_meters (-2.1 + 0.20)) 90]);
    ("Case 11", [ob (nautical_to_meters 5) (nautical_to_meters 2.1) (-90);
                 ob (nautical_to_meters 3.4) (nautical_to_meters (-1.5)) 45]);
    ("Case 12", [ob (nautical_to_meters 7) (nautical_to_meters 0) 180;
                 ob (nautical_to_meters 3) (nautical_to_meters (0.3 + 0.05)) (-10);
                 ob (nautical_to_meters 3.44) (nautical_to_meters (-1.55 + 0.05)) 45]);
    ("Case 13", [ob (nautical_to_meters 6) (nautical_to_meters 0) 180;
                 ob (nautical_to_meters 3) (nautical_to_meters (0.3 + 0.05)) 350;
                 ob (nautical_to_meters 3.4) (nautical_to_meters (1.5 + 0.05)) 295]);
    ("Case 14", [ob (nautical_to_meters 3.4) (nautical_to_meters (-1.5)) 45;
                 ob (nautical_to_meters 3) (nautical_to_meters (-0.4)) 10;
                 ob (nautical_to_meters 5) (nautical_to_meters (-2.1 - 0.05)) 90]);
    ("Case 15", [ob (nautical_to_meters 3) (nautical_to_meters 0) 0;
                 ob (nautical_to_meters 3.4) (nautical_to_meters (-1.5)) 45;
                 ob (nautical_to_meters 5) (nautical_to_meters (-2.1 - 0.05)) 90]);
    ("Case 16", [ob (nautical_to_meters 3.4) (nautical_to_meters (1.5 - 0.03)) (-45);
                 ob (nautical_to_meters 5) (nautical_to_meters (2.1 + 0.04)) (-90);
                 ob (nautical_to_meters 5) (nautical_to_meters (-2.1 + -0.05)) 90]);
    ("Case 17", [ob (nautical_to_meters 3) (nautical_to_meters 0) 0;
                 ob (nautical_to_meters 3) (nautical_to_meters (0.3 + 0.05)) (-10);
                 ob (nautical_to_meters 3.4) (nautical_to_meters (-1.5)) 45]);
    ("Case 18", [ob (nautical_to_meters 3.3) (nautical_to_meters (-0.3 - 0.1)) 10;
                 ob (nautical_to_meters 3.4) (nautical_to_meters (-1.5 + 0.05)) 45;
                 ob (nautical_to_meters 6.5) (nautical_to_meters (-1.5)) 135]);
    ("Case 19", [ob (nautical_to_meters 3) (nautical_to_meters (-0.3 - 0.07)) 10;
                 ob (nautical_to_meters 3) (nautical_to_meters (0.3 + 0.05)) (-10);
                 ob (nautical_to_meters 6.5) (nautical_to_meters (-1.5 - 0.03)) 135]);
    ("Case 20", [ob (nautical_to_meters 3) (nautical_to_meters 0) 0;
                 ob (nautical_to_meters 3) (nautical_to_meters (-0.3 - 0.05)) 10;
                 ob (nautical_to_meters 4.4) (nautical_to_meters (-2.1 + 0.25)) 90]);
    ("Case 21", [ob (nautical_to_meters (3 - 0.3)) (nautical_to_meters (-0.3 - 0.05)) 10;
                 ob (nautical_to_meters (3 - 0.3)) (nautical_to_meters (0.3 + 0.02)) (-10);
                 ob (nautical_to_meters 4.4) (nautical_to_meters (-1.9)) 90]);
    ("Case 22", [ob (nautical_to_meters 3) (nautical_to_meters 0) 0;
                 ob (nautical_to_meters 3.94) (nautical_to_meters (-1.6 - 0.13)) 45;
                 ob (nautical_to_meters 5) (nautical_to_meters (-2.01 - 0.15)) 90]);
    ("Case 23", [ob (nautical_to_meters 4.243) (nautical_to_meters 2.243) (-75)]) ]%string.

(** The dictionary key [f"Case {case_number}"]. *)
Definition case_key (case_number : Z) : string := ("Case " +:+ pretty case_number)%string.

(** [get_obstacles]: [obstacle_cases.get(case_key, [])]. *)
Definition get_obstacles (case_number : Z) : list obstacle :=
  default [] (obstacle_cases !! case_key case_number).

(** [np.radians] *)
Definition radians (deg : R) : R := deg * PI / 180.

(** [get_obstacle_data] returns [(Xob, Yob, Vob, psiob)]. *)
Definition get_obstacle_data (case_number : Z) : list R * list R * list R * list R :=
  let obstacles := get_obstacles case_number in
  let Vob := repeat 18.52 (length obstacles) in
  let Xob := map (fun o : obstacle => o.1.1) obstacles in
  let Yob := map (fun o : obstacle => o.1.2) obstacles in
  let psiob := map (fun o : obstacle => radians o.2) obstacles in
  (Xob, Yob, Vob, psiob).

(** ** Exceptions *)

Inductive exn : Type :=
  | IndexError
  | ZeroDivisionError
  | ValueError
  | HookError (msg : string).

(** The result of a call that may raise. *)
Inductive outcome (A : Type) : Type :=
  | Returns (a : A)
  | Raises (e : exn).
Arguments Returns {A} a.
Arguments Raises {A} e.

Definition bind {A B : Type} (m : outcome A) (k : A -> outcome B) : outcome B :=
  match m with
  | Returns a => k a
  | Raises e => Raises e
  end.

#[export] Instance outcome_bind : MBind outcome := fun A B k m => bind m k.
#[export] Instance outcome_ret : MRet outcome := fun A a => Returns a.

(** [for i in indices: s = body(i, s)], stopping at the first exception. *)
Fixpoint for_each {S : Type} (body : nat -> S -> outcome S) (indices : list nat) (s : S)
  : outcome S :=
  match indices with
  | [] => Returns s
  | i :: rest => s' ← body i s; for_each body rest s'
  end.

(** [l[0]] on a Python list: [IndexError] when the list is empty. *)
Definition list_first {A : Type} (l : list A) : outcome A :=
  match l with
  | [] => Raises IndexError
  | a :: _ => Returns a
  end.

(** ** Arrays *)

#[export] Instance R_inhabited : Inhabited R := populate 0.

(** [M[i, j]] and [M[i, j] = v] on a two-dimensional array; the loops of
    the simulation only use indices inside the array. *)
Definition get2 (M : list (list R)) (i j : nat) : R := (M !!! i) !!! j.
Definition set2 (M : list (list R)) (i j : nat) (v : R) : list (list R) :=
  <[i := <[j := v]> (M !!! i)]> M.

(** [M[:1] = v]: fill the first row, when there is one. *)
Definition fill_first_row (v : R) (M : list (list R)) : list (list R) :=
  match M with
  | [] => []
  | row :: rest => map (fun _ => v) row :: rest
  end.

(** Python's [round] of a float: to the nearest integer, ties to even. *)
Definition py_round (v : R) : Z :=
  let f := Int_part v in
  let d := v - IZR f in
  if decide (d < 1 / 2) then f
  else if decide (1 / 2 < d) then (f + 1)%Z
  else if Z.even f then f else (f + 1)%Z.

(** ** Strings *)

(** [str.lower] on ASCII text. *)
Definition lower_ascii (c : ascii) : ascii :=
  let n := nat_of_ascii c in
  if (65 <=? n)%nat && (n <=? 90)%nat then ascii_of_nat (n + 32) else c.
Fixpoint lower (s : string) : string :=
  match s with
  | EmptyString => EmptyString
  | String c s' => String (lower_ascii c) (lower s')
  end.

(** [str.upper] on ASCII text. *)
Definition upper_ascii (c : ascii) : ascii :=
  let n := nat_of_ascii c in
  if (97 <=? n)%nat && (n <=? 122)%nat then ascii_of_nat (n - 32) else c.
Fixpoint upper (s : string) : string :=
  match s with
  | EmptyString => EmptyString
  | String c s' => String (upper_ascii c) (upper s')
  end.

(** [sub in s] *)
Fixpoint contains (sub s : string) : bool :=
  String.prefix sub s ||
  match s with
  | EmptyString => false
  | String _ s' => contains sub s'
  end.

(** ** [simulation.py]: the decision hook *)

(** [extract_kdir_from_response]: +1 for starboard, -1 for port, 0 otherwise. *)
Definition extract_kdir_from_response (response : string) : Z :=
  let response_lower := lower response in
  if contains "turn starboard" response_lower
     || contains "alter course to starboard" response_lower
     || contains "starboard" response_lower then 1%Z
  else if contains "turn port" response_lower
          || contains "alter course to port" response_lower
          || contains "port" response_lower then (-1)%Z
  else 0%Z.

(** [multi_llm_decision.VesselState] *)
Record VesselState : Type := {
  vs_risk : R;
  vs_distance : R;
  vs_bearing : R;
  vs_dcpa : R;
  vs_tcpa : R
}.

(** An [LLMProvider]: [generate_response] catches every exception of the
    remote call and returns its text, so it always returns a string. *)
Record LLMProvider : Type := {
  generate_response : string -> string
}.

(** A [MultiLLMCOLREGSInterpreter] once constructed. *)
Record MultiLLMCOLREGSInterpreter : Type := {
  provider_name : string;
  provider : option LLMProvider
}.

(** The outside world of the decision hook: whether the import of the
    interpreter succeeded, what constructing an interpreter gives at the
    call made in loop step [i] (environment, keys, libraries; it may raise),
    and the text formatting of the situation. *)
Record Hook : Type := {
  LLM_AVAILABLE : bool;
  COLREGSInterpreter : nat -> option string -> outcome MultiLLMCOLREGSInterpreter;
  format_situation_description : list VesselState -> string
}.

Definition newline : string := String "010" EmptyString.

Definition system_prompt : string :=
  ("You are a ship navigation officer. Make COLREGs-compliant decisions with your response in this format Rule {} (situation description), Action: [Stand on, no action / Give-way, turn to starboard / Give-way, turn to port / Continue current"
   +:+ newline +:+ "maneuver], Explanation: Turn starboard req ..")%string.

(** [MultiLLMCOLREGSInterpreter.make_decision] *)
Definition make_decision (H : Hook) (self : MultiLLMCOLREGSInterpreter)
    (vessels : list VesselState) (time_idx : Z) : string :=
  match provider self with
  | None => "No LLM provider available"
  | Some p =>
      match vessels with
      | [] => "No vessels detected - maintain course and speed"
      | _ :: _ =>
          let situation_description := format_situation_description H vessels in
          let full_prompt :=
            (system_prompt +:+ newline +:+ newline +:+ situation_description)%string in
          let response := generate_response p full_prompt in
          let provider_info := ("[" +:+ upper (provider_name self) +:+ "] ")%string in
          (provider_info +:+ response)%string
      end
  end%string.

(** [zip(risk, distance, bearing, dcpa, tcpa)] into vessel states. *)
Fixpoint vessel_states (risk distance bearing dcpa tcpa : list R) : list VesselState :=
  match risk, distance, bearing, dcpa, tcpa with
  | r :: risk', d :: distance', b :: bearing', dc :: dcpa', tc :: tcpa' =>
      {| vs_risk := r; vs_distance := d; vs_bearing := b; vs_dcpa := dc; vs_tcpa := tc |}
      :: vessel_states risk' distance' bearing' dcpa' tcpa'
  | _, _, _, _, _ => []
  end.

(** [run_colm], called in loop step [i]. *)
Definition run_colm (H : Hook) (i : nat) (risk distance bearing dcpa tcpa : list R)
    (time_idx : Z) (provider : option string) : outcome string :=
  if negb (LLM_AVAILABLE H) then Returns "LLM not available - using default behavior"%string
  else
    interpreter ← COLREGSInterpreter H i provider;
    let vessels := vessel_states risk distance bearing dcpa tcpa in
    Returns (make_decision H interpreter vessels time_idx).

(** ** [simulation.py]: the components imported from the rest of the package *)

(** What [cpa_calculations] and [cpa_calculations_0speed] return:
    [(DCPA, TCPA, Vrel, alpha, psi_Vrel)]. *)
Record CPA : Type := {
  cpa_DCPA : R;
  cpa_TCPA : R;
  cpa_Vrel : R;
  cpa_alpha : R;
  cpa_psi_Vrel : R
}.

(** The functions that [simulation.py] imports from modules of the
    package: planning, dynamics, controller, actuator, integrator, obstacle
    kinematics, closing geometry and risk.  The orchestrator is verified for
    every choice of them. *)
Record Components : Type := {
  waypoint_selection : list R -> list R -> R -> R -> Z -> Z;
  planning : list R -> list R -> R -> R -> Z -> R;
  controller : R -> R -> R -> R -> list R -> R -> R -> R * R * R;
  actuator_modeling : R -> R -> R;
  vessel_dynamics : list R -> list R -> list R;
  integration : list R -> list R -> R -> list R;
  obstacle_sim : list R -> list R -> list R -> list R -> R
                 -> list R * list R * list R * list R;
  cpa_calculations : R -> R -> R -> R -> R -> R -> R -> R -> R -> CPA;
  cpa_calculations_0speed : R -> R -> R -> R -> R -> R -> R -> R -> R -> CPA;
  risk_calculations : R -> R -> R -> R -> R
}.

(** [obstacle_sim] returns four arrays as long as the arrays it is given. *)
Definition shape_preserving (C : Components) : Prop :=
  forall (Xob Yob Vob psiob : list R) (dt : R),
    length Yob = length Xob -> length Vob = length Xob -> length psiob = length Xob ->
    let '(Xob', Yob', Vxob, Vyob) := obstacle_sim C Xob Yob Vob psiob dt in
    length Xob' = length Xob /\ length Yob' = length Xob /\
    length Vxob = length Xob /\ length Vyob = length Xob.

(** ** [simulation.py]: arguments and state of [run_simulation] *)

Record Args : Type := {
  case_number : Z;
  sim_time : R;
  dt : R;
  no_animation : bool;
  output_dir : string;
  llm : Z;
  llm_provider : option string;
  compare : bool
}.

(** [args.llm = v] *)
Definition with_llm (v : Z) (args : Args) : Args :=
  {| case_number := case_number args; sim_time := sim_time args; dt := dt args;
     no_animation := no_animation args; output_dir := output_dir args;
     llm := v; llm_provider := llm_provider args; compare := compare args |}.

(** [args.no_animation = v] *)
Definition with_no_animation (v : bool) (args : Args) : Args :=
  {| case_number := case_number args; sim_time := sim_time args; dt := dt args;
     no_animation := v; output_dir := output_dir args;
     llm := llm args; llm_provider := llm_provider args; compare := compare args |}.

(** The per-obstacle arrays written by the risk analysis loop. *)
Record Geo : Type := {
  Distance_ob : list (list R);
  DCPA : list (list R);
  TCPA : list (list R);
  Vrel : list (list R);
  alpha : list (list R);
  psi_Vrel : list (list R);
  DCPA2 : list (list R);
  TCPA2 : list (list R);
  Vrel2 : list (list R);
  alpha2 : list (list R);
  psi_Vrel2 : list (list R);
  Risk : list (list R)
}.

(** [Distance_ob[i, :] = row] *)
Definition set_Distance_ob_row (i : nat) (row : list R) (g : Geo) : Geo :=
  {| Distance_ob := <[i := row]> (Distance_ob g);
     DCPA := DCPA g; TCPA := TCPA g; Vrel := Vrel g; alpha := alpha g;
     psi_Vrel := psi_Vrel g; DCPA2 := DCPA2 g; TCPA2 := TCPA2 g; Vrel2 := Vrel2 g;
     alpha2 := alpha2 g; psi_Vrel2 := psi_Vrel2 g; Risk := Risk g |}.

(** [Risk[i, j] = v] *)
Definition set_Risk (i j : nat) (v : R) (g : Geo) : Geo :=
  {| Distance_ob := Distance_ob g;
     DCPA := DCPA g; TCPA := TCPA g; Vrel := Vrel g; alpha := alpha g;
     psi_Vrel := psi_Vrel g; DCPA2 := DCPA2 g; TCPA2 := TCPA2 g; Vrel2 := Vrel2 g;
     alpha2 := alpha2 g; psi_Vrel2 := psi_Vrel2 g; Risk := set2 (Risk g) i j v |}.

(** The variables of [run_simulation] that live across loop iterations. *)
Module St.
Record Sim : Type := {
  t : R;
  X : list R;
  ui_psi1 : R;
  i_wpt : Z;
  Xob : list R;
  Yob : list R;
  time : list R;
  Kdir : list R;
  x : list R;
  y : list R;
  psi : list R;
  r : list R;
  b : list R;
  u : list R;
  v_c : list R;
  u_p : list R;
  tau_c : list R;
  tau_ac : list R;
  psi_p : list R;
  psi_wp : list R;
  psi_oa : list R;
  V_x : list R;
  V_y : list R;
  x_nmi : list R;
  y_nmi : list R;
  Xobs : list (list R);
  Yobs : list (list R);
  Vxobs : list (list R);
  Vyobs : list (list R);
  Bearing_ob : list (list R);
  geo : Geo
}.
End St.

(** What is fixed once the set-up is done. *)
Record Scenario : Type := {
  N : nat;
  Vob : list R;
  psiob : list R;
  LOA_ob : list R;
  BOL_ob : list R;
  CPA_ob : list R
}.

Definition Xwpt : list R := [0; nautical_to_meters 40 / 1852].
Definition Ywpt : list R := [0; 0].
Definition Sat_amp_s : R := 20.

(** ** [simulation.py]: one iteration of the risk analysis loop *)

Section RiskAnalysis.

Variable C : Components.
Variable Ts : R.
Variables x y V_x V_y : list R.
Variables Xobs Yobs Vxobs Vyobs : list (list R).

(** The statements guarded by [if i >= 1], up to and including the call of
    [cpa_calculations_0speed], for obstacle [j]. *)
Definition closing_geometry (i j : nat) (g : Geo) : Geo :=
  let Distance_ob :=
    set2 (Distance_ob g) i j
         (sqrt ((get2 Xobs i j - x !!! i) ^ 2 + (get2 Yobs i j - y !!! i) ^ 2)) in
  let c1 :=
    cpa_calculations C (x !!! i) (y !!! i) (x !!! (i - 1)%nat) (y !!! (i - 1)%nat)
      (get2 Xobs i j) (get2 Yobs i j) (get2 Xobs (i - 1) j) (get2 Yobs (i - 1) j) Ts in
  let c2 :=
    cpa_calculations_0speed C (x !!! i) (y !!! i) (get2 Xobs i j) (get2 Yobs i j)
      (V_x !!! i) (V_y !!! i) (get2 Vxobs i j) (get2 Vyobs i j) (get2 Distance_ob i j) in
  {| Distance_ob := Distance_ob;
     DCPA := set2 (DCPA g) i j (cpa_DCPA c1);
     TCPA := set2 (TCPA g) i j (cpa_TCPA c1);
     Vrel := set2 (Vrel g) i j (cpa_Vrel c1);
     alpha := set2 (alpha g) i j (cpa_alpha c1);
     psi_Vrel := set2 (psi_Vrel g) i j (cpa_psi_Vrel c1);
     DCPA2 := set2 (DCPA2 g) i j (cpa_DCPA c2);
     TCPA2 := set2 (TCPA2 g) i j (cpa_TCPA c2);
     Vrel2 := set2 (Vrel2 g) i j (cpa_Vrel c2);
     alpha2 := set2 (alpha2 g) i j (cpa_alpha c2);
     psi_Vrel2 := set2 (psi_Vrel2 g) i j (cpa_psi_Vrel c2);
     Risk := Risk g |}.

(** [Risk[i, j] = risk_calculations(DCPA[i, j], TCPA[i, j], Distance_ob[i, j], Vrel[i, j])] *)
Definition risk_entry (i j : nat) (g : Geo) : Geo :=
  set_Risk i j
    (risk_calculations C (get2 (DCPA g) i j) (get2 (TCPA g) i j)
       (get2 (Distance_ob g) i j) (get2 (Vrel g) i j)) g.

(** Body of [for j in range(len(Xob))] in the branch without animation:
    the risk entry is written inside [if i >= 1]. *)
Definition risk_analysis_plain (i j : nat) (g : Geo) : Geo :=
  if bool_decide (1 <= i)%nat then risk_entry i j (closing_geometry i j g) else g.

(** Body of [for j in range(len(Xob))] in the animated branch: the risk
    entry is written after [if i >= 1], at every step. *)
Definition risk_analysis_animated (i j : nat) (g : Geo) : Geo :=
  let g := if bool_decide (1 <= i)%nat then closing_geometry i j g else g in
  risk_entry i j g.

End RiskAnalysis.

(** ** [animate.py] *)

(** [animate_step] draws; the only way it can fail by itself is [colors[j]]
    with [j >= 3], reached when [step % 400 == 0], [Vob[j] > 0.5] and
    [step % 100 == 0]. *)
Definition animate_obstacle (Vob : list R) (step j : nat) : outcome unit :=
  if bool_decide (0.5 < Vob !!! j) then
    if bool_decide (step mod 100 = 0)%nat then
      if bool_decide (j < 3)%nat then Returns tt else Raises IndexError
    else Returns tt
  else Returns tt.

Definition animate_step (Xob Vob : list R) (step : nat) : outcome unit :=
  if bool_decide (step mod 400 = 0)%nat then
    for_each (fun j _ => animate_obstacle Vob step j) (seq 0 (length Xob)) tt
  else Returns tt.

(** ** [simulation.py]: the decision block at the end of an iteration *)

(** [if args.llm == 1: ...]: every 200 steps the hook is asked and its
    directive is stored in [Kdir[i]]. *)
Definition llm_block (H : Hook) (args : Args) (i : nat)
    (Risk_i Distance_ob_i Bearing_ob_i DCPA_i TCPA_i : list R) (Kdir : list R)
  : outcome (list R) :=
  if bool_decide (llm args = 1%Z) then
    if negb (LLM_AVAILABLE H) then Returns Kdir
    else if bool_decide (i mod 200 = 0)%nat then
      decision ← run_colm H i Risk_i Distance_ob_i Bearing_ob_i DCPA_i TCPA_i 0
                   (llm_provider args);
      let new_kdir := extract_kdir_from_response decision in
      Returns (<[i := IZR new_kdir]> Kdir)
    else Returns Kdir
  else Returns Kdir.

(** ** [simulation.py]: one iteration of the main loop *)

Section Step.

Variable C : Components.
Variable H : Hook.
Variable args : Args.
Variable sc : Scenario.

(** The branch [else:  # Run simulation without animation]. *)
Definition step_plain (i : nat) (s : St.Sim) : outcome St.Sim :=
  let Ts := dt args in
  (* Record current state *)
  let time := St.time s ++ [St.t s] in
  let x := <[i := St.X s !!! 0%nat]> (St.x s) in
  let y := <[i := St.X s !!! 1%nat]> (St.y s) in
  let psi := <[i := St.X s !!! 2%nat]> (St.psi s) in
  let r := <[i := St.X s !!! 3%nat]> (St.r s) in
  let b := <[i := St.X s !!! 4%nat]> (St.b s) in
  let u := <[i := St.X s !!! 5%nat]> (St.u s) in
  (* Convert to nautical miles *)
  let x_nmi := <[i := x !!! i / 1852]> (St.x_nmi s) in
  let y_nmi := <[i := y !!! i / 1852]> (St.y_nmi s) in
  (* Speed command *)
  let u_p := <[i := 43.3]> (St.u_p s) in
  (* Convert to nautical miles *)
  let METERS_TO_NMI := 1 / 1852 in
  let x_nmi := map (fun xi => xi * METERS_TO_NMI) x in
  let y_nmi := map (fun yi => yi * METERS_TO_NMI) y in
  let Xob_nmi := map (fun xo => xo * METERS_TO_NMI) (St.Xob s) in
  let Yob_nmi := map (fun yo => yo * METERS_TO_NMI) (St.Yob s) in
  (* Path planning and collision avoidance *)
  let i_wpt := waypoint_selection C Xwpt Ywpt (x_nmi !!! i) (y_nmi !!! i) (St.i_wpt s) in
  let psi_wp := <[i := planning C Xwpt Ywpt (x_nmi !!! i) (y_nmi !!! i) i_wpt]> (St.psi_wp s) in
  let ra := reactive_avoidance Xob_nmi Yob_nmi (x_nmi !!! i) (y_nmi !!! i) (psi !!! i) (St.t s) in
  let psi_oa := <[i := ra_psi_oa ra]> (St.psi_oa s) in
  let g := set_Distance_ob_row i (ra_distance_ob ra) (St.geo s) in
  let Bearing_ob := <[i := ra_bearing_ob ra]> (St.Bearing_ob s) in
  (* Overall yaw command with Kdir *)
  let psi_p := <[i := psi_wp !!! i + St.Kdir s !!! i * psi_oa !!! i]> (St.psi_p s) in
  (* Controller and actuator *)
  let ctl := controller C (psi_p !!! i) (psi !!! i) (r !!! i) (u_p !!! i) b (St.ui_psi1 s) Ts in
  let tau_c := <[i := ctl.1.1]> (St.tau_c s) in
  let v_c := <[i := ctl.1.2]> (St.v_c s) in
  let ui_psi1 := ctl.2 in
  let tau_ac := <[i := actuator_modeling C (tau_c !!! i) Sat_amp_s]> (St.tau_ac s) in
  (* Store current state *)
  let X_0 := St.X s in
  (* System dynamics *)
  let inputs := [tau_ac !!! i; v_c !!! i] in
  let X_dot := vessel_dynamics C X_0 inputs in
  let X := integration C X_0 X_dot (dt args) in
  let V_x := <[i := X_dot !!! 0%nat]> (St.V_x s) in
  let V_y := <[i := X_dot !!! 1%nat]> (St.V_y s) in
  (* Obstacles simulation *)
  let obs := obstacle_sim C (St.Xob s) (St.Yob s) (Vob sc) (psiob sc) (dt args) in
  let Xob := obs.1.1.1 in
  let Yob := obs.1.1.2 in
  let Vxob := obs.1.2 in
  let Vyob := obs.2 in
  let Xobs := <[i := Xob]> (St.Xobs s) in
  let Yobs := <[i := Yob]> (St.Yobs s) in
  let Vxobs := <[i := Vxob]> (St.Vxobs s) in
  let Vyobs := <[i := Vyob]> (St.Vyobs s) in
  (* Risk analysis *)
  let g := foldl (fun g j => risk_analysis_plain C Ts x y V_x V_y Xobs Yobs Vxobs Vyobs i j g)
                 g (seq 0 (length Xob)) in
  Kdir ← llm_block H args i (Risk g !!! i) (Distance_ob g !!! i) (Bearing_ob !!! i)
            (DCPA g !!! i) (TCPA g !!! i) (St.Kdir s);
  let t := St.t s + dt args in
  Returns
    {| St.t := t; St.X := X; St.ui_psi1 := ui_psi1; St.i_wpt := i_wpt;
       St.Xob := Xob; St.Yob := Yob; St.time := time; St.Kdir := Kdir;
       St.x := x; St.y := y; St.psi := psi; St.r := r; St.b := b; St.u := u;
       St.v_c := v_c; St.u_p := u_p; St.tau_c := tau_c; St.tau_ac := tau_ac;
       St.psi_p := psi_p; St.psi_wp := psi_wp; St.psi_oa := psi_oa;
       St.V_x := V_x; St.V_y := V_y; St.x_nmi := x_nmi; St.y_nmi := y_nmi;
       St.Xobs := Xobs; St.Yobs := Yobs; St.Vxobs := Vxobs; St.Vyobs := Vyobs;
       St.Bearing_ob := Bearing_ob; St.geo := g |}.

(** The branch [if Animation:], inside [with writer.saving(...)].  Drawing
    and frame grabbing leave the variables of the loop alone. *)
Definition step_animated (i : nat) (s : St.Sim) : outcome St.Sim :=
  let Ts := dt args in
  (* Record current state *)
  let time := St.time s ++ [St.t s] in
  let x := <[i := St.X s !!! 0%nat]> (St.x s) in
  let y := <[i := St.X s !!! 1%nat]> (St.y s) in
  let psi := <[i := St.X s !!! 2%nat]> (St.psi s) in
  let r := <[i := St.X s !!! 3%nat]> (St.r s) in
  let b := <[i := St.X s !!! 4%nat]> (St.b s) in
  let u := <[i := St.X s !!! 5%nat]> (St.u s) in
  let X_0 := St.X s in
  (* Speed command *)
  let u_p := <[i := 43.3]> (St.u_p s) in
  (* Convert to nautical miles *)
  let METERS_TO_NMI := 1 / 1852 in
  let x_nmi := map (fun xi => xi * METERS_TO_NMI) x in
  let y_nmi := map (fun yi => yi * METERS_TO_NMI) y in
  let Xob_nmi := map (fun xo => xo * METERS_TO_NMI) (St.Xob s) in
  let Yob_nmi := map (fun yo => yo * METERS_TO_NMI) (St.Yob s) in
  (* Path planning and collision avoidance *)
  let i_wpt := waypoint_selection C Xwpt Ywpt (x_nmi !!! i) (y_nmi !!! i) (St.i_wpt s) in
  let psi_wp := <[i := planning C Xwpt Ywpt (x_nmi !!! i) (y_nmi !!! i) i_wpt]> (St.psi_wp s) in
  let ra := reactive_avoidance Xob_nmi Yob_nmi (x_nmi !!! i) (y_nmi !!! i) (psi !!! i) (St.t s) in
  let psi_oa := <[i := ra_psi_oa ra]> (St.psi_oa s) in
  let g := set_Distance_ob_row i (ra_distance_ob ra) (St.geo s) in
  let Bearing_ob := <[i := ra_bearing_ob ra]> (St.Bearing_ob s) in
  (* Overall yaw command with Kdir *)
  let psi_p := <[i := psi_wp !!! i + St.Kdir s !!! i * psi_oa !!! i]> (St.psi_p s) in
  (* Controller and actuator *)
  let ctl := controller C (psi_p !!! i) (psi !!! i) (r !!! i) (u_p !!! i) b (St.ui_psi1 s) Ts in
  let tau_c := <[i := ctl.1.1]> (St.tau_c s) in
  let v_c := <[i := ctl.1.2]> (St.v_c s) in
  let ui_psi1 := ctl.2 in
  let tau_ac := <[i := actuator_modeling C (tau_c !!! i) Sat_amp_s]> (St.tau_ac s) in
  (* System dynamics *)
  let inputs := [tau_ac !!! i; v_c !!! i] in
  let X_dot := vessel_dynamics C X_0 inputs in
  let X := integration C X_0 X_dot (dt args) in
  let V_x := <[i := X_dot !!! 0%nat]> (St.V_x s) in
  let V_y := <[i := X_dot !!! 1%nat]> (St.V_y s) in
  (* Obstacles simulation *)
  let obs := obstacle_sim C (St.Xob s) (St.Yob s) (Vob sc) (psiob sc) (dt args) in
  let Xob := obs.1.1.1 in
  let Yob := obs.1.1.2 in
  let Vxob := obs.1.2 in
  let Vyob := obs.2 in
  let Xobs := <[i := Xob]> (St.Xobs s) in
  let Yobs := <[i := Yob]> (St.Yobs s) in
  let Vxobs := <[i := Vxob]> (St.Vxobs s) in
  let Vyobs := <[i := Vyob]> (St.Vyobs s) in
  (* Risk analysis *)
  let g := foldl (fun g j => risk_analysis_animated C Ts x y V_x V_y Xobs Yobs Vxobs Vyobs i j g)
                 g (seq 0 (length Xob)) in
  Kdir ← llm_block H args i (Risk g !!! i) (Distance_ob g !!! i) (Bearing_ob !!! i)
            (DCPA g !!! i) (TCPA g !!! i) (St.Kdir s);
  (* Animation *)
  _ ← animate_step Xob_nmi (Vob sc) i;
  let t := St.t s + dt args in
  Returns
    {| St.t := t; St.X := X; St.ui_psi1 := ui_psi1; St.i_wpt := i_wpt;
       St.Xob := Xob; St.Yob := Yob; St.time := time; St.Kdir := Kdir;
       St.x := x; St.y := y; St.psi := psi; St.r := r; St.b := b; St.u := u;
       St.v_c := v_c; St.u_p := u_p; St.tau_c := tau_c; St.tau_ac := tau_ac;
       St.psi_p := psi_p; St.psi_wp := psi_wp; St.psi_oa := psi_oa;
       St.V_x := V_x; St.V_y := V_y; St.x_nmi := x_nmi; St.y_nmi := y_nmi;
       St.Xobs := Xobs; St.Yobs := Yobs; St.Vxobs := Vxobs; St.Vyobs := Vyobs;
       St.Bearing_ob := Bearing_ob; St.geo := g |}.

End Step.

(** ** [simulation.py]: set-up and [run_simulation] *)

(** State at the head of the first iteration, for [N] steps and the
    obstacles [(Xob, Yob)]. *)
Definition initial_state (N : nat) (Xob Yob : list R) : St.Sim :=
  let x_v := 0 in
  let y_v := 0 in
  let psi_v := radians 0 in
  let r_v := 0 in
  let b_v := 0 in
  let u_v := 0 in
  let X_0 := [x_v; y_v; psi_v; r_v; b_v; u_v] in
  let n := length Xob in
  {| St.t := 0; St.X := X_0; St.ui_psi1 := 0; St.i_wpt := 1;
     St.Xob := Xob; St.Yob := Yob; St.time := []; St.Kdir := ones N;
     St.x := zeros N; St.y := zeros N; St.psi := zeros N; St.r := zeros N;
     St.b := zeros N; St.u := zeros N;
     St.v_c := zeros N; St.u_p := zeros N; St.tau_c := zeros N; St.tau_ac := zeros N;
     St.psi_p := zeros N; St.psi_wp := zeros N; St.psi_oa := zeros N;
     St.V_x := zeros N; St.V_y := zeros N; St.x_nmi := zeros N; St.y_nmi := zeros N;
     St.Xobs := zeros2 N n; St.Yobs := zeros2 N n;
     St.Vxobs := zeros2 N n; St.Vyobs := zeros2 N n;
     St.Bearing_ob := zeros2 N n;
     St.geo :=
       {| Distance_ob := zeros2 N n;
          DCPA := fill_first_row 1000 (zeros2 N n);
          TCPA := fill_first_row 1000 (zeros2 N n);
          Vrel := zeros2 N n; alpha := zeros2 N n; psi_Vrel := zeros2 N n;
          DCPA2 := zeros2 N n; TCPA2 := zeros2 N n; Vrel2 := zeros2 N n;
          alpha2 := zeros2 N n; psi_Vrel2 := zeros2 N n;
          Risk := zeros2 N n |} |}.

(** Everything [run_simulation] does before the main loop.  Opening the
    figure and the animation writer is left out. *)
Definition setup (args : Args) : outcome (Scenario * St.Sim) :=
  if decide (dt args = 0) then Raises ZeroDivisionError
  else
    let N := py_round (sim_time args / dt args) in
    (* Get obstacle data *)
    let '(Xob, Yob, Vob, psiob) := get_obstacle_data (case_number args) in
    let LOA_ob := repeat 80 (length Xob) in
    let BOL_ob := repeat 30 (length Xob) in
    LOA_ob_0 ← list_first LOA_ob;
    let CPA_ob := repeat (LOA_ob_0 * 1) (length Xob) in
    (* Initialize arrays *)
    if bool_decide (N < 0)%Z then Raises ValueError
    else
      Returns ({| N := Z.to_nat N; Vob := Vob; psiob := psiob;
                  LOA_ob := LOA_ob; BOL_ob := BOL_ob; CPA_ob := CPA_ob |},
               initial_state (Z.to_nat N) Xob Yob).

(** [for i in range(len(x))], in the branch selected by [Animation]. *)
Definition main_loop (C : Components) (H : Hook) (args : Args) (sc : Scenario)
    (s0 : St.Sim) : outcome St.Sim :=
  let Animation := negb (no_animation args) in
  if Animation
  then for_each (step_animated C H args sc) (seq 0 (length (St.x s0))) s0
  else for_each (step_plain C H args sc) (seq 0 (length (St.x s0))) s0.

(** The body of [run_simulation] after the comparison check; the plots
    drawn after the loop are left out. *)
Definition simulate (C : Components) (H : Hook) (args : Args) : outcome St.Sim :=
  init ← setup args;
  main_loop C H args init.1 init.2.

(** The ['kdir'] entry of the returned data: the sign of [Kdir[i] * psi_oa[i]]. *)
Definition comparison_kdir (s : St.Sim) : list R :=
  zip_with (fun k p =>
              let control_value := k * p in
              if decide (0 < control_value) then 1
              else if decide (control_value < 0) then -1
              else 0)
           (St.Kdir s) (St.psi_oa s).

Inductive run_result : Type :=
  | Simulation (s : St.Sim)
  | Comparison (baseline_results llm_results : St.Sim).

(** [comparison_simulation.run_comparison_simulation], without its plots. *)
Definition run_comparison_simulation (C : Components) (H : Hook) (args : Args)
  : outcome run_result :=
  baseline_results ← simulate C H (with_llm 0 args);
  llm_results ← simulate C H (with_llm 1 args);
  Returns (Comparison baseline_results llm_results).

Definition run_simulation (C : Components) (H : Hook) (args : Args) (return_data : bool)
  : outcome run_result :=
  if compare args && negb return_data then run_comparison_simulation C H args
  else s ← simulate C H args; Returns (Simulation s).

(** ** Concrete components, hooks and arguments *)

(** Obstacle kinematics in the sense of section 4.2 of the specification:
    obstacles keep speed and heading; the call returns the advanced
    positions and the velocity components [speed * cos heading],
    [speed * sin heading]. *)
Definition straight_line_obstacles (Xob Yob Vob psiob : list R) (dt : R)
  : list R * list R * list R * list R :=
  let Vxob := zip_with (fun v p => v * cos p) Vob psiob in
  let Vyob := zip_with (fun v p => v * sin p) Vob psiob in
  (zip_with (fun xo v => xo + v * dt) Xob Vxob,
   zip_with (fun yo v => yo + v * dt) Yob Vyob, Vxob, Vyob).

(** A forward Euler step, as section 4.1 of the specification allows. *)
Definition forward_euler (X_0 X_dot : list R) (dt : R) : list R :=
  zip_with (fun xi xd => xi + xd * dt) X_0 X_dot.

(** A hard clip at the saturation amplitude, as in section 4.7 of the
    specification. *)
Definition clip (tau Sat_amp : R) : R :=
  if decide (Sat_amp < tau) then Sat_amp
  else if decide (tau < - Sat_amp) then - Sat_amp
  else tau.

(** One choice of components, used only to exhibit concrete runs: obstacles
    on straight lines, forward Euler, a clipping actuator, and for the rest a
    vessel that receives no command and reports no closing geometry.  The
    theorems on [run_simulation] hold for every choice. *)
Definition still_components : Components :=
  {| waypoint_selection := fun _ _ _ _ i_wpt => i_wpt;
     planning := fun _ _ _ _ _ => 0;
     controller := fun _ _ _ _ _ ui_psi1 _ => (0, 0, ui_psi1);
     actuator_modeling := clip;
     vessel_dynamics := fun _ _ => zeros 6;
     integration := forward_euler;
     obstacle_sim := straight_line_obstacles;
     cpa_calculations := fun _ _ _ _ _ _ _ _ _ =>
       {| cpa_DCPA := 0; cpa_TCPA := 0; cpa_Vrel := 0; cpa_alpha := 0; cpa_psi_Vrel := 0 |};
     cpa_calculations_0speed := fun _ _ _ _ _ _ _ _ _ =>
       {| cpa_DCPA := 0; cpa_TCPA := 0; cpa_Vrel := 0; cpa_alpha := 0; cpa_psi_Vrel := 0 |};
     risk_calculations := fun _ _ _ _ => 0 |}.

(** A hook whose language model answers every prompt with [answer]. *)
Definition answering_hook (answer : string) : Hook :=
  {| LLM_AVAILABLE := true;
     COLREGSInterpreter := fun _ _ =>
       Returns {| provider_name := "openai";
                  provider := Some {| generate_response := fun _ => answer |} |};
     format_situation_description := fun _ => EmptyString |}.

(** The interpreter imports, but no provider has a key: [provider] is [None]. *)
Definition keyless_hook : Hook :=
  {| LLM_AVAILABLE := true;
     COLREGSInterpreter := fun _ _ =>
       Returns {| provider_name := "openai"; provider := None |};
     format_situation_description := fun _ => EmptyString |}.

(** The interpreter module could not be imported. *)
Definition absent_hook : Hook :=
  {| LLM_AVAILABLE := false;
     COLREGSInterpreter := fun _ _ => Raises (HookError "not imported");
     format_situation_description := fun _ => EmptyString |}.

(** Constructing the interpreter raises at every call. *)
Definition raising_hook : Hook :=
  {| LLM_AVAILABLE := true;
     COLREGSInterpreter := fun _ _ => Raises (HookError "connection refused");
     format_situation_description := fun _ => EmptyString |}.

(** [--case_number 1 --sim_time 2 --dt 1 --no_animation --llm 1] *)
Definition short_run_args : Args :=
  {| case_number := 1; sim_time := 2; dt := 1; no_animation := true;
     output_dir := "img/"; llm := 1; llm_provider := None; compare := false |}.

(** The same run with the animation on. *)
Definition short_animated_args : Args :=
  {| case_number := 1; sim_time := 2; dt := 1; no_animation := false;
     output_dir := "img/"; llm := 1; llm_provider := None; compare := false |}.

(** [--case_number 24], the other arguments at their defaults. *)
Definition unknown_case_args : Args :=
  {| case_number := 24; sim_time := 450; dt := 0.1; no_animation := false;
     output_dir := "img/"; llm := 0; llm_provider := None; compare := false |}.

(** The state a run ends in, when it ends. *)
Definition final_state (o : outcome St.Sim) : St.Sim :=
  match o with
  | Returns s => s
  | Raises _ => initial_state 0 [] []
  end.


(** ** Vocabulary of the loop invariants *)

(** The arrays of [Geo], by name. *)
Inductive geo_field : Type :=
  | F_Distance_ob | F_DCPA | F_TCPA | F_Vrel | F_alpha | F_psi_Vrel
  | F_DCPA2 | F_TCPA2 | F_Vrel2 | F_alpha2 | F_psi_Vrel2 | F_Risk.

#[export] Instance geo_field_eq_dec : EqDecision geo_field.
Proof. solve_decision. Defined.

Definition geo_get (f : geo_field) (g : Geo) : list (list R) :=
  match f with
  | F_Distance_ob => Distance_ob g
  | F_DCPA => DCPA g
  | F_TCPA => TCPA g
  | F_Vrel => Vrel g
  | F_alpha => alpha g
  | F_psi_Vrel => psi_Vrel g
  | F_DCPA2 => DCPA2 g
  | F_TCPA2 => TCPA2 g
  | F_Vrel2 => Vrel2 g
  | F_alpha2 => alpha2 g
  | F_psi_Vrel2 => psi_Vrel2 g
  | F_Risk => Risk g
  end.

(** The body of the main loop and of its risk analysis loop, in the branch
    selected by [animated]. *)
Definition loop_body (C : Components) (H : Hook) (args : Args) (sc : Scenario)
    (animated : bool) : nat -> St.Sim -> outcome St.Sim :=
  if animated then step_animated C H args sc else step_plain C H args sc.

Definition risk_analysis (C : Components) (animated : bool) (Ts : R)
    (x y V_x V_y : list R) (Xobs Yobs Vxobs Vyobs : list (list R)) (i j : nat) (g : Geo)
  : Geo :=
  if animated then risk_analysis_animated C Ts x y V_x V_y Xobs Yobs Vxobs Vyobs i j g
  else risk_analysis_plain C Ts x y V_x V_y Xobs Yobs Vxobs Vyobs i j g.

(** The steps at which the hook is asked. *)
Definition decision_step (H : Hook) (args : Args) (i : nat) : Prop :=
  llm args = 1%Z /\ LLM_AVAILABLE H = true /\ (i mod 200 = 0)%nat.

(** The arguments [reactive_avoidance] is called with in iteration [i],
    read off the state [s'] after the iteration and the obstacle positions
    [(Xob, Yob)] before it. *)
Definition avoidance_call (i : nat) (Xob Yob : list R) (t : R) (s' : St.Sim)
  : R * list R * list R * list R * list R :=
  reactive_avoidance (map (fun xo => xo * (1 / 1852)) Xob) (map (fun yo => yo * (1 / 1852)) Yob)
    (St.x_nmi s' !!! i) (St.y_nmi s' !!! i) (St.psi s' !!! i) t.

(** What one iteration [i] does to the state, in either branch. *)
Record step_facts (C : Components) (H : Hook) (args : Args) (sc : Scenario)
    (animated : bool) (i : nat) (s s' : St.Sim) : Prop := {
  sf_x : St.x s' = <[i := St.X s !!! 0%nat]> (St.x s);
  sf_y : St.y s' = <[i := St.X s !!! 1%nat]> (St.y s);
  sf_psi_wp : exists v, St.psi_wp s' = <[i := v]> (St.psi_wp s);
  sf_psi_oa :
    St.psi_oa s' = <[i := ra_psi_oa (avoidance_call i (St.Xob s) (St.Yob s) (St.t s) s')]>
                     (St.psi_oa s);
  sf_psi_p :
    St.psi_p s' = <[i := St.psi_wp s' !!! i + St.Kdir s !!! i * St.psi_oa s' !!! i]>
                    (St.psi_p s);
  sf_Kdir :
    llm_block H args i (Risk (St.geo s') !!! i) (Distance_ob (St.geo s') !!! i)
      (St.Bearing_ob s' !!! i) (DCPA (St.geo s') !!! i) (TCPA (St.geo s') !!! i) (St.Kdir s)
    = Returns (St.Kdir s');
  sf_Xob : St.Xob s' = (obstacle_sim C (St.Xob s) (St.Yob s) (Vob sc) (psiob sc) (dt args)).1.1.1;
  sf_Yob : St.Yob s' = (obstacle_sim C (St.Xob s) (St.Yob s) (Vob sc) (psiob sc) (dt args)).1.1.2;
  sf_Xobs : St.Xobs s' = <[i := St.Xob s']> (St.Xobs s);
  sf_Yobs : St.Yobs s' = <[i := St.Yob s']> (St.Yobs s);
  sf_Bearing_ob :
    St.Bearing_ob s'
    = <[i := ra_bearing_ob (avoidance_call i (St.Xob s) (St.Yob s) (St.t s) s')]>
        (St.Bearing_ob s);
  sf_geo :
    St.geo s'
    = foldl (fun g j => risk_analysis C animated (dt args) (St.x s') (St.y s')
                          (St.V_x s') (St.V_y s') (St.Xobs s') (St.Yobs s')
                          (St.Vxobs s') (St.Vyobs s') i j g)
            (set_Distance_ob_row i
               (ra_distance_ob (avoidance_call i (St.Xob s) (St.Yob s) (St.t s) s'))
               (St.geo s))
            (seq 0 (length (St.Xob s')))
}.

(** Every array of [g] has [N] rows of [n] entries. *)
Definition geo_shape (N n : nat) (g : Geo) : Prop :=
  forall f, length (geo_get f g) = N /\
            forall r, (r < N)%nat -> length (geo_get f g !!! r) = n.

(** What [cpa_calculations] returns in iteration [i] for obstacle [j], read
    off the recorded positions at steps [i] and [i - 1]. *)
Definition finite_difference_cpa (C : Components) (args : Args) (s : St.Sim) (i j : nat) : CPA :=
  cpa_calculations C (St.x s !!! i) (St.y s !!! i)
    (St.x s !!! (i - 1)%nat) (St.y s !!! (i - 1)%nat)
    (get2 (St.Xobs s) i j) (get2 (St.Yobs s) i j)
    (get2 (St.Xobs s) (i - 1) j) (get2 (St.Yobs s) (i - 1) j) (dt args).

(** The entries [(i, j)] of the finite-difference arrays hold that result. *)
Definition finite_difference_recorded (C : Components) (args : Args) (s : St.Sim)
    (i j : nat) : Prop :=
  let c := finite_difference_cpa C args s i j in
  get2 (DCPA (St.geo s)) i j = cpa_DCPA c /\
  get2 (TCPA (St.geo s)) i j = cpa_TCPA c /\
  get2 (Vrel (St.geo s)) i j = cpa_Vrel c /\
  get2 (alpha (St.geo s)) i j = cpa_alpha c /\
  get2 (psi_Vrel (St.geo s)) i j = cpa_psi_Vrel c.

(** Row 0 of the finite-difference arrays as the set-up leaves it. *)
Definition first_row_untouched (n : nat) (g : Geo) : Prop :=
  DCPA g !!! 0%nat = repeat 1000 n /\ TCPA g !!! 0%nat = repeat 1000 n /\
  Vrel g !!! 0%nat = zeros n /\ alpha g !!! 0%nat = zeros n /\
  psi_Vrel g !!! 0%nat = zeros n.

(** Row 0 of [Risk] after the first iteration, in each branch. *)
Definition first_row_risk (C : Components) (animated : bool) (n : nat) (g : Geo) : Prop :=
  if animated
  then forall j, (j < n)%nat ->
         get2 (Risk g) 0 j = risk_calculations C 1000 1000 (get2 (Distance_ob g) 0 j) 0
  else Risk g !!! 0%nat = zeros n.



(** The state with [Kdir] blanked: everything the loop records apart from
    the directives of the hook. *)
Definition without_Kdir (s : St.Sim) : St.Sim :=
  {| St.t := St.t s; St.X := St.X s; St.ui_psi1 := St.ui_psi1 s; St.i_wpt := St.i_wpt s;
     St.Xob := St.Xob s; St.Yob := St.Yob s; St.time := St.time s; St.Kdir := [];
     St.x := St.x s; St.y := St.y s; St.psi := St.psi s; St.r := St.r s; St.b := St.b s;
     St.u := St.u s; St.v_c := St.v_c s; St.u_p := St.u_p s; St.tau_c := St.tau_c s;
     St.tau_ac := St.tau_ac s; St.psi_p := St.psi_p s; St.psi_wp := St.psi_wp s;
     St.psi_oa := St.psi_oa s; St.V_x := St.V_x s; St.V_y := St.V_y s;
     St.x_nmi := St.x_nmi s; St.y_nmi := St.y_nmi s;
     St.Xobs := St.Xobs s; St.Yobs := St.Yobs s; St.Vxobs := St.Vxobs s;
     St.Vyobs := St.Vyobs s; St.Bearing_ob := St.Bearing_ob s;
     St.geo := St.geo s |}.

(** ** [decision_making.py] *)

#[export] Instance Rge_decision : RelDecision Rge := Rge_dec.

(** An elementwise operation on two one-dimensional arrays under numpy's
    broadcasting: equal lengths, or one of the two of length one; any other
    pair of lengths raises [ValueError]. *)
Definition broadcast2 (f : R -> R -> R) (a b : list R) : outcome (list R) :=
  if decide (length a = length b) then Returns (zip_with f a b)
  else match a, b with
       | [a0], _ => Returns (map (f a0) b)
       | _, [b0] => Returns (map (fun ai => f ai b0) a)
       | _, _ => Raises ValueError
       end.

(** [v[i]] on an array: [IndexError] outside the array. *)
Definition array_get (v : list R) (i : nat) : outcome R :=
  match v !! i with
  | Some vi => Returns vi
  | None => Raises IndexError
  end.

(** The body of [for i in range(len(x_ob))]: the rule number and the
    heading direction are overwritten according to the sector in which the
    relative bearing of obstacle [i] lies. *)
Definition decision_making_obstacle (v_rel u : R) (relative_bearing_ob : list R)
    (i : nat) (st : R * Z) : outcome (R * Z) :=
  rb ← array_get relative_bearing_ob i;
  let '(colreg_no, heading_dir) := st in
  if decide (Rabs rb <= 6 * PI / 180) then
    (* Head-on (overtake/move to starboard) *)
    if decide (v_rel >= u) then Returns (14, 1%Z) else Returns (13, 1%Z)
  else if decide (6 * PI / 180 < rb /\ rb <= 112 * PI / 180) then
    (* Crossing - Give way *)
    Returns (15.1, 1%Z)
  else if decide (-118 * PI / 180 <= rb /\ rb < -6 * PI / 180) then
    (* Crossing - Stand on *)
    Returns (15.2, 0%Z)
  else if decide (112 * PI / 180 < rb \/ rb < -118 * PI / 180) then
    (* Overtaking - Stand on *)
    if decide (v_rel >= u) then Returns (13, 0%Z) else Returns (13, 0%Z)
  else Returns (colreg_no, heading_dir).

(** [decision_making(x, y, psi, x_ob, y_ob, psi_ob, v_rel, u, risk)] returns
    [(colreg_no, heading_dir, speed_level, relative_bearing_ob)]. *)
Definition decision_making (x y psi : R) (x_ob y_ob psi_ob : list R) (v_rel u : R)
    (risk : list R) : outcome (R * Z * Z * list R) :=
  let colreg_no := 0 in
  let heading_dir := 1%Z in
  let speed_level := 0%Z in
  distance_ob ← broadcast2 (fun dx2 dy2 => sqrt (dx2 + dy2))
                   (map (fun xo => (xo - x) ^ 2) x_ob) (map (fun yo => (yo - y) ^ 2) y_ob);
  los_ob ← broadcast2 arctan2 (map (fun yo => yo - y) y_ob) (map (fun xo => xo - x) x_ob);
  let relative_bearing_ob := map (fun l => psi - l) los_ob in
  st ← for_each (decision_making_obstacle v_rel u relative_bearing_ob)
         (seq 0 (length x_ob)) (colreg_no, heading_dir);
  Returns (st.1, st.2, speed_level, relative_bearing_ob).

(** ** [validation.py] *)

(** Python's character classes on ASCII text: [\d], [\w], and the white
    space of [\s] and [str.strip] (codes 9 to 13, 28 to 31 and 32). *)
Definition is_digit (c : ascii) : bool :=
  let n := nat_of_ascii c in (48 <=? n)%nat && (n <=? 57)%nat.
Definition is_word (c : ascii) : bool :=
  let n := nat_of_ascii c in
  ((48 <=? n)%nat && (n <=? 57)%nat) || ((65 <=? n)%nat && (n <=? 90)%nat)
  || ((97 <=? n)%nat && (n <=? 122)%nat) || (n =? 95)%nat.
Definition is_space (c : ascii) : bool :=
  let n := nat_of_ascii c in
  ((9 <=? n)%nat && (n <=? 13)%nat) || ((28 <=? n)%nat && (n <=? 32)%nat).

(** [str.strip] *)
Fixpoint lstrip (s : string) : string :=
  match s with
  | EmptyString => EmptyString
  | String c s' => if is_space c then lstrip s' else s
  end.
Fixpoint rstrip (s : string) : string :=
  match s with
  | EmptyString => EmptyString
  | String c s' =>
      match rstrip s' with
      | EmptyString => if is_space c then EmptyString else String c EmptyString
      | r => String c r
      end
  end.
Definition strip (s : string) : string := rstrip (lstrip s).

(** The regular expressions this module needs: literal text, a greedy
    repetition [[...]+] of a character class, a capturing group and
    concatenation.  No group of the module's pattern contains another. *)
Inductive regex : Type :=
  | Lit (text : string)
  | Many1 (class : ascii -> bool)
  | Group (r : regex)
  | Cat (r1 r2 : regex).

(** [drop n s] *)
Fixpoint string_drop (n : nat) (s : string) : string :=
  match n, s with
  | O, _ => s
  | S n', String _ s' => string_drop n' s'
  | S _, EmptyString => EmptyString
  end.

(** [class+] at the head of [s]: as many characters as possible, giving
    characters back one at a time while the rest of the pattern, [k], fails. *)
Fixpoint many1 {A : Type} (class : ascii -> bool) (s : string) (k : string -> option A)
  : option A :=
  match s with
  | EmptyString => None
  | String c s' =>
      if class c then
        match many1 class s' k with
        | Some result => Some result
        | None => k s'
        end
      else None
  end.

(** Backtracking match of [r] at the head of [s]; [k] matches the rest of
    the pattern on the rest of the text and the groups captured so far. *)
Fixpoint re_match_at (r : regex) (s : string) (groups : list string)
    (k : string -> list string -> option (list string)) : option (list string) :=
  match r with
  | Lit text =>
      if String.prefix text s then k (string_drop (String.length text) s) groups else None
  | Many1 class => many1 class s (fun rest => k rest groups)
  | Group r' =>
      re_match_at r' s groups
        (fun rest groups' =>
           k rest (groups' ++ [String.substring 0 (String.length s - String.length rest) s]))
  | Cat r1 r2 =>
      re_match_at r1 s groups (fun rest groups' => re_match_at r2 rest groups' k)
  end.

(** [re.match(pattern, s)], then [match.groups()]. *)
Definition re_match (pattern : regex) (s : string) : option (list string) :=
  re_match_at pattern s [] (fun _ groups => Some groups).

Record ValidatedResponse : Type := {
  rule : string;
  situation_type : string;
  action : string;
  explanation : string;
  is_fallback : bool
}.

(** [ResponseValidator.VALID_ACTIONS] and [VALID_SITUATIONS] *)
Definition VALID_ACTIONS : list string :=
  ["Stand on, no action"; "Give-way, turn to starboard"; "Give-way, turn to port"]%string.
Definition VALID_SITUATIONS : list string := ["head-on"; "overtaking"; "crossing"]%string.

(** [r"Rule (\d+) \(([\w-]+)\), Action: ([\w\s,-]+), explanation: (.+)"] *)
Definition response_pattern : regex :=
  Cat (Lit "Rule ")
 (Cat (Group (Many1 is_digit))
 (Cat (Lit " (")
 (Cat (Group (Many1 (fun c => is_word c || Ascii.eqb c "-")))
 (Cat (Lit "), Action: ")
 (Cat (Group (Many1 (fun c => is_word c || is_space c || Ascii.eqb c "," || Ascii.eqb c "-")))
 (Cat (Lit ", explanation: ")
      (Group (Many1 (fun c => negb (Ascii.eqb c "010"))))))))))%string.

(** [ResponseValidator.parse_response]; [None] for an invalid response. *)
Definition parse_response (llm_response : string) : option ValidatedResponse :=
  match re_match response_pattern (strip llm_response) with
  | Some [rule; situation; action; explanation] =>
      (* Validate each component *)
      if negb (bool_decide (lower situation ∈ VALID_SITUATIONS))
         || negb (bool_decide (strip action ∈ VALID_ACTIONS)) then None
      else Some {| rule := rule; situation_type := lower situation;
                   action := strip action; explanation := strip explanation;
                   is_fallback := false |}
  | _ => None
  end.

(** [x or "unknown"] on an optional string: the empty string counts as absent. *)
Definition or_unknown (initial_situation : option string) : string :=
  match initial_situation with
  | None | Some EmptyString => "unknown"
  | Some s => s
  end.

(** [get_fallback_response] *)
Definition get_fallback_response (risk distance rel_bearing : R) (is_turning : bool)
    (initial_situation : option string) : ValidatedResponse :=
  (* If already turning, continue until safe *)
  if is_turning then
    {| rule := "FB"; situation_type := or_unknown initial_situation;
       action := "Give-way, turn to starboard";
       explanation := "Fallback: Continuing turn until safe conditions met";
       is_fallback := true |}
  (* Emergency conditions - high risk and close distance *)
  else if bool_decide (0.7 < risk) && bool_decide (distance < 300) then
    {| rule := "FB"; situation_type := or_unknown initial_situation;
       (* ["Give-way, turn to starboard" or "Give-way, turn to port"] *)
       action := "Give-way, turn to starboard";
       explanation := "Fallback: Emergency maneuver due to high risk and close range";
       is_fallback := true |}
  (* Default safe response *)
  else
    {| rule := "FB"; situation_type := or_unknown initial_situation;
       action := "Stand on, no action";
       explanation := "Fallback: Maintaining course due to safe conditions";
       is_fallback := true |}.

(** The module global [current_maneuver], when something has defined it. *)
Record Maneuver : Type := {
  is_turning : bool;
  initial_situation : option string
}.

(** How a call of [enhanced_decision_making_llm] ends: with a text, with
    the [NameError] of reading a global that was never assigned, or with an
    exception of the language model call. *)
Inductive enhanced_outcome : Type :=
  | Answer (text : string)
  | NameError
  | LLMRaises (e : exn).

(** The text built from a fallback response. *)
Definition format_response (v : ValidatedResponse) : string :=
  ("Rule " +:+ rule v +:+ " (" +:+ situation_type v +:+ "), "
   +:+ "Action: " +:+ action v +:+ ", "
   +:+ "explanation: " +:+ explanation v)%string.

(** [enhanced_decision_making_llm]; [decision_making_llm] is imported from
    [decision_makingllm1] and [current_maneuver] is the module global, which
    this module never assigns. *)
Definition enhanced_decision_making_llm
    (decision_making_llm : R -> R -> R -> R -> R -> Z -> outcome string)
    (current_maneuver : option Maneuver)
    (risk distance rel_bearing dcpa tcpa : R) (idx : Z) : enhanced_outcome :=
  (* Original LLM call *)
  match decision_making_llm risk distance rel_bearing dcpa tcpa idx with
  | Raises e => LLMRaises e
  | Returns llm_response =>
      (* Validate the response *)
      match parse_response llm_response with
      | None =>
          (* If validation fails, use fallback *)
          match current_maneuver with
          | None => NameError
          | Some m =>
              let fallback_response :=
                get_fallback_response risk distance rel_bearing
                  (is_turning m) (initial_situation m) in
              Answer (format_response fallback_response)
          end
      | Some _ => Answer llm_response
      end
  end.

(** Every character of [s] is in [class]. *)
Fixpoint string_forall (class : ascii -> bool) (s : string) : bool :=
  match s with
  | EmptyString => true
  | String c s' => class c && string_forall class s'
  end.

(** ** [multi_llm_decision.py]: the providers *)

(** The outside world of the providers: whether the client libraries could
    be imported, the process environment, Python's [float], [int] and [str]
    on what they are given, and the client libraries: building a client and
    asking it may raise.  An OpenAI client maps a prompt to the content of
    the reply; an Anthropic client maps model, temperature, token limit and
    prompt to the text of the first content block. *)
Record World : Type := {
  OPENAI_AVAILABLE : bool;
  ANTHROPIC_AVAILABLE : bool;
  environ : gmap string string;
  py_float : string -> outcome R;
  py_int : string -> outcome Z;
  py_str : exn -> string;
  ChatOpenAI : string -> R -> Z -> outcome (string -> outcome string);
  Anthropic : option string -> outcome (string -> R -> Z -> string -> outcome string)
}.

(** [os.getenv(key)] and [os.getenv(key, default)] *)
Definition getenv (W : World) (key : string) : option string := environ W !! key.
Definition getenv_default (W : World) (key default : string) : string :=
  match environ W !! key with
  | Some value => value
  | None => default
  end.

Record OpenAIProvider : Type := {
  openai_model : string;
  openai_temperature : R;
  openai_max_tokens : Z;
  openai_client : option (string -> outcome string)
}.

Record ClaudeProvider : Type := {
  claude_model : string;
  claude_temperature : R;
  claude_max_tokens : Z;
  claude_client : option (string -> R -> Z -> string -> outcome string)
}.

(** [OpenAIProvider.is_available] and [ClaudeProvider.is_available] *)
Definition openai_is_available (W : World) : bool :=
  OPENAI_AVAILABLE W && bool_decide (getenv W "OPENAI_API_KEY" <> None).
Definition claude_is_available (W : World) : bool :=
  ANTHROPIC_AVAILABLE W && bool_decide (getenv W "CLAUDE_API_KEY" <> None).

(** [OpenAIProvider.__init__] *)
Definition OpenAIProvider_init (W : World) (model : string) (temperature : R) (max_tokens : Z)
  : outcome OpenAIProvider :=
  if OPENAI_AVAILABLE W && openai_is_available W then
    client ← ChatOpenAI W model temperature max_tokens;
    Returns {| openai_model := model; openai_temperature := temperature;
               openai_max_tokens := max_tokens; openai_client := Some client |}
  else
    Returns {| openai_model := model; openai_temperature := temperature;
               openai_max_tokens := max_tokens; openai_client := None |}.

(** [ClaudeProvider.__init__] *)
Definition ClaudeProvider_init (W : World) (model : string) (temperature : R) (max_tokens : Z)
  : outcome ClaudeProvider :=
  if ANTHROPIC_AVAILABLE W && claude_is_available W then
    client ← Anthropic W (getenv W "CLAUDE_API_KEY");
    Returns {| claude_model := model; claude_temperature := temperature;
               claude_max_tokens := max_tokens; claude_client := Some client |}
  else
    Returns {| claude_model := model; claude_temperature := temperature;
               claude_max_tokens := max_tokens; claude_client := None |}.

(** [OpenAIProvider.generate_response] *)
Definition openai_generate_response (W : World) (self : OpenAIProvider) (prompt : string)
  : string :=
  match openai_client self with
  | None => "OpenAI not available"
  | Some client =>
      match client prompt with
      | Returns content => content
      | Raises e => ("OpenAI error: " +:+ py_str W e)%string
      end
  end.

(** [ClaudeProvider.generate_response] *)
Definition claude_generate_response (W : World) (self : ClaudeProvider) (prompt : string)
  : string :=
  match claude_client self with
  | None => "Claude not available"
  | Some client =>
      match client (claude_model self) (claude_temperature self) (claude_max_tokens self)
              prompt with
      | Returns text => text
      | Raises e => ("Claude error: " +:+ py_str W e)%string
      end
  end.

(** The two classes of providers. *)
Inductive AnyProvider : Type :=
  | OpenAI (p : OpenAIProvider)
  | Claude (p : ClaudeProvider).

(** A provider seen through the interface [LLMProvider]. *)
Definition as_LLMProvider (W : World) (p : AnyProvider) : LLMProvider :=
  match p with
  | OpenAI p => {| generate_response := openai_generate_response W p |}
  | Claude p => {| generate_response := claude_generate_response W p |}
  end.

(** [MultiLLMCOLREGSInterpreter._initialize_provider] for the name
    [provider_name]. *)
Definition _initialize_provider (W : World) (provider_name : string)
  : outcome (option AnyProvider) :=
  primary ←
    (if String.eqb (lower provider_name) "openai" then
       temperature ← py_float W (getenv_default W "OPENAI_TEMPERATURE" "0.1");
       max_tokens ← py_int W (getenv_default W "OPENAI_MAX_TOKENS" "50");
       provider ← OpenAIProvider_init W (getenv_default W "OPENAI_MODEL" "gpt-4")
                    temperature max_tokens;
       Returns (if openai_is_available W then Some (OpenAI provider) else None)
     else if String.eqb (lower provider_name) "claude" then
       temperature ← py_float W (getenv_default W "CLAUDE_TEMPERATURE" "0.1");
       max_tokens ← py_int W (getenv_default W "CLAUDE_MAX_TOKENS" "50");
       provider ← ClaudeProvider_init W
                    (getenv_default W "CLAUDE_MODEL" "claude-sonnet-4-20250514")
                    temperature max_tokens;
       Returns (if claude_is_available W then Some (Claude provider) else None)
     else Returns None);
  match primary with
  | Some provider => Returns (Some provider)
  | None =>
      (* Fallback: try OpenAI if Claude fails, or vice versa *)
      if String.eqb (lower provider_name) "claude" then
        fallback ← OpenAIProvider_init W "gpt-4" 0.1 500;
        Returns (if openai_is_available W then Some (OpenAI fallback) else None)
      else
        fallback ← ClaudeProvider_init W "claude-sonnet-4-20250514" 0.1 500;
        Returns (if claude_is_available W then Some (Claude fallback) else None)
  end.

(** [MultiLLMCOLREGSInterpreter.__init__]: [provider or os.getenv("LLM_PROVIDER", "openai")]. *)
Definition MultiLLMCOLREGSInterpreter_init (W : World) (provider : option string)
  : outcome MultiLLMCOLREGSInterpreter :=
  let provider_name :=
    match provider with
    | Some (String c s) => String c s
    | _ => getenv_default W "LLM_PROVIDER" "openai"
    end in
  chosen ← _initialize_provider W provider_name;
  Returns {| provider_name := provider_name;
             provider := option_map (as_LLMProvider W) chosen |}.

(** [MultiLLMCOLREGSInterpreter.get_available_providers] *)
Definition get_available_providers (W : World) : outcome (list string) :=
  let providers := [] in
  _ ← OpenAIProvider_init W "gpt-4" 0.1 500;
  let providers := if openai_is_available W then providers ++ ["openai"%string] else providers in
  _ ← ClaudeProvider_init W "claude-sonnet-4-20250514" 0.1 500;
  let providers := if claude_is_available W then providers ++ ["claude"%string] else providers in
  Returns providers.

(** A world in which only an OpenAI key is configured and every client
    answers "Stand on, no action". *)
Definition openai_only_world : World :=
  {| OPENAI_AVAILABLE := true;
     ANTHROPIC_AVAILABLE := true;
     environ := {[ "OPENAI_API_KEY"%string := "sk-test"%string ]};
     py_float := fun s => if String.eqb s "0.1" then Returns 0.1 else Raises ValueError;
     py_int := fun s => if String.eqb s "50" then Returns 50%Z else Raises ValueError;
     py_str := fun _ => "error"%string;
     ChatOpenAI := fun _ _ _ => Returns (fun _ => Returns "Stand on, no action"%string);
     Anthropic := fun _ => Returns (fun _ _ _ _ => Returns "Stand on, no action"%string) |}.

(** The hook of [run_simulation] in the world [W]: [COLREGSInterpreter] is
    the class [MultiLLMCOLREGSInterpreter]. *)
Definition world_hook (W : World) (llm_available : bool)
    (format : list VesselState -> string) : Hook :=
  {| LLM_AVAILABLE := llm_available;
     COLREGSInterpreter := fun _ provider => MultiLLMCOLREGSInterpreter_init W provider;
     format_situation_description := format |}.

(** ** [comparison_simulation.py]: the statistics of a comparison *)

(** [np.max] of a two-dimensional array: its largest entry; a zero-size
    array raises [ValueError]. *)
Definition np_max (a : list (list R)) : outcome R :=
  match concat a with
  | [] => Raises ValueError
  | v :: vs => Returns (foldl Rmax v vs)
  end.

(** [a[-1]] *)
Definition list_last {A : Type} (l : list A) : outcome A :=
  match last l with
  | Some a => Returns a
  | None => Raises IndexError
  end.

(** [np.sum(np.abs(kdir) > 0.1)] *)
Definition count_turns (kdir : list R) : nat :=
  length (filter (fun k => 0.1 < Rabs k) kdir).

(** The entries of [baseline_stats] and [llm_stats] that the verdicts are
    formed from. *)
Record Stats : Type := {
  total_turns : nat;
  max_risk : R;
  final_distance : R
}.

(** One of the two dictionaries of [calculate_comparison_stats], built from
    the data of one run.  The entries ['avg_risk'] and ['sim_time'] are left
    out; neither raises (the mean of an empty selection is a NaN). *)
Definition run_stats (results : St.Sim) : outcome Stats :=
  let kdir := comparison_kdir results in
  let risk := Risk (St.geo results) in
  max ← np_max risk;
  x_last ← list_last (St.x results);
  y_last ← list_last (St.y results);
  Returns {| total_turns := count_turns kdir;
             max_risk := max;
             final_distance := sqrt (x_last ^ 2 + y_last ^ 2) / 1852 |}.

(** What [calculate_comparison_stats] returns, with the two verdicts of its
    analysis text. *)
Record ComparisonStats : Type := {
  stats_baseline : Stats;
  stats_llm : Stats;
  behavior : string;
  risk_management : string
}.

(** [calculate_comparison_stats]; the turn agreement and the path-efficiency
    difference, which are only formatted into the text, are left out. *)
Definition calculate_comparison_stats (baseline_results llm_results : St.Sim)
  : outcome ComparisonStats :=
  baseline_stats ← run_stats baseline_results;
  llm_stats ← run_stats llm_results;
  let behavior :=
    if decide (total_turns baseline_stats < total_turns llm_stats)%nat
    then "more conservative (more turns)"%string
    else if decide (total_turns llm_stats < total_turns baseline_stats)%nat
    then "more aggressive (fewer turns)"%string
    else "similar"%string in
  let risk_management :=
    if decide (max_risk llm_stats < max_risk baseline_stats) then "Better"%string
    else if decide (Rabs (max_risk llm_stats - max_risk baseline_stats) < 0.1)
    then "Similar"%string
    else "More risky"%string in
  Returns {| stats_baseline := baseline_stats; stats_llm := llm_stats;
             behavior := behavior; risk_management := risk_management |}.

(** A world with both client libraries installed and no key configured. *)
Definition keyless_world : World :=
  {| OPENAI_AVAILABLE := true;
     ANTHROPIC_AVAILABLE := true;
     environ := ∅;
     py_float := fun s => if String.eqb s "0.1" then Returns 0.1 else Raises ValueError;
     py_int := fun s => if String.eqb s "50" then Returns 50%Z else Raises ValueError;
     py_str := fun _ => "error"%string;
     ChatOpenAI := fun _ _ _ => Returns (fun _ => Returns "Stand on, no action"%string);
     Anthropic := fun _ => Returns (fun _ _ _ _ => Returns "Stand on, no action"%string) |}.

(** Modelled from the spec: the risk scorer [risk_calculations] of
    [src/risk_assessment/risk_calculations.py], which is not among the source
    files.  Section 4.5 of the specification asks for a map from (DCPA,
    TCPA, current distance, relative speed) to a risk in [0, 1] that grows
    as DCPA decreases and as TCPA decreases towards 0 from above, fades
    towards 0 for a large TCPA or a large DCPA whatever the distance, and is
    defined at every boundary value, a TCPA that is not positive and the
    distance 0 included; the functional form is left open.  This is one
    such map. *)
Definition risk_scorer (DCPA TCPA distance Vrel : R) : R :=
  / ((1 + Rabs DCPA) * (1 + Rmax 0 TCPA)).



(** [provider or os.getenv("LLM_PROVIDER", "openai")]: the provider name
    [MultiLLMCOLREGSInterpreter.__init__] settles on. *)
Definition requested_name (W : World) (provider : option string) : string :=
  match provider with
  | Some (String c s) => String c s
  | _ => getenv_default W "LLM_PROVIDER" "openai"
  end.

(** The world [keyless_world] with [OPENAI_TEMPERATURE=warm] in the
    environment, which [float] refuses. *)
Definition malformed_world : World :=
  {| OPENAI_AVAILABLE := true;
     ANTHROPIC_AVAILABLE := true;
     environ := {[ "OPENAI_TEMPERATURE"%string := "warm"%string ]};
     py_float := py_float keyless_world;
     py_int := py_int keyless_world;
     py_str := py_str keyless_world;
     ChatOpenAI := ChatOpenAI keyless_world;
     Anthropic := Anthropic keyless_world |}.

(** ** Proof automation *)

(** Recognise the key [Heq : case_key n = "Case k"] of a predefined case. *)
Ltac find_case Heq n k :=
  lazymatch eval vm_compute in (Pos.leb k 23) with
  | true =>
      first [ change (case_key n = case_key (Z.pos k)) in Heq
            | let k' := eval vm_compute in (Pos.succ k) in find_case Heq n k' ]
  end.

(** * Theorems *)

(** ** The Z-shaped range weight *)

Lemma zmf_map (x : list R) (a b : R) : zmf x a b = map (zmf_at a b) x.
Proof.
  unfold zmf, mask_set, zeros_like.
  induction x as [|xi x IH]; cbn [zip_with map]; [reflexivity|].
  rewrite IH. reflexivity.
Qed.

Lemma zmf_length (x : list R) (a b : R) : length (zmf x a b) = length x.
Proof. rewrite zmf_map. apply length_map. Qed.

Lemma zmf_at_below (a b d : R) : a < b -> d <= a -> zmf_at a b d = 1.
Proof.
  intros Hab Hd. unfold zmf_at.
  rewrite (bool_decide_eq_true_2 (d <= a)) by assumption.
  rewrite (bool_decide_eq_false_2 (a < d)) by lra.
  rewrite (bool_decide_eq_false_2 ((a + b) / 2 <= d)) by lra.
  reflexivity.
Qed.

Lemma zmf_at_lower (a b d : R) :
  a < d -> d < (a + b) / 2 -> zmf_at a b d = 1 - 2 * ((d - a) / (b - a)) ^ 2.
Proof.
  intros H1 H2. unfold zmf_at.
  rewrite (bool_decide_eq_true_2 (a < d)) by assumption.
  rewrite (bool_decide_eq_true_2 (d < (a + b) / 2)) by assumption.
  rewrite (bool_decide_eq_false_2 ((a + b) / 2 <= d)) by lra.
  reflexivity.
Qed.

Lemma zmf_at_upper (a b d : R) :
  a < b -> (a + b) / 2 <= d -> d < b -> zmf_at a b d = 2 * ((d - b) / (b - a)) ^ 2.
Proof.
  intros Hab H1 H2. unfold zmf_at.
  rewrite (bool_decide_eq_true_2 ((a + b) / 2 <= d)) by assumption.
  rewrite (bool_decide_eq_true_2 (d < b)) by assumption.
  reflexivity.
Qed.

Lemma zmf_at_above (a b d : R) : a < b -> b <= d -> zmf_at a b d = 0.
Proof.
  intros Hab Hd. unfold zmf_at.
  rewrite (bool_decide_eq_false_2 (d <= a)) by lra.
  rewrite (bool_decide_eq_false_2 (d < (a + b) / 2)) by lra.
  rewrite (bool_decide_eq_false_2 (d < b)) by lra.
  rewrite !andb_false_r. reflexivity.
Qed.

(** The code and the wording of the specification give the same weight. *)
Lemma zmf_at_spec (a b d : R) : a < b -> zmf_at a b d = FieldSpec.w_r a b d.
Proof.
  intros Hab. unfold FieldSpec.w_r.
  destruct (decide (d <= a)) as [H1|H1]; [now apply zmf_at_below|].
  destruct (decide (d < (a + b) / 2)) as [H2|H2]; [apply zmf_at_lower; lra|].
  destruct (decide (d < b)) as [H3|H3]; [|apply zmf_at_above; lra].
  rewrite zmf_at_upper by lra. field. lra.
Qed.

(** The normalised abscissa [t = (d - a) / (b - a)]. *)
Lemma t_le (a b d c : R) : a < b -> d - a <= c * (b - a) -> (d - a) / (b - a) <= c.
Proof.
  intros Hab H. apply (Rmult_le_reg_r (b - a)); [lra|].
  replace ((d - a) / (b - a) * (b - a)) with (d - a) by (field; lra). exact H.
Qed.

Lemma t_ge (a b d c : R) : a < b -> c * (b - a) <= d - a -> c <= (d - a) / (b - a).
Proof.
  intros Hab H. apply (Rmult_le_reg_r (b - a)); [lra|].
  replace ((d - a) / (b - a) * (b - a)) with (d - a) by (field; lra). exact H.
Qed.

Lemma w_r_range (a b d : R) : a < b -> 0 <= FieldSpec.w_r a b d <= 1.
Proof.
  intros Hab. unfold FieldSpec.w_r.
  destruct (decide (d <= a)) as [H1|H1]; [lra|].
  destruct (decide (d < (a + b) / 2)) as [H2|H2].
  - assert (Ht : 0 <= (d - a) / (b - a)) by (apply t_ge; lra).
    assert (Hh : (d - a) / (b - a) <= 1 / 2) by (apply t_le; lra).
    nra.
  - destruct (decide (d < b)) as [H3|H3]; [|lra].
    assert (Ht : (d - a) / (b - a) <= 1) by (apply t_le; lra).
    assert (Hh : 1 / 2 <= (d - a) / (b - a)) by (apply t_ge; lra).
    nra.
Qed.

Lemma zmf_at_range (a b d : R) : a < b -> 0 <= zmf_at a b d <= 1.
Proof. intros Hab. rewrite zmf_at_spec by assumption. now apply w_r_range. Qed.

Lemma w_r_monotone (a b d1 d2 : R) :
  a < b -> d1 <= d2 -> FieldSpec.w_r a b d2 <= FieldSpec.w_r a b d1.
Proof.
  intros Hab Hd.
  pose proof (w_r_range a b d1 Hab) as R1.
  pose proof (w_r_range a b d2 Hab) as R2.
  revert R1 R2. unfold FieldSpec.w_r.
  assert (Hmono : (d1 - a) / (b - a) <= (d2 - a) / (b - a)).
  { apply t_le; [assumption|].
    replace ((d2 - a) / (b - a) * (b - a)) with (d2 - a) by (field; lra). lra. }
  destruct (decide (d1 <= a)) as [A1|A1]; [intros; lra|].
  destruct (decide (d2 <= a)) as [A2|A2]; [lra|].
  assert (T1 : 0 <= (d1 - a) / (b - a)) by (apply t_ge; lra).
  destruct (decide (d1 < (a + b) / 2)) as [B1|B1];
    destruct (decide (d2 < (a + b) / 2)) as [B2|B2]; try lra.
  - intros _ _. nra.
  - assert (1 / 2 <= (d2 - a) / (b - a)) by (apply t_ge; lra).
    assert ((d1 - a) / (b - a) <= 1 / 2) by (apply t_le; lra).
    destruct (decide (d2 < b)) as [C2|C2].
    + assert ((d2 - a) / (b - a) <= 1) by (apply t_le; lra). intros _ _. nra.
    + intros; lra.
  - assert (1 / 2 <= (d1 - a) / (b - a)) by (apply t_ge; lra).
    destruct (decide (d1 < b)) as [C1|C1];
      destruct (decide (d2 < b)) as [C2|C2]; try (intros; lra).
    assert ((d2 - a) / (b - a) <= 1) by (apply t_le; lra). intros _ _. nra.
Qed.

(** Between [a] and [b] the weight stays within [2 (h / (b - a))^2] of its
    tangent, whichever of the two parabolas the two points lie on. *)
Lemma w_r_tangent (a b d h : R) :
  a < b -> a < d < b -> a < d + h < b ->
  Rabs (FieldSpec.w_r a b (d + h) - FieldSpec.w_r a b d - FieldSpec.w_r' a b d * h)
  <= 2 * (h / (b - a)) ^ 2.
Proof.
  intros Hab Hd Hdh.
  set (t := (d - a) / (b - a)).
  set (s := h / (b - a)).
  assert (Et : (d + h - a) / (b - a) = t + s) by (unfold t, s; field; lra).
  assert (E1 : - (4 * (d - a) / (b - a) ^ 2) * h = - 4 * t * s) by (unfold t, s; field; lra).
  assert (E2 : 4 * (d - b) / (b - a) ^ 2 * h = 4 * (t - 1) * s) by (unfold t, s; field; lra).
  unfold FieldSpec.w_r, FieldSpec.w_r'.
  rewrite !(decide_False (P := d + h <= a)) by lra.
  rewrite !(decide_False (P := d <= a)) by lra.
  rewrite !(decide_True (P := d + h < b)) by lra.
  rewrite !(decide_True (P := d < b)) by lra.
  rewrite Et. fold t.
  destruct (decide (d < (a + b) / 2)) as [B1|B1];
    destruct (decide (d + h < (a + b) / 2)) as [B2|B2];
    rewrite ?E1, ?E2; apply Rabs_le.
  - nra.
  - assert (t <= 1 / 2) by (apply t_le; lra).
    assert (1 / 2 <= t + s) by (rewrite <- Et; apply t_ge; lra).
    nra.
  - assert (1 / 2 <= t) by (apply t_ge; lra).
    assert (t + s <= 1 / 2) by (rewrite <- Et; apply t_le; lra).
    nra.
  - nra.
Qed.

Lemma Rabs_quotient_bound (A h c : R) :
  h <> 0 -> Rabs A <= c * h ^ 2 -> Rabs (A / h) <= c * Rabs h.
Proof.
  intros Hh HA.
  assert (Hpos : 0 < Rabs h) by now apply Rabs_pos_lt.
  unfold Rdiv. rewrite Rabs_mult, Rabs_inv.
  apply (Rmult_le_reg_r (Rabs h)); [assumption|].
  rewrite Rmult_assoc, Rinv_l by lra.
  rewrite <- pow2_abs in HA. lra.
Qed.

(** The range weight is differentiable between [a] and [b], with
    derivative [w_r']. *)
Lemma w_r_derivable (a b d : R) :
  a < b -> a < d < b ->
  derivable_pt_lim (FieldSpec.w_r a b) d (FieldSpec.w_r' a b d).
Proof.
  intros Hab Hd eps Heps.
  assert (Hdelta : 0 < Rmin (eps * (b - a) ^ 2 / 2) (Rmin (d - a) (b - d))).
  { repeat apply Rmin_pos; try lra.
    apply Rmult_lt_0_compat; [|lra]. apply Rmult_lt_0_compat; [lra|]. nra. }
  exists (mkposreal _ Hdelta). intros h Hh Hlt. simpl in Hlt.
  assert (H1 : Rabs h < eps * (b - a) ^ 2 / 2)
    by (eapply Rlt_le_trans; [exact Hlt | apply Rmin_l]).
  assert (H2 : Rabs h < d - a).
  { eapply Rlt_le_trans; [exact Hlt|].
    eapply Rle_trans; [apply Rmin_r | apply Rmin_l]. }
  assert (H3 : Rabs h < b - d).
  { eapply Rlt_le_trans; [exact Hlt|].
    eapply Rle_trans; [apply Rmin_r | apply Rmin_r]. }
  apply Rabs_def2 in H2 as [H2a H2b]. apply Rabs_def2 in H3 as [H3a H3b].
  pose proof (w_r_tangent a b d h Hab Hd ltac:(lra)) as Htan.
  replace ((FieldSpec.w_r a b (d + h) - FieldSpec.w_r a b d) / h - FieldSpec.w_r' a b d)
    with ((FieldSpec.w_r a b (d + h) - FieldSpec.w_r a b d - FieldSpec.w_r' a b d * h) / h)
    by (field; assumption).
  eapply Rle_lt_trans.
  - apply (Rabs_quotient_bound _ h (2 / (b - a) ^ 2)); [assumption|].
    eapply Rle_trans; [exact Htan|]. apply Req_le. field. lra.
  - apply (Rmult_lt_reg_r ((b - a) ^ 2 / 2)); [nra|].
    replace (2 / (b - a) ^ 2 * Rabs h * ((b - a) ^ 2 / 2)) with (Rabs h) by (field; lra).
    lra.
Qed.

(** The derivative is continuous at the midpoint. *)
Lemma w_r'_continuous_mid (a b : R) :
  a < b -> continuity_pt (FieldSpec.w_r' a b) ((a + b) / 2).
Proof.
  intros Hab eps Heps.
  exists (eps * (b - a) ^ 2 / 4). split.
  - apply Rlt_gt. apply Rmult_lt_0_compat; [|lra]. apply Rmult_lt_0_compat; [lra|nra].
  - intros x [_ Hx]. simpl in *. unfold Rdist in *.
    assert (Hgap : Rabs (FieldSpec.w_r' a b x - FieldSpec.w_r' a b ((a + b) / 2))
                   = 4 / (b - a) ^ 2 * Rabs (x - (a + b) / 2)).
    { unfold FieldSpec.w_r'.
      rewrite (decide_False (P := (a + b) / 2 < (a + b) / 2)) by lra.
      destruct (decide (x < (a + b) / 2)) as [B|B].
      - rewrite (Rabs_left (x - (a + b) / 2)) by lra.
        rewrite Rabs_right; [field; lra|].
        apply Rle_ge.
        replace (- (4 * (x - a) / (b - a) ^ 2) - 4 * ((a + b) / 2 - b) / (b - a) ^ 2)
          with (4 * ((a + b) / 2 - x) / (b - a) ^ 2) by (field; lra).
        apply Rmult_le_pos; [lra|]. apply Rlt_le, Rinv_0_lt_compat. nra.
      - rewrite (Rabs_right (x - (a + b) / 2)) by lra.
        rewrite Rabs_right; [field; lra|].
        apply Rle_ge.
        replace (4 * (x - b) / (b - a) ^ 2 - 4 * ((a + b) / 2 - b) / (b - a) ^ 2)
          with (4 * (x - (a + b) / 2) / (b - a) ^ 2) by (field; lra).
        apply Rmult_le_pos; [lra|]. apply Rlt_le, Rinv_0_lt_compat. nra. }
    rewrite Hgap.
    apply (Rmult_lt_reg_r ((b - a) ^ 2 / 4)); [nra|].
    replace (4 / (b - a) ^ 2 * Rabs (x - (a + b) / 2) * ((b - a) ^ 2 / 4))
      with (Rabs (x - (a + b) / 2)) by (field; lra).
    lra.
Qed.

Lemma zmf_at_derivable (a b d : R) :
  a < b -> a < d < b -> derivable_pt_lim (zmf_at a b) d (FieldSpec.w_r' a b d).
Proof.
  intros Hab Hd eps Heps.
  destruct (w_r_derivable a b d Hab Hd eps Heps) as [delta Hdelta].
  exists delta. intros h Hh Hlt. rewrite !zmf_at_spec by assumption.
  now apply Hdelta.
Qed.

Lemma radii_ordered : ra_a < ra_b.
Proof. unfold ra_a, ra_b. lra. Qed.

(** C8: for radii [a < b], [zmf] is 1 up to [a], [1 - 2 t^2] from [a] to
    the midpoint, [2 (1 - t)^2] from the midpoint to [b] and 0 from [b] on,
    with [t = (d - a) / (b - a)]; it is continuous at the midpoint,
    differentiable between [a] and [b] with a derivative that is continuous
    at the midpoint, non-increasing, and takes its values in [0, 1].  The
    array function applies this entry by entry. *)
Theorem zmf_shape (a b : R) :
  a < b ->
  (forall d, d <= a -> zmf_at a b d = 1) /\
  (forall d, a <= d <= (a + b) / 2 -> zmf_at a b d = 1 - 2 * ((d - a) / (b - a)) ^ 2) /\
  (forall d, (a + b) / 2 <= d <= b -> zmf_at a b d = 2 * (1 - (d - a) / (b - a)) ^ 2) /\
  (forall d, b <= d -> zmf_at a b d = 0) /\
  continuity_pt (zmf_at a b) ((a + b) / 2) /\
  (forall d, a < d < b -> derivable_pt_lim (zmf_at a b) d (FieldSpec.w_r' a b d)) /\
  continuity_pt (FieldSpec.w_r' a b) ((a + b) / 2) /\
  (forall d1 d2, d1 <= d2 -> zmf_at a b d2 <= zmf_at a b d1) /\
  (forall d, 0 <= zmf_at a b d <= 1) /\
  (forall x : list R, zmf x a b = map (zmf_at a b) x).
Proof.
  intros Hab. repeat split.
  - intros d Hd. now apply zmf_at_below.
  - intros d [H1 H2].
    destruct (Rle_lt_or_eq_dec _ _ H1) as [Hlt|<-];
      [destruct (Rle_lt_or_eq_dec _ _ H2) as [Hlt2| ->]|].
    + now apply zmf_at_lower.
    + rewrite zmf_at_upper by lra. field. lra.
    + rewrite zmf_at_below by lra. field. lra.
  - intros d [H1 H2].
    destruct (Rle_lt_or_eq_dec _ _ H2) as [Hlt| ->].
    + rewrite zmf_at_upper by lra. field. lra.
    + rewrite zmf_at_above by lra. field. lra.
  - intros d Hd. now apply zmf_at_above.
  - apply derivable_continuous_pt.
    exists (FieldSpec.w_r' a b ((a + b) / 2)). apply zmf_at_derivable; lra.
  - intros d Hd. now apply zmf_at_derivable.
  - now apply w_r'_continuous_mid.
  - intros d1 d2 Hd. rewrite !zmf_at_spec by assumption. now apply w_r_monotone.
  - now apply zmf_at_range.
  - now apply zmf_at_range.
  - intros x. apply zmf_map.
Qed.

Lemma zmf_shape_witness :
  ra_a < ra_b /\ zmf_at ra_a ra_b (1 / 4) = 1 /\ zmf_at ra_a ra_b 1 = 0.
Proof.
  pose proof radii_ordered as Hab.
  destruct (zmf_shape ra_a ra_b Hab) as (Hnear & _ & _ & Hfar & _).
  split; [exact Hab|].
  split; [apply Hnear | apply Hfar]; unfold ra_a, ra_b; lra.
Defined.

(** ** The avoidance field *)

Section Field.

Variables x y psi t : R.

Lemma ra_distance_ob_map (obs : list (R * R)) :
  ra_distance_ob (reactive_avoidance (map fst obs) (map snd obs) x y psi t)
  = map (FieldSpec.distance x y) obs.
Proof.
  unfold reactive_avoidance, ra_distance_ob.
  induction obs as [|o obs IH]; [reflexivity|].
  cbn [map zip_with]. rewrite IH. reflexivity.
Qed.

Lemma ra_bearing_ob_map (obs : list (R * R)) :
  ra_bearing_ob (reactive_avoidance (map fst obs) (map snd obs) x y psi t)
  = map (FieldSpec.bearing x y psi) obs.
Proof.
  unfold reactive_avoidance, ra_bearing_ob.
  induction obs as [|o obs IH]; [reflexivity|].
  cbn [map zip_with]. rewrite IH. reflexivity.
Qed.

Lemma ra_w_r_map (obs : list (R * R)) :
  ra_w_r (reactive_avoidance (map fst obs) (map snd obs) x y psi t)
  = map (fun o => zmf_at ra_a ra_b (FieldSpec.distance x y o)) obs.
Proof.
  pose proof (ra_distance_ob_map obs) as Hd.
  unfold reactive_avoidance, ra_w_r, ra_distance_ob in *.
  rewrite zmf_map, Hd, map_map. reflexivity.
Qed.

Lemma ra_w_b_map (obs : list (R * R)) :
  ra_w_b (reactive_avoidance (map fst obs) (map snd obs) x y psi t)
  = map (fun o => FieldSpec.w_b ra_sig (FieldSpec.bearing x y psi o)) obs.
Proof.
  pose proof (ra_bearing_ob_map obs) as Hb.
  unfold reactive_avoidance, ra_w_b, ra_bearing_ob in *.
  rewrite Hb, map_map. reflexivity.
Qed.

Lemma ra_psi_oa_sum (x_ob y_ob : list R) :
  let res := reactive_avoidance x_ob y_ob x y psi t in
  ra_psi_oa res = Np.sum (zip_with Rmult (ra_w_r res) (ra_w_b res)) * 2.
Proof. reflexivity. Qed.

Lemma weighted_sum_zip (obs : list (R * R)) :
  Np.sum (zip_with Rmult
            (map (fun o => zmf_at ra_a ra_b (FieldSpec.distance x y o)) obs)
            (map (fun o => FieldSpec.w_b ra_sig (FieldSpec.bearing x y psi o)) obs))
  = FieldSpec.weighted_sum x y psi obs.
Proof.
  induction obs as [|o obs IH]; [reflexivity|].
  cbn [map zip_with Np.sum foldr FieldSpec.weighted_sum].
  fold (Np.sum (zip_with Rmult
            (map (fun o => zmf_at ra_a ra_b (FieldSpec.distance x y o)) obs)
            (map (fun o => FieldSpec.w_b ra_sig (FieldSpec.bearing x y psi o)) obs))).
  rewrite IH, zmf_at_spec by exact radii_ordered. reflexivity.
Qed.

Lemma ra_psi_oa_bias (obs : list (R * R)) :
  ra_psi_oa (reactive_avoidance (map fst obs) (map snd obs) x y psi t)
  = FieldSpec.bias x y psi obs.
Proof.
  rewrite ra_psi_oa_sum, ra_w_r_map, ra_w_b_map, weighted_sum_zip.
  unfold FieldSpec.bias. lra.
Qed.

End Field.

Lemma sigma_positive : 0 < ra_sig.
Proof. unfold ra_sig. pose proof PI_RGT_0. lra. Qed.

Lemma exp_nonpos_le_1 (v : R) : v <= 0 -> exp v <= 1.
Proof.
  intros [Hlt| ->].
  - rewrite <- exp_0. apply Rlt_le. now apply exp_increasing.
  - rewrite exp_0. lra.
Qed.

Lemma w_b_range (sigma beta : R) : 0 < sigma -> -1 <= FieldSpec.w_b sigma beta <= 0.
Proof.
  intros Hs. unfold FieldSpec.w_b.
  pose proof (exp_pos (- beta ^ 2 / (2 * sigma ^ 2))) as Hpos.
  assert (Hle : exp (- beta ^ 2 / (2 * sigma ^ 2)) <= 1).
  { apply exp_nonpos_le_1.
    assert (0 < / (2 * sigma ^ 2)) by (apply Rinv_0_lt_compat; nra).
    unfold Rdiv. nra. }
  lra.
Qed.

Lemma w_b_dead_ahead (sigma : R) : FieldSpec.w_b sigma 0 = -1.
Proof.
  unfold FieldSpec.w_b.
  replace (- 0 ^ 2 / (2 * sigma ^ 2)) with 0 by (unfold Rdiv; ring).
  rewrite exp_0. reflexivity.
Qed.

Lemma weighted_sum_bounds (x y psi : R) (obs : list (R * R)) :
  - INR (length obs) <= FieldSpec.weighted_sum x y psi obs <= 0.
Proof.
  induction obs as [|o obs IH].
  - simpl. lra.
  - cbn [FieldSpec.weighted_sum]. rewrite length_cons, S_INR.
    pose proof (w_r_range ra_a ra_b (FieldSpec.distance x y o) radii_ordered).
    pose proof (w_b_range ra_sig (FieldSpec.bearing x y psi o) sigma_positive).
    nra.
Qed.

(** C3: the bias returned by [reactive_avoidance] is twice the sum over the
    obstacles of range weight times bearing weight, the bearing being
    [psi - arctan2 (dy, dx)] with [(dx, dy)] the obstacle position minus the
    own position; for a single obstacle dead ahead (bearing 0) no farther
    than the inner radius the bias is -2, hence negative. *)
Theorem reactive_avoidance_bias (obs : list (R * R)) (x y psi t : R) :
  let res := reactive_avoidance (map fst obs) (map snd obs) x y psi t in
  ra_psi_oa res = FieldSpec.bias x y psi obs /\
  ra_distance_ob res = map (FieldSpec.distance x y) obs /\
  ra_bearing_ob res = map (FieldSpec.bearing x y psi) obs /\
  (forall o, obs = [o] ->
             FieldSpec.bearing x y psi o = 0 ->
             FieldSpec.distance x y o <= ra_a ->
             ra_psi_oa res = -2 /\ ra_psi_oa res < 0).
Proof.
  intros res. subst res.
  split; [apply ra_psi_oa_bias|].
  split; [apply ra_distance_ob_map|].
  split; [apply ra_bearing_ob_map|].
  intros o -> Hb Hd. rewrite ra_psi_oa_bias.
  unfold FieldSpec.bias. cbn [FieldSpec.weighted_sum].
  rewrite Hb, w_b_dead_ahead.
  unfold FieldSpec.w_r. rewrite decide_True by exact Hd. lra.
Qed.

Lemma dead_ahead_bearing : FieldSpec.bearing 0 0 0 (1 / 4, 0) = 0.
Proof.
  unfold FieldSpec.bearing, arctan2. cbn [fst snd].
  rewrite decide_True by lra.
  replace ((0 - 0) / (1 / 4 - 0)) with 0 by (field; lra).
  rewrite atan_0. lra.
Qed.

Lemma dead_ahead_distance : FieldSpec.distance 0 0 (1 / 4, 0) <= ra_a.
Proof.
  unfold FieldSpec.distance. cbn [fst snd].
  replace ((1 / 4 - 0) ^ 2 + (0 - 0) ^ 2) with ((1 / 4) ^ 2) by ring.
  rewrite sqrt_pow2 by lra. unfold ra_a. lra.
Qed.

Lemma reactive_avoidance_bias_witness :
  ra_psi_oa (reactive_avoidance [1 / 4] [0] 0 0 0 0) = -2.
Proof.
  destruct (reactive_avoidance_bias [(1 / 4, 0)] 0 0 0 0) as (_ & _ & _ & Hsingle).
  apply (Hsingle (1 / 4, 0)).
  - reflexivity.
  - exact dead_ahead_bearing.
  - exact dead_ahead_distance.
Defined.

(** C10: for every obstacle list the bias lies between -2 N and 0, every
    range weight lies in [0, 1] and every bearing weight in [-1, 0]. *)
Theorem reactive_avoidance_bounds (obs : list (R * R)) (x y psi t : R) :
  let res := reactive_avoidance (map fst obs) (map snd obs) x y psi t in
  - 2 * INR (length obs) <= ra_psi_oa res <= 0 /\
  Forall (fun w => 0 <= w <= 1) (ra_w_r res) /\
  Forall (fun w => -1 <= w <= 0) (ra_w_b res).
Proof.
  intros res. subst res. repeat split.
  - rewrite ra_psi_oa_bias. unfold FieldSpec.bias.
    pose proof (weighted_sum_bounds x y psi obs). lra.
  - rewrite ra_psi_oa_bias. unfold FieldSpec.bias.
    pose proof (weighted_sum_bounds x y psi obs). lra.
  - rewrite ra_w_r_map. apply Forall_map, Forall_forall. intros o _.
    apply zmf_at_range, radii_ordered.
  - rewrite ra_w_b_map. apply Forall_map, Forall_forall. intros o _.
    apply w_b_range, sigma_positive.
Qed.

(** ** Set-up *)

Lemma with_llm_case (v : Z) (args : Args) :
  case_number (with_llm v args) = case_number args /\ dt (with_llm v args) = dt args /\
  sim_time (with_llm v args) = sim_time args /\
  no_animation (with_llm v args) = no_animation args.
Proof. repeat split. Qed.

Lemma setup_unknown_case (args : Args) :
  obstacle_cases !! case_key (case_number args) = None ->
  setup args = Raises (if decide (dt args = 0) then ZeroDivisionError else IndexError).
Proof.
  intros Hnone. unfold setup, get_obstacle_data, get_obstacles.
  rewrite Hnone. destruct (decide (dt args = 0)); reflexivity.
Qed.

(** C2: a case identifier that names no predefined scenario makes the run
    fail during set-up, before the first iteration of the loop. *)
Theorem unknown_case_fatal (C : Components) (H : Hook) (args : Args) (return_data : bool) :
  obstacle_cases !! case_key (case_number args) = None ->
  exists e : exn,
    setup args = Raises e /\
    simulate C H args = Raises e /\
    run_simulation C H args return_data = Raises e.
Proof.
  intros Hnone.
  exists (if decide (dt args = 0) then ZeroDivisionError else IndexError).
  pose proof (setup_unknown_case args Hnone) as Hsetup.
  assert (Hsim : forall v, simulate C H (with_llm v args)
                      = Raises (if decide (dt args = 0) then ZeroDivisionError else IndexError)).
  { intros v. unfold simulate. rewrite (setup_unknown_case (with_llm v args)) by exact Hnone.
    reflexivity. }
  split; [exact Hsetup|]. split.
  - unfold simulate. rewrite Hsetup. reflexivity.
  - unfold run_simulation, run_comparison_simulation.
    destruct (compare args && negb return_data).
    + rewrite (Hsim 0%Z). reflexivity.
    + unfold simulate. rewrite Hsetup. reflexivity.
Qed.

Lemma case_24_unknown : obstacle_cases !! case_key 24 = None.
Proof. vm_compute. reflexivity. Qed.

Lemma case_key_inj (n k : Z) : case_key n = case_key k -> n = k.
Proof.
  unfold case_key. cbn [String.app]. intros Heq.
  injection Heq as Heq. now apply (inj pretty).
Qed.

(** The predefined scenarios are the cases 1 to 23. *)
Lemma case_known (n : Z) :
  is_Some (obstacle_cases !! case_key n) <-> (1 <= n <= 23)%Z.
Proof.
  split.
  - intros [l Hl]. unfold obstacle_cases in Hl.
    apply elem_of_list_to_map_2 in Hl.
    repeat match goal with
    | Hin : _ ∈ _ :: _ |- _ => apply elem_of_cons in Hin as [Hin|Hin]
    | Hin : _ ∈ [] |- _ => now apply elem_of_nil in Hin
    | Heq : (case_key n, _) = (?s, _) |- _ =>
        apply (f_equal fst) in Heq; cbn [fst] in Heq
    end;
    match goal with
    | Heq : case_key n = _ |- _ =>
        find_case Heq n 1%positive; apply case_key_inj in Heq; subst n; lia
    end.
  - intros Hn.
    assert (Hcases : exists k : nat, (k < 23)%nat /\ n = (1 + Z.of_nat k)%Z).
    { exists (Z.to_nat (n - 1)). lia. }
    destruct Hcases as (k & Hk & ->).
    do 23 (destruct k as [|k]; [vm_compute; eexists; reflexivity|]). lia.
Qed.

Lemma unknown_case_fatal_witness :
  exists e : exn,
    setup unknown_case_args = Raises e /\
    simulate still_components absent_hook unknown_case_args = Raises e /\
    run_simulation still_components absent_hook unknown_case_args false = Raises e.
Proof.
  apply unknown_case_fatal. exact case_24_unknown.
Defined.

(** ** The loop *)

Lemma for_each_total {S : Type} (body : nat -> S -> outcome S) :
  (forall i s, exists s', body i s = Returns s') ->
  forall indices s, exists s', for_each body indices s = Returns s'.
Proof.
  intros Hbody indices. induction indices as [|i rest IH]; intros s.
  - exists s. reflexivity.
  - destruct (Hbody i s) as [s1 H1]. destruct (IH s1) as [s2 H2].
    exists s2. cbn [for_each]. rewrite H1. exact H2.
Qed.

Lemma for_each_seq_invariant {S : Type} (body : nat -> S -> outcome S)
    (Inv : nat -> S -> Prop) (n : nat) :
  (forall k s s', (k < n)%nat -> Inv k s -> body k s = Returns s' -> Inv (Datatypes.S k) s') ->
  forall s0 sf, Inv 0%nat s0 -> for_each body (seq 0 n) s0 = Returns sf -> Inv n sf.
Proof.
  intros Hstep.
  assert (Hgen : forall m a s0 sf, (a + m = n)%nat -> Inv a s0 ->
                   for_each body (seq a m) s0 = Returns sf -> Inv n sf).
  { induction m as [|m IH]; intros a s0 sf Ham Ha Hrun.
    - cbn in Hrun. injection Hrun as <-. replace n with a by lia. exact Ha.
    - cbn [seq for_each] in Hrun.
      destruct (body a s0) as [s1|e] eqn:Hb; [|discriminate].
      apply (IH (Datatypes.S a) s1 sf); [lia| |exact Hrun].
      apply (Hstep a s0); [lia|assumption|assumption]. }
  intros s0 sf. apply Hgen. lia.
Qed.

(** A loop that returns has returned from each of its iterations. *)
Lemma for_each_seq_raises {S : Type} (body : nat -> S -> outcome S) (n k : nat) :
  (k < n)%nat -> (forall s, exists e, body k s = Raises e) ->
  forall s0, exists e, for_each body (seq 0 n) s0 = Raises e.
Proof.
  intros Hk Hraise.
  assert (Hgen : forall m a s0, (a <= k < a + m)%nat ->
                   exists e, for_each body (seq a m) s0 = Raises e).
  { induction m as [|m IH]; intros a s0 Hak; [lia|].
    cbn [seq for_each].
    destruct (decide (a = k)) as [->|Hne].
    - destruct (Hraise s0) as [e He]. exists e. rewrite He. reflexivity.
    - destruct (body a s0) as [s1|e] eqn:Hb.
      + apply IH. lia.
      + exists e. reflexivity. }
  intros s0. apply Hgen. lia.
Qed.

Section StepFacts.

Variable C : Components.
Variable H : Hook.
Variable args : Args.
Variable sc : Scenario.

Lemma main_loop_body (s0 : St.Sim) :
  main_loop C H args sc s0
  = for_each (loop_body C H args sc (negb (no_animation args))) (seq 0 (length (St.x s0))) s0.
Proof. unfold main_loop, loop_body. destruct (negb (no_animation args)); reflexivity. Qed.

Lemma loop_body_facts (animated : bool) (i : nat) (s s' : St.Sim) :
  loop_body C H args sc animated i s = Returns s' ->
  step_facts C H args sc animated i s s'.
Proof.
  unfold loop_body. destruct animated.
  - unfold step_animated. cbv zeta.
    match goal with
    | |- context [llm_block ?h ?a ?k ?r ?d ?b ?dc ?tc ?kd] =>
        destruct (llm_block h a k r d b dc tc kd) as [Kdir'|err] eqn:Hllm
    end; [|discriminate].
    cbn [mbind outcome_bind bind].
    destruct (animate_step _ _ _) as [[]|err]; [|discriminate].
    cbn [mbind outcome_bind bind]. intros [= <-].
    constructor; cbn [St.x St.y St.psi_wp St.psi_oa St.psi_p St.Kdir St.Xob St.Yob
                      St.Xobs St.Yobs St.Bearing_ob St.geo St.x_nmi St.y_nmi St.psi
                      St.V_x St.V_y St.Vxobs St.Vyobs];
      try reflexivity; try (eexists; reflexivity); exact Hllm.
  - unfold step_plain. cbv zeta.
    match goal with
    | |- context [llm_block ?h ?a ?k ?r ?d ?b ?dc ?tc ?kd] =>
        destruct (llm_block h a k r d b dc tc kd) as [Kdir'|err] eqn:Hllm
    end; [|discriminate].
    cbn [mbind outcome_bind bind]. intros [= <-].
    constructor; cbn [St.x St.y St.psi_wp St.psi_oa St.psi_p St.Kdir St.Xob St.Yob
                      St.Xobs St.Yobs St.Bearing_ob St.geo St.x_nmi St.y_nmi St.psi
                      St.V_x St.V_y St.Vxobs St.Vyobs];
      try reflexivity; try (eexists; reflexivity); exact Hllm.
Qed.

End StepFacts.

(** ** Two-dimensional arrays *)

Lemma lookup_total_eq (M M' : list (list R)) (r : nat) :
  M' !! r = M !! r -> M' !!! r = M !!! r.
Proof. intros Heq. rewrite !list_lookup_total_alt, Heq. reflexivity. Qed.

Lemma set2_length (M : list (list R)) (i j : nat) (v : R) :
  length (set2 M i j v) = length M.
Proof. unfold set2. apply length_insert. Qed.

Lemma set2_lookup_ne (M : list (list R)) (i j r : nat) (v : R) :
  r <> i -> set2 M i j v !! r = M !! r.
Proof. intros Hne. unfold set2. apply list_lookup_insert_ne. congruence. Qed.

Lemma set2_row (M : list (list R)) (i j : nat) (v : R) :
  (i < length M)%nat -> set2 M i j v !!! i = <[j := v]> (M !!! i).
Proof. intros Hi. unfold set2. now apply list_lookup_total_insert_eq. Qed.

Lemma set2_out_of_range (M : list (list R)) (i j : nat) (v : R) :
  (length M <= i)%nat -> set2 M i j v = M.
Proof. intros Hi. unfold set2. now apply list_insert_ge. Qed.

Lemma set2_row_length (M : list (list R)) (i j : nat) (v : R) :
  length (set2 M i j v !!! i) = length (M !!! i).
Proof.
  destruct (decide (i < length M)%nat) as [Hi|Hi].
  - rewrite set2_row by assumption. apply length_insert.
  - rewrite set2_out_of_range by lia. reflexivity.
Qed.

Lemma get2_set2_eq (M : list (list R)) (i j : nat) (v : R) :
  (i < length M)%nat -> (j < length (M !!! i))%nat -> get2 (set2 M i j v) i j = v.
Proof.
  intros Hi Hj. unfold get2. rewrite set2_row by assumption.
  now apply list_lookup_total_insert_eq.
Qed.

Lemma get2_set2_ne (M : list (list R)) (i j c : nat) (v : R) :
  c <> j -> get2 (set2 M i j v) i c = get2 M i c.
Proof.
  intros Hne. unfold get2.
  destruct (decide (i < length M)%nat) as [Hi|Hi].
  - rewrite set2_row by assumption. apply list_lookup_total_insert_ne. congruence.
  - rewrite set2_out_of_range by lia. reflexivity.
Qed.

Lemma zeros2_length (n m : nat) : length (zeros2 n m) = n.
Proof. unfold zeros2. apply repeat_length. Qed.

Lemma repeat_lookup_total {A : Type} `{!Inhabited A} (a : A) (n r : nat) :
  (r < n)%nat -> repeat a n !!! r = a.
Proof.
  revert r. induction n as [|n IH]; intros r Hr; [lia|].
  destruct r as [|r]; [reflexivity|]. cbn [repeat].
  change ((a :: repeat a n) !!! Datatypes.S r) with (repeat a n !!! r).
  apply IH. lia.
Qed.

Lemma zeros2_row (n m r : nat) : (r < n)%nat -> zeros2 n m !!! r = zeros m.
Proof. intros Hr. unfold zeros2. now apply repeat_lookup_total. Qed.

Lemma fill_first_row_length (v : R) (M : list (list R)) :
  length (fill_first_row v M) = length M.
Proof. destruct M; reflexivity. Qed.

Lemma fill_first_row_zeros2 (v : R) (n m : nat) :
  (0 < n)%nat -> fill_first_row v (zeros2 n m) !!! 0%nat = repeat v m.
Proof.
  intros Hn. destruct n as [|n]; [lia|].
  unfold zeros2, zeros. cbn [repeat fill_first_row].
  change ((map (fun _ => v) (repeat 0 m) :: repeat (repeat 0 m) n) !!! 0%nat)
    with (map (fun _ : R => v) (repeat 0 m)).
  induction m as [|m IH]; [reflexivity|]. cbn [repeat map]. now rewrite IH.
Qed.

Lemma fill_first_row_later (v : R) (M : list (list R)) (r : nat) :
  (1 <= r)%nat -> fill_first_row v M !! r = M !! r.
Proof. intros Hr. destruct M as [|row M]; [reflexivity|]. destruct r; [lia|reflexivity]. Qed.

(** ** The risk analysis loop *)

(** A loop whose iteration [j] writes at most the entry [(i, j)] of each
    array. *)
Section EntryLoop.

Variable body : nat -> Geo -> Geo.
Variable i : nat.
Hypothesis touch :
  forall f j g,
    geo_get f (body j g) = geo_get f g \/
    exists v, geo_get f (body j g) = set2 (geo_get f g) i j v.

Lemma entry_loop_frame (f : geo_field) (js : list nat) (g : Geo) :
  let g' := foldl (fun g j => body j g) g js in
  length (geo_get f g') = length (geo_get f g) /\
  (forall r, r <> i -> geo_get f g' !! r = geo_get f g !! r) /\
  length (geo_get f g' !!! i) = length (geo_get f g !!! i) /\
  (forall c, c ∉ js -> get2 (geo_get f g') i c = get2 (geo_get f g) i c).
Proof.
  revert g. induction js as [|j js IH]; intros g; cbn [foldl].
  - repeat split; reflexivity.
  - destruct (IH (body j g)) as (Hlen & Hrows & Hrow & Hcols).
    assert (Hone : length (geo_get f (body j g)) = length (geo_get f g) /\
                   (forall r, r <> i -> geo_get f (body j g) !! r = geo_get f g !! r) /\
                   length (geo_get f (body j g) !!! i) = length (geo_get f g !!! i) /\
                   (forall c, c <> j ->
                              get2 (geo_get f (body j g)) i c = get2 (geo_get f g) i c)).
    { destruct (touch f j g) as [->|[v ->]].
      - repeat split; reflexivity.
      - split; [apply set2_length|]. split; [intros r Hr; now apply set2_lookup_ne|].
        split; [apply set2_row_length|]. intros c Hc. now apply get2_set2_ne. }
    destruct Hone as (Hlen1 & Hrows1 & Hrow1 & Hcols1).
    split; [congruence|]. split; [intros r Hr; rewrite Hrows by assumption; now apply Hrows1|].
    split; [congruence|].
    intros c Hc. apply not_elem_of_cons in Hc as [Hcj Hcjs].
    rewrite Hcols by assumption. now apply Hcols1.
Qed.

Lemma entry_loop_values (P : Geo -> Prop) (f : geo_field) (val : nat -> R) (js : list nat) :
  (forall j g, P g -> P (body j g) /\
                      geo_get f (body j g) = set2 (geo_get f g) i j (val j)) ->
  NoDup js ->
  forall g, P g ->
    (i < length (geo_get f g))%nat ->
    (forall j, j ∈ js -> (j < length (geo_get f g !!! i))%nat) ->
    forall j, j ∈ js -> get2 (geo_get f (foldl (fun g j => body j g) g js)) i j = val j.
Proof.
  intros Hbody. induction js as [|j0 js IH]; intros Hnodup g HP Hi Hj j Hin.
  - now apply elem_of_nil in Hin.
  - apply NoDup_cons in Hnodup as [Hnotin Hnodup]. cbn [foldl].
    destruct (Hbody j0 g HP) as [HP1 Hset].
    apply elem_of_cons in Hin as [->|Hin].
    + destruct (entry_loop_frame f js (body j0 g)) as (_ & _ & _ & Hcols).
      rewrite Hcols by assumption. rewrite Hset.
      apply get2_set2_eq; [assumption|]. apply Hj. left.
    + apply IH; try assumption.
      * rewrite Hset, set2_length. exact Hi.
      * intros j' Hj'. rewrite Hset, set2_row_length. apply Hj. now right.
Qed.

End EntryLoop.

Section RiskAnalysisFacts.

Variable C : Components.
Variable Ts : R.
Variables x y V_x V_y : list R.
Variables Xobs Yobs Vxobs Vyobs : list (list R).

Lemma risk_analysis_touch (animated : bool) (i : nat) (f : geo_field) (j : nat) (g : Geo) :
  geo_get f (risk_analysis C animated Ts x y V_x V_y Xobs Yobs Vxobs Vyobs i j g)
  = geo_get f g \/
  exists v,
    geo_get f (risk_analysis C animated Ts x y V_x V_y Xobs Yobs Vxobs Vyobs i j g)
    = set2 (geo_get f g) i j v.
Proof.
  unfold risk_analysis, risk_analysis_animated, risk_analysis_plain.
  destruct animated; case_bool_decide; destruct f; cbn; eauto.
Qed.

(** At step 0 the branch without animation leaves every array alone. *)
Lemma risk_analysis_plain_step0 (js : list nat) (g : Geo) :
  foldl (fun g j => risk_analysis C false Ts x y V_x V_y Xobs Yobs Vxobs Vyobs 0 j g) g js
  = g.
Proof. induction js as [|j js IH]; [reflexivity|]. cbn [foldl]. exact IH. Qed.

(** At step 0 the animated branch writes the risk entries only. *)
Lemma risk_analysis_animated_step0 (f : geo_field) (js : list nat) (g : Geo) :
  f <> F_Risk ->
  geo_get f (foldl (fun g j => risk_analysis C true Ts x y V_x V_y Xobs Yobs Vxobs Vyobs 0 j g)
                   g js)
  = geo_get f g.
Proof.
  intros Hf. revert g. induction js as [|j js IH]; intros g; [reflexivity|].
  cbn [foldl]. rewrite IH. destruct f; try reflexivity. congruence.
Qed.

Lemma risk_analysis_animated_step0_risk (js : list nat) (g : Geo) (j : nat) :
  NoDup js -> j ∈ js ->
  (0 < length (Risk g))%nat ->
  (forall j', j' ∈ js -> (j' < length (Risk g !!! 0%nat))%nat) ->
  get2 (Risk (foldl (fun g j => risk_analysis C true Ts x y V_x V_y Xobs Yobs Vxobs Vyobs 0 j g)
                    g js)) 0 j
  = risk_calculations C (get2 (DCPA g) 0 j) (get2 (TCPA g) 0 j)
      (get2 (Distance_ob g) 0 j) (get2 (Vrel g) 0 j).
Proof.
  intros Hnodup Hin Hrows Hcols.
  apply (entry_loop_values (risk_analysis C true Ts x y V_x V_y Xobs Yobs Vxobs Vyobs 0) 0
           (risk_analysis_touch true 0)
           (fun g' => DCPA g' = DCPA g /\ TCPA g' = TCPA g /\
                      Distance_ob g' = Distance_ob g /\ Vrel g' = Vrel g)
           F_Risk
           (fun j => risk_calculations C (get2 (DCPA g) 0 j) (get2 (TCPA g) 0 j)
                       (get2 (Distance_ob g) 0 j) (get2 (Vrel g) 0 j)));
    try assumption; [|repeat split].
  intros j' g' (HD & HT & HDi & HV). split; [repeat split; assumption|].
  rewrite <- HD, <- HT, <- HDi, <- HV. reflexivity.
Qed.

(** From step 1 on both branches write the finite-difference geometry. *)
Lemma risk_analysis_cpa (animated : bool) (i : nat) (js : list nat) (g : Geo) (j : nat) :
  (1 <= i)%nat -> NoDup js -> j ∈ js ->
  (forall f, (i < length (geo_get f g))%nat /\
             forall j', j' ∈ js -> (j' < length (geo_get f g !!! i))%nat) ->
  let g' :=
    foldl (fun g j => risk_analysis C animated Ts x y V_x V_y Xobs Yobs Vxobs Vyobs i j g)
          g js in
  let c := cpa_calculations C (x !!! i) (y !!! i) (x !!! (i - 1)%nat) (y !!! (i - 1)%nat)
             (get2 Xobs i j) (get2 Yobs i j) (get2 Xobs (i - 1) j) (get2 Yobs (i - 1) j) Ts in
  get2 (DCPA g') i j = cpa_DCPA c /\ get2 (TCPA g') i j = cpa_TCPA c /\
  get2 (Vrel g') i j = cpa_Vrel c /\ get2 (alpha g') i j = cpa_alpha c /\
  get2 (psi_Vrel g') i j = cpa_psi_Vrel c.
Proof.
  intros Hi Hnodup Hin Hshape g' c. subst g' c.
  assert (Hfield : forall f val,
            (forall j g,
               geo_get f (risk_analysis C animated Ts x y V_x V_y Xobs Yobs Vxobs Vyobs i j g)
               = set2 (geo_get f g) i j (val j)) ->
            get2 (geo_get f
                    (foldl (fun g j => risk_analysis C animated Ts x y V_x V_y
                                         Xobs Yobs Vxobs Vyobs i j g) g js)) i j
            = val j).
  { intros f val Hval.
    apply (entry_loop_values (risk_analysis C animated Ts x y V_x V_y Xobs Yobs Vxobs Vyobs i)
             i (risk_analysis_touch animated i) (fun _ => True) f val); try assumption; try apply Hshape; [|exact I].
    intros j' g' _. split; [exact I | apply Hval]. }
  assert (Hbody : forall j g,
            risk_analysis C animated Ts x y V_x V_y Xobs Yobs Vxobs Vyobs i j g
            = risk_entry C i j (closing_geometry C Ts x y V_x V_y Xobs Yobs Vxobs Vyobs i j g)).
  { intros j' g'. unfold risk_analysis, risk_analysis_animated, risk_analysis_plain.
    destruct animated; rewrite bool_decide_eq_true_2 by assumption; reflexivity. }
  repeat split.
  - apply (Hfield F_DCPA (fun j => cpa_DCPA _)). intros; rewrite Hbody; reflexivity.
  - apply (Hfield F_TCPA (fun j => cpa_TCPA _)). intros; rewrite Hbody; reflexivity.
  - apply (Hfield F_Vrel (fun j => cpa_Vrel _)). intros; rewrite Hbody; reflexivity.
  - apply (Hfield F_alpha (fun j => cpa_alpha _)). intros; rewrite Hbody; reflexivity.
  - apply (Hfield F_psi_Vrel (fun j => cpa_psi_Vrel _)). intros; rewrite Hbody; reflexivity.
Qed.

End RiskAnalysisFacts.

(** ** The decision block *)

Section DecisionBlock.

Variable H : Hook.
Variable args : Args.

Lemma decision_step_dec (i : nat) : {decision_step H args i} + {~ decision_step H args i}.
Proof.
  unfold decision_step.
  destruct (decide (llm args = 1%Z)); [|right; tauto].
  destruct (LLM_AVAILABLE H); [|right; intros (_ & Hf & _); discriminate].
  destruct (decide (i mod 200 = 0)%nat); [left; tauto | right; tauto].
Qed.

Lemma llm_block_idle (i : nat) (Ri Di Bi DCi TCi Kdir : list R) :
  ~ decision_step H args i -> llm_block H args i Ri Di Bi DCi TCi Kdir = Returns Kdir.
Proof.
  unfold decision_step, llm_block. intros Hno.
  case_bool_decide; [|reflexivity].
  destruct (LLM_AVAILABLE H); [|reflexivity]. cbn [negb].
  case_bool_decide; [|reflexivity]. tauto.
Qed.

Lemma llm_block_decision (i : nat) (Ri Di Bi DCi TCi Kdir : list R) :
  decision_step H args i ->
  llm_block H args i Ri Di Bi DCi TCi Kdir
  = (decision ← run_colm H i Ri Di Bi DCi TCi 0 (llm_provider args);
     Returns (<[i := IZR (extract_kdir_from_response decision)]> Kdir)).
Proof.
  unfold decision_step, llm_block. intros (Hllm & Hav & Hmod).
  rewrite Hav. rewrite !bool_decide_eq_true_2 by assumption. reflexivity.
Qed.

Lemma llm_block_touch (i : nat) (Ri Di Bi DCi TCi Kdir Kdir' : list R) :
  llm_block H args i Ri Di Bi DCi TCi Kdir = Returns Kdir' ->
  Kdir' = Kdir \/ exists v, Kdir' = <[i := v]> Kdir.
Proof.
  destruct (decision_step_dec i) as [Hd|Hd].
  - rewrite llm_block_decision by assumption.
    destruct (run_colm _ _ _ _ _ _ _ _ _) as [decision|e]; [|discriminate].
    intros [= <-]. right. eexists. reflexivity.
  - rewrite llm_block_idle by assumption. intros [= <-]. now left.
Qed.

Lemma run_colm_raises (i : nat) (Ri Di Bi DCi TCi : list R) (e : exn) :
  LLM_AVAILABLE H = true ->
  COLREGSInterpreter H i (llm_provider args) = Raises e ->
  run_colm H i Ri Di Bi DCi TCi 0 (llm_provider args) = Raises e.
Proof. intros Hav Hraise. unfold run_colm. rewrite Hav, Hraise. reflexivity. Qed.

Lemma llm_block_raises (i : nat) (Ri Di Bi DCi TCi Kdir : list R) (e : exn) :
  decision_step H args i ->
  COLREGSInterpreter H i (llm_provider args) = Raises e ->
  llm_block H args i Ri Di Bi DCi TCi Kdir = Raises e.
Proof.
  intros Hd Hraise. rewrite llm_block_decision by assumption.
  rewrite (run_colm_raises i Ri Di Bi DCi TCi e); [reflexivity| |assumption]. apply Hd.
Qed.

Lemma llm_block_returns (i : nat) (Ri Di Bi DCi TCi Kdir : list R) :
  (LLM_AVAILABLE H = true ->
   forall k, exists itp, COLREGSInterpreter H k (llm_provider args) = Returns itp) ->
  exists Kdir', llm_block H args i Ri Di Bi DCi TCi Kdir = Returns Kdir'.
Proof.
  intros Hok. destruct (decision_step_dec i) as [Hd|Hd].
  - rewrite llm_block_decision by assumption. unfold run_colm.
    destruct Hd as (_ & Hav & _). rewrite Hav. destruct (Hok Hav i) as [itp ->].
    eexists. reflexivity.
  - rewrite llm_block_idle by assumption. eexists. reflexivity.
Qed.

End DecisionBlock.

(** ** What a directive text is mapped to *)

Lemma prefix_contains (q s : string) : String.prefix q s = true -> contains q s = true.
Proof. intros Hp. destruct s; cbn [contains]; rewrite Hp; reflexivity. Qed.

Lemma contains_tail (q : string) (c : ascii) (s : string) :
  contains q s = true -> contains q (String c s) = true.
Proof. intros Hc. cbn [contains]. rewrite Hc. apply orb_true_r. Qed.

Lemma prefix_app_contains (p q s : string) :
  String.prefix (p +:+ q) s = true -> contains q s = true.
Proof.
  revert s. induction p as [|a p IH]; intros s Hp.
  - now apply prefix_contains.
  - destruct s as [|b s]; simpl in Hp; [discriminate|].
    destruct (ascii_dec a b); [|discriminate].
    apply contains_tail, IH, Hp.
Qed.

(** A text that contains [p ++ q] contains [q]. *)
Lemma contains_app (p q s : string) :
  contains (p +:+ q) s = true -> contains q s = true.
Proof.
  induction s as [|c s IH]; cbn [contains]; intros Hc.
  - rewrite orb_false_r in Hc. now apply (prefix_app_contains p q "").
  - apply orb_true_iff in Hc as [Hc|Hc].
    + now apply (prefix_app_contains p q (String c s)).
    + apply contains_tail, IH, Hc.
Qed.

Lemma extract_kdir_unrecognized (response : string) :
  contains "starboard" (lower response) = false ->
  contains "port" (lower response) = false ->
  extract_kdir_from_response response = 0%Z.
Proof.
  intros Hs Hp. unfold extract_kdir_from_response.
  assert (H1 : contains "turn starboard" (lower response) = false).
  { apply not_true_is_false. intros Hc.
    apply (contains_app "turn " "starboard") in Hc. congruence. }
  assert (H2 : contains "alter course to starboard" (lower response) = false).
  { apply not_true_is_false. intros Hc.
    apply (contains_app "alter course to " "starboard") in Hc. congruence. }
  assert (H3 : contains "turn port" (lower response) = false).
  { apply not_true_is_false. intros Hc.
    apply (contains_app "turn " "port") in Hc. congruence. }
  assert (H4 : contains "alter course to port" (lower response) = false).
  { apply not_true_is_false. intros Hc.
    apply (contains_app "alter course to " "port") in Hc. congruence. }
  rewrite Hs, Hp, H1, H2, H3, H4. reflexivity.
Qed.

(** ** Frame properties of one iteration *)

Section StepFrame.

Variable C : Components.
Variable H : Hook.
Variable args : Args.
Variable sc : Scenario.
Variable animated : bool.
Variables (i : nat) (s s' : St.Sim).
Hypothesis facts : step_facts C H args sc animated i s s'.

Lemma set_Distance_ob_row_frame (f : geo_field) (row : list R) (g : Geo) :
  length (geo_get f (set_Distance_ob_row i row g)) = length (geo_get f g) /\
  (forall r, r <> i -> geo_get f (set_Distance_ob_row i row g) !! r = geo_get f g !! r) /\
  (f <> F_Distance_ob -> geo_get f (set_Distance_ob_row i row g) = geo_get f g).
Proof.
  destruct f; cbn; repeat split; try reflexivity; try congruence.
  - apply length_insert.
  - intros r Hr. apply list_lookup_insert_ne. congruence.
Qed.

Lemma step_geo_length (f : geo_field) :
  length (geo_get f (St.geo s')) = length (geo_get f (St.geo s)).
Proof.
  rewrite (sf_geo _ _ _ _ _ _ _ _ facts).
  match goal with
  | |- context [foldl ?b ?g0 ?js] =>
      destruct (entry_loop_frame (fun j g => b g j) i
                  (risk_analysis_touch C _ _ _ _ _ _ _ _ _ animated i) f js g0) as (Hlen & _)
  end.
  cbv zeta in Hlen. rewrite Hlen.
  apply set_Distance_ob_row_frame.
Qed.

Lemma step_geo_frame (f : geo_field) (r : nat) :
  r <> i -> geo_get f (St.geo s') !!! r = geo_get f (St.geo s) !!! r.
Proof.
  intros Hr. apply lookup_total_eq.
  rewrite (sf_geo _ _ _ _ _ _ _ _ facts).
  match goal with
  | |- context [foldl ?b ?g0 ?js] =>
      destruct (entry_loop_frame (fun j g => b g j) i
                  (risk_analysis_touch C _ _ _ _ _ _ _ _ _ animated i) f js g0)
        as (_ & Hrows & _)
  end.
  cbv zeta in Hrows. rewrite Hrows by assumption.
  now apply set_Distance_ob_row_frame.
Qed.

Lemma step_Bearing_ob_frame (r : nat) :
  r <> i -> St.Bearing_ob s' !!! r = St.Bearing_ob s !!! r.
Proof.
  intros Hr. rewrite (sf_Bearing_ob _ _ _ _ _ _ _ _ facts).
  apply list_lookup_total_insert_ne. congruence.
Qed.

Lemma step_Kdir_frame (r : nat) :
  r <> i -> St.Kdir s' !!! r = St.Kdir s !!! r.
Proof.
  intros Hr.
  destruct (llm_block_touch _ _ _ _ _ _ _ _ _ _ (sf_Kdir _ _ _ _ _ _ _ _ facts))
    as [->|[v ->]]; [reflexivity|].
  apply list_lookup_total_insert_ne. congruence.
Qed.

Lemma step_Kdir_length : length (St.Kdir s') = length (St.Kdir s).
Proof.
  destruct (llm_block_touch _ _ _ _ _ _ _ _ _ _ (sf_Kdir _ _ _ _ _ _ _ _ facts))
    as [->|[v ->]]; [reflexivity|]. apply length_insert.
Qed.

End StepFrame.

(** ** The heading command along a run *)

Section HeadingInvariant.

Variable C : Components.
Variable H : Hook.
Variable args : Args.
Variable sc : Scenario.
Variable animated : bool.
Variable n : nat.

(** After the loop: every heading command was formed with the multiplier 1,
    and [Kdir] holds the directive of each decision step and 1 elsewhere. *)
Lemma loop_heading (s0 sf : St.Sim) :
  length (St.Kdir s0) = n -> length (St.psi_p s0) = n ->
  length (St.psi_wp s0) = n -> length (St.psi_oa s0) = n ->
  (forall j, (j < n)%nat -> St.Kdir s0 !!! j = 1) ->
  for_each (loop_body C H args sc animated) (seq 0 n) s0 = Returns sf ->
  (length (St.Kdir sf) = n /\ length (St.psi_p sf) = n) /\
  (forall j, (j < n)%nat ->
     St.psi_p sf !!! j = St.psi_wp sf !!! j + 1 * St.psi_oa sf !!! j) /\
  (forall j, (j < n)%nat ->
     (decision_step H args j ->
      exists decision,
        run_colm H j (Risk (St.geo sf) !!! j) (Distance_ob (St.geo sf) !!! j)
          (St.Bearing_ob sf !!! j) (DCPA (St.geo sf) !!! j) (TCPA (St.geo sf) !!! j)
          0 (llm_provider args) = Returns decision /\
        St.Kdir sf !!! j = IZR (extract_kdir_from_response decision)) /\
     (~ decision_step H args j -> St.Kdir sf !!! j = 1)).
Proof.
  intros HK0 Hp0 Hwp0 Hoa0 Hones Hrun.
  pose (Inv := fun (k : nat) (s : St.Sim) =>
    (length (St.Kdir s) = n /\ length (St.psi_p s) = n /\
     length (St.psi_wp s) = n /\ length (St.psi_oa s) = n) /\
    (forall j, (k <= j < n)%nat -> St.Kdir s !!! j = 1) /\
    (forall j, (j < k)%nat ->
       St.psi_p s !!! j = St.psi_wp s !!! j + 1 * St.psi_oa s !!! j) /\
    (forall j, (j < k)%nat ->
       (decision_step H args j ->
        exists decision,
          run_colm H j (Risk (St.geo s) !!! j) (Distance_ob (St.geo s) !!! j)
            (St.Bearing_ob s !!! j) (DCPA (St.geo s) !!! j) (TCPA (St.geo s) !!! j)
            0 (llm_provider args) = Returns decision /\
          St.Kdir s !!! j = IZR (extract_kdir_from_response decision)) /\
       (~ decision_step H args j -> St.Kdir s !!! j = 1))).
  assert (Hfinal : Inv n sf).
  { apply (for_each_seq_invariant (loop_body C H args sc animated) Inv n) with (s0 := s0);
      [|repeat split; try assumption; try (intros; lia); intros j Hj; apply Hones; lia
       |exact Hrun].
    clear s0 sf HK0 Hp0 Hwp0 Hoa0 Hones Hrun.
    intros k s s' Hk ((HK & Hp & Hwp & Hoa) & Hones & Hhead & Hrec) Hstep.
    apply loop_body_facts in Hstep as Hf.
    destruct (sf_psi_wp _ _ _ _ _ _ _ _ Hf) as [wp Ewp].
    pose proof (sf_psi_oa _ _ _ _ _ _ _ _ Hf) as Eoa.
    pose proof (sf_psi_p _ _ _ _ _ _ _ _ Hf) as Ep.
    pose proof (sf_Kdir _ _ _ _ _ _ _ _ Hf) as EK.
    split; [|split; [|split]].
    - rewrite (step_Kdir_length _ _ _ _ _ _ _ _ Hf), Ep, Ewp, Eoa, !length_insert. tauto.
    - intros j Hj. rewrite (step_Kdir_frame _ _ _ _ _ _ _ _ Hf) by lia. apply Hones. lia.
    - intros j Hj. destruct (decide (j = k)) as [->|Hne].
      + rewrite Ep. rewrite list_lookup_total_insert_eq by lia.
        rewrite (Hones k) by lia. reflexivity.
      + rewrite Ep, Ewp, Eoa, !list_lookup_total_insert_ne by congruence.
        apply Hhead. lia.
    - intros j Hj. destruct (decide (j = k)) as [->|Hne].
      + split.
        * intros Hd. rewrite llm_block_decision in EK by assumption.
          destruct (run_colm _ _ _ _ _ _ _ _ _) as [decision|e]; [|discriminate].
          exists decision. split; [reflexivity|].
          cbn in EK. injection EK as <-.
          apply list_lookup_total_insert_eq. lia.
        * intros Hd. rewrite llm_block_idle in EK by assumption.
          injection EK as <-. apply Hones. lia.
      + rewrite !(step_geo_frame _ _ _ _ _ _ _ _ Hf F_Risk),
                !(step_geo_frame _ _ _ _ _ _ _ _ Hf F_Distance_ob),
                !(step_geo_frame _ _ _ _ _ _ _ _ Hf F_DCPA),
                !(step_geo_frame _ _ _ _ _ _ _ _ Hf F_TCPA) by assumption.
        change (geo_get F_Risk (St.geo s)) with (Risk (St.geo s)).
        change (geo_get F_Distance_ob (St.geo s)) with (Distance_ob (St.geo s)).
        change (geo_get F_DCPA (St.geo s)) with (DCPA (St.geo s)).
        change (geo_get F_TCPA (St.geo s)) with (TCPA (St.geo s)).
        rewrite (step_Bearing_ob_frame _ _ _ _ _ _ _ _ Hf) by assumption.
        rewrite (step_Kdir_frame _ _ _ _ _ _ _ _ Hf) by assumption.
        apply Hrec. lia. }
  destruct Hfinal as ((HK & Hp & _) & _ & Hhead & Hrec). repeat split; try assumption.
  - apply Hrec; assumption.
  - apply Hrec; assumption.
Qed.

End HeadingInvariant.

(** ** From the set-up to the loop *)

Lemma initial_state_lengths (n : nat) (Xob Yob : list R) :
  let s0 := initial_state n Xob Yob in
  length (St.x s0) = n /\ length (St.y s0) = n /\
  length (St.Kdir s0) = n /\ length (St.psi_p s0) = n /\
  length (St.psi_wp s0) = n /\ length (St.psi_oa s0) = n /\
  (forall j, (j < n)%nat -> St.Kdir s0 !!! j = 1).
Proof.
  cbn. unfold zeros, ones. rewrite !repeat_length. repeat split.
  intros j Hj. now apply repeat_lookup_total.
Qed.

Lemma setup_returns (args : Args) (init : Scenario * St.Sim) :
  setup args = Returns init ->
  let obstacles := get_obstacles (case_number args) in
  init.2 = initial_state (N init.1) (map (fun o : obstacle => o.1.1) obstacles)
                         (map (fun o : obstacle => o.1.2) obstacles) /\
  Vob init.1 = repeat 18.52 (length obstacles) /\
  psiob init.1 = map (fun o : obstacle => radians o.2) obstacles /\
  obstacles <> [] /\
  IZR (Z.of_nat (N init.1)) = IZR (py_round (sim_time args / dt args)).
Proof.
  unfold setup, get_obstacle_data.
  destruct (decide (dt args = 0)); [discriminate|].
  destruct (get_obstacles (case_number args)) as [|o obstacles] eqn:Hobs; [discriminate|].
  cbn [length repeat list_first mbind outcome_bind bind]. rewrite length_map.
  case_bool_decide; [discriminate|].
  intros [= <-]. cbn [fst snd N Vob psiob].
  repeat split; try reflexivity; [discriminate|].
  rewrite Z2Nat.id by lia. reflexivity.
Qed.

Lemma simulate_returns (C : Components) (H : Hook) (args : Args) (sf : St.Sim) :
  simulate C H args = Returns sf ->
  exists sc : Scenario,
    let obstacles := get_obstacles (case_number args) in
    let s0 := initial_state (N sc) (map (fun o : obstacle => o.1.1) obstacles)
                            (map (fun o : obstacle => o.1.2) obstacles) in
    setup args = Returns (sc, s0) /\
    Vob sc = repeat 18.52 (length obstacles) /\
    psiob sc = map (fun o : obstacle => radians o.2) obstacles /\
    obstacles <> [] /\
    for_each (loop_body C H args sc (negb (no_animation args))) (seq 0 (N sc)) s0
    = Returns sf.
Proof.
  unfold simulate. destruct (setup args) as [[sc s0]|e] eqn:Hsetup; [|discriminate].
  cbn [mbind outcome_bind bind fst snd]. intros Hloop.
  destruct (setup_returns args (sc, s0) Hsetup) as (Hs0 & HV & Hpsi & Hne & _).
  cbn [fst snd] in *. subst s0.
  rewrite main_loop_body in Hloop.
  destruct (initial_state_lengths (N sc) (map (fun o : obstacle => o.1.1)
              (get_obstacles (case_number args)))
              (map (fun o : obstacle => o.1.2) (get_obstacles (case_number args))))
    as (Hx & _).
  rewrite Hx in Hloop.
  exists sc. cbv zeta. repeat split; assumption.
Qed.

Lemma py_round_IZR (z : Z) : py_round (IZR z) = z.
Proof.
  unfold py_round.
  assert (Hint : Int_part (IZR z) = z) by (symmetry; apply Int_part_spec; lra).
  rewrite Hint. rewrite decide_True; [reflexivity | lra].
Qed.

(** The loop returns as soon as each iteration does on the states it meets. *)
Lemma for_each_total_on {S : Type} (body : nat -> S -> outcome S) (Inv : S -> Prop) :
  (forall i s, Inv s -> exists s', body i s = Returns s' /\ Inv s') ->
  forall indices s, Inv s -> exists s', for_each body indices s = Returns s'.
Proof.
  intros Hbody indices. induction indices as [|i rest IH]; intros s Hs.
  - exists s. reflexivity.
  - destruct (Hbody i s Hs) as (s1 & H1 & Hs1). destruct (IH s1 Hs1) as [s2 H2].
    exists s2. cbn [for_each]. rewrite H1. exact H2.
Qed.

Lemma step_plain_total (C : Components) (H : Hook) (args : Args) (sc : Scenario)
    (i : nat) (s : St.Sim) :
  (LLM_AVAILABLE H = true ->
   forall k, exists itp, COLREGSInterpreter H k (llm_provider args) = Returns itp) ->
  exists s', step_plain C H args sc i s = Returns s'.
Proof.
  intros Hok. unfold step_plain. cbv zeta.
  match goal with
  | |- context [llm_block ?h ?a ?k ?r ?d ?b ?dc ?tc ?kd] =>
      destruct (llm_block_returns h a k r d b dc tc kd Hok) as [Kdir' ->]
  end.
  eexists. reflexivity.
Qed.

(** Without animation the run returns whenever the set-up does and the
    construction of the interpreter never raises. *)
Lemma simulate_plain_total (C : Components) (H : Hook) (args : Args) (init : Scenario * St.Sim) :
  no_animation args = true ->
  setup args = Returns init ->
  (LLM_AVAILABLE H = true ->
   forall k, exists itp, COLREGSInterpreter H k (llm_provider args) = Returns itp) ->
  exists sf, simulate C H args = Returns sf.
Proof.
  intros Hna Hsetup Hok. unfold simulate. rewrite Hsetup.
  cbn [mbind outcome_bind bind]. unfold main_loop. rewrite Hna. cbn [negb].
  apply for_each_total. intros i s. now apply step_plain_total.
Qed.

Lemma case_1_obstacles :
  get_obstacles 1 = [ob (nautical_to_meters 6) (nautical_to_meters 0) 180].
Proof. vm_compute. reflexivity. Qed.

Lemma setup_total (args : Args) (z : Z) :
  dt args <> 0 -> sim_time args / dt args = IZR z -> (0 <= z)%Z ->
  get_obstacles (case_number args) <> [] ->
  exists init, setup args = Returns init /\ N init.1 = Z.to_nat z.
Proof.
  intros Hdt Hz Hpos Hobs. unfold setup, get_obstacle_data.
  rewrite decide_False by assumption. rewrite Hz, py_round_IZR.
  destruct (get_obstacles (case_number args)) as [|o obstacles]; [congruence|].
  cbn [length repeat list_first mbind outcome_bind bind].
  rewrite bool_decide_eq_false_2 by lia.
  eexists. split; reflexivity.
Qed.

Lemma short_run_setup :
  exists init, setup short_run_args = Returns init /\ N init.1 = 2%nat.
Proof.
  apply (setup_total short_run_args 2); cbn.
  - lra.
  - field.
  - lia.
  - rewrite case_1_obstacles. discriminate.
Qed.

Lemma loop_body_raises (C : Components) (H : Hook) (args : Args) (sc : Scenario)
    (animated : bool) (i : nat) (s : St.Sim) (e : exn) :
  decision_step H args i ->
  COLREGSInterpreter H i (llm_provider args) = Raises e ->
  loop_body C H args sc animated i s = Raises e.
Proof.
  intros Hd Hraise. unfold loop_body.
  destruct animated; [unfold step_animated | unfold step_plain]; cbv zeta;
    rewrite (llm_block_raises H args i _ _ _ _ _ _ e) by assumption; reflexivity.
Qed.

(** The arrays the hook is called with in step [i], read off a state. *)
Lemma simulate_heading (C : Components) (H : Hook) (args : Args) (sf : St.Sim) :
  simulate C H args = Returns sf ->
  (forall i, (i < length (St.psi_p sf))%nat ->
     St.psi_p sf !!! i = St.psi_wp sf !!! i + 1 * St.psi_oa sf !!! i) /\
  (forall i, (i < length (St.Kdir sf))%nat ->
     (decision_step H args i ->
      exists decision,
        run_colm H i (Risk (St.geo sf) !!! i) (Distance_ob (St.geo sf) !!! i)
          (St.Bearing_ob sf !!! i) (DCPA (St.geo sf) !!! i) (TCPA (St.geo sf) !!! i)
          0 (llm_provider args) = Returns decision /\
        St.Kdir sf !!! i = IZR (extract_kdir_from_response decision)) /\
     (~ decision_step H args i -> St.Kdir sf !!! i = 1)).
Proof.
  intros Hrun. apply simulate_returns in Hrun as (sc & _ & _ & _ & _ & Hloop).
  match type of Hloop with
  | for_each _ _ (initial_state ?n ?Xob ?Yob) = _ =>
      destruct (initial_state_lengths n Xob Yob) as (_ & _ & HK & Hp & Hwp & Hoa & Hones)
  end.
  destruct (loop_heading C H args sc _ (N sc) _ sf HK Hp Hwp Hoa Hones Hloop)
    as ((HKf & Hpf) & Hhead & Hrec).
  rewrite HKf, Hpf. split; assumption.
Qed.

(** C4: every heading command is [psi_wp + 1 * psi_oa], whatever the hook
    answered; at a decision step the directive is stored in [Kdir] after
    the heading command of that step was formed, and no later step reads
    it. *)
Theorem directive_never_applied (C : Components) (H : Hook) (args : Args) (sf : St.Sim) :
  simulate C H args = Returns sf ->
  (forall i, (i < length (St.psi_p sf))%nat ->
     St.psi_p sf !!! i = St.psi_wp sf !!! i + 1 * St.psi_oa sf !!! i) /\
  (forall i, (i < length (St.Kdir sf))%nat -> decision_step H args i ->
     exists decision,
       run_colm H i (Risk (St.geo sf) !!! i) (Distance_ob (St.geo sf) !!! i)
         (St.Bearing_ob sf !!! i) (DCPA (St.geo sf) !!! i) (TCPA (St.geo sf) !!! i)
         0 (llm_provider args) = Returns decision /\
       St.Kdir sf !!! i = IZR (extract_kdir_from_response decision)).
Proof.
  intros Hrun. destruct (simulate_heading C H args sf Hrun) as [Hhead Hrec].
  split; [exact Hhead|]. intros i Hi Hd. now apply Hrec.
Qed.

(** ** Shapes of the recorded arrays *)

Lemma ra_distance_ob_length (x_ob y_ob : list R) (x y psi t : R) :
  length y_ob = length x_ob ->
  length (ra_distance_ob (reactive_avoidance x_ob y_ob x y psi t)) = length x_ob.
Proof.
  intros Hlen. unfold reactive_avoidance, ra_distance_ob.
  rewrite length_map, length_zip_with, !length_map. lia.
Qed.

Lemma set_Distance_ob_row_shape (N n i : nat) (row : list R) (g : Geo) :
  geo_shape N n g -> length row = n -> geo_shape N n (set_Distance_ob_row i row g).
Proof.
  intros Hg Hrow f. destruct (Hg f) as [Hlen Hrows].
  destruct (decide (f = F_Distance_ob)) as [->|Hf].
  - cbn. rewrite length_insert. split; [exact Hlen|].
    intros r Hr. destruct (decide (r = i)) as [->|Hne].
    + rewrite list_lookup_total_insert_eq by (cbn in Hlen; lia). exact Hrow.
    + rewrite list_lookup_total_insert_ne by congruence. now apply Hrows.
  - destruct (set_Distance_ob_row_frame i f row g) as (_ & _ & Heq).
    rewrite Heq by assumption. split; assumption.
Qed.

Lemma risk_analysis_shape (C : Components) (animated : bool) (Ts : R)
    (x y V_x V_y : list R) (Xobs Yobs Vxobs Vyobs : list (list R))
    (N n i : nat) (js : list nat) (g : Geo) :
  geo_shape N n g ->
  geo_shape N n (foldl (fun g j => risk_analysis C animated Ts x y V_x V_y
                                     Xobs Yobs Vxobs Vyobs i j g) g js).
Proof.
  intros Hg f. destruct (Hg f) as [Hlen Hrows].
  destruct (entry_loop_frame
              (risk_analysis C animated Ts x y V_x V_y Xobs Yobs Vxobs Vyobs i) i
              (risk_analysis_touch C Ts x y V_x V_y Xobs Yobs Vxobs Vyobs animated i)
              f js g) as (Hlen' & Hrows' & Hrow' & _).
  cbv zeta in *. split; [congruence|].
  intros r Hr. destruct (decide (r = i)) as [->|Hne].
  - rewrite Hrow'. now apply Hrows.
  - rewrite (lookup_total_eq _ _ r (Hrows' r Hne)). now apply Hrows.
Qed.

Lemma initial_state_shape (N n : nat) (Xob Yob : list R) :
  length Xob = n ->
  geo_shape N n (St.geo (initial_state N Xob Yob)).
Proof.
  intros <- f.
  destruct f; cbn [initial_state St.geo geo_get Distance_ob DCPA TCPA Vrel alpha psi_Vrel
                     DCPA2 TCPA2 Vrel2 alpha2 psi_Vrel2 Risk];
    rewrite ?fill_first_row_length, zeros2_length; (split; [reflexivity|]);
    intros r Hr; try (rewrite zeros2_row by assumption; apply repeat_length).
  - destruct r as [|r].
    + rewrite fill_first_row_zeros2 by lia. apply repeat_length.
    + rewrite (lookup_total_eq _ _ _ (fill_first_row_later 1000 _ (Datatypes.S r) ltac:(lia))).
      rewrite zeros2_row by assumption. apply repeat_length.
  - destruct r as [|r].
    + rewrite fill_first_row_zeros2 by lia. apply repeat_length.
    + rewrite (lookup_total_eq _ _ _ (fill_first_row_later 1000 _ (Datatypes.S r) ltac:(lia))).
      rewrite zeros2_row by assumption. apply repeat_length.
Qed.

Lemma initial_state_first_row (N n : nat) (Xob Yob : list R) :
  length Xob = n -> (0 < N)%nat ->
  first_row_untouched n (St.geo (initial_state N Xob Yob)) /\
  Risk (St.geo (initial_state N Xob Yob)) !!! 0%nat = zeros n.
Proof.
  intros <- HN. unfold first_row_untouched. cbn.
  rewrite !fill_first_row_zeros2, !zeros2_row by assumption. repeat split.
Qed.

(** ** The geometry arrays along a run *)

Section Geometry.

Variable C : Components.
Variable H : Hook.
Variable args : Args.
Variable sc : Scenario.
Variable animated : bool.
Variables Nsteps n : nat.
Hypothesis obstacle_sim_shape : shape_preserving C.
Hypothesis Vob_length : length (Vob sc) = n.
Hypothesis psiob_length : length (psiob sc) = n.

Section OneStep.

Variables (k : nat) (s s' : St.Sim).
Hypothesis facts : step_facts C H args sc animated k s s'.
Hypothesis Xob_length : length (St.Xob s) = n.
Hypothesis Yob_length : length (St.Yob s) = n.
Hypothesis shaped : geo_shape Nsteps n (St.geo s).
Hypothesis in_range : (k < Nsteps)%nat.

Lemma step_obstacles : length (St.Xob s') = n /\ length (St.Yob s') = n.
Proof.
  rewrite (sf_Xob _ _ _ _ _ _ _ _ facts), (sf_Yob _ _ _ _ _ _ _ _ facts).
  pose proof (obstacle_sim_shape (St.Xob s) (St.Yob s) (Vob sc) (psiob sc) (dt args)) as Hs.
  destruct (obstacle_sim C _ _ _ _ _) as [[[Xob' Yob'] Vxob] Vyob]. cbn [fst snd].
  destruct Hs as (H1 & H2 & _); try congruence. split; congruence.
Qed.

Lemma step_distance_row_shape :
  geo_shape Nsteps n
    (set_Distance_ob_row k
       (ra_distance_ob (avoidance_call k (St.Xob s) (St.Yob s) (St.t s) s')) (St.geo s)).
Proof.
  apply set_Distance_ob_row_shape; [exact shaped|].
  unfold avoidance_call. rewrite ra_distance_ob_length; rewrite !length_map; lia.
Qed.

Lemma step_shape : geo_shape Nsteps n (St.geo s').
Proof.
  rewrite (sf_geo _ _ _ _ _ _ _ _ facts).
  apply risk_analysis_shape, step_distance_row_shape.
Qed.

(** Row 0 of every array but [Risk] and [Distance_ob] survives the iteration. *)
Lemma step_first_rows (f : geo_field) :
  f <> F_Risk -> f <> F_Distance_ob ->
  geo_get f (St.geo s') !!! 0%nat = geo_get f (St.geo s) !!! 0%nat.
Proof.
  intros HfR HfD. destruct (decide (k = 0)%nat) as [Hk|Hk].
  - rewrite (sf_geo _ _ _ _ _ _ _ _ facts). rewrite Hk.
    destruct (set_Distance_ob_row_frame 0 f
                (ra_distance_ob (avoidance_call 0 (St.Xob s) (St.Yob s) (St.t s) s'))
                (St.geo s)) as (_ & _ & Heq).
    destruct animated.
    + rewrite risk_analysis_animated_step0 by assumption. now rewrite Heq.
    + rewrite risk_analysis_plain_step0. now rewrite Heq.
  - apply (step_geo_frame _ _ _ _ _ _ _ _ facts). lia.
Qed.

Lemma step_first_row_untouched :
  first_row_untouched n (St.geo s) -> first_row_untouched n (St.geo s').
Proof.
  unfold first_row_untouched. intros (HD & HT & HV & Ha & Hp).
  pose proof (step_first_rows F_DCPA ltac:(discriminate) ltac:(discriminate)) as ED.
  pose proof (step_first_rows F_TCPA ltac:(discriminate) ltac:(discriminate)) as ET.
  pose proof (step_first_rows F_Vrel ltac:(discriminate) ltac:(discriminate)) as EV.
  pose proof (step_first_rows F_alpha ltac:(discriminate) ltac:(discriminate)) as Ea.
  pose proof (step_first_rows F_psi_Vrel ltac:(discriminate) ltac:(discriminate)) as Ep.
  cbn [geo_get] in *. rewrite ED, ET, EV, Ea, Ep. tauto.
Qed.

(** Entries recorded in earlier iterations survive. *)
Lemma step_recorded_frame (i j : nat) :
  (1 <= i < k)%nat ->
  finite_difference_recorded C args s i j -> finite_difference_recorded C args s' i j.
Proof.
  intros Hi. unfold finite_difference_recorded, finite_difference_cpa, get2.
  rewrite (sf_x _ _ _ _ _ _ _ _ facts), (sf_y _ _ _ _ _ _ _ _ facts),
          (sf_Xobs _ _ _ _ _ _ _ _ facts), (sf_Yobs _ _ _ _ _ _ _ _ facts).
  rewrite !list_lookup_total_insert_ne by lia.
  pose proof (step_geo_frame _ _ _ _ _ _ _ _ facts F_DCPA i ltac:(lia)) as ED.
  pose proof (step_geo_frame _ _ _ _ _ _ _ _ facts F_TCPA i ltac:(lia)) as ET.
  pose proof (step_geo_frame _ _ _ _ _ _ _ _ facts F_Vrel i ltac:(lia)) as EV.
  pose proof (step_geo_frame _ _ _ _ _ _ _ _ facts F_alpha i ltac:(lia)) as Ea.
  pose proof (step_geo_frame _ _ _ _ _ _ _ _ facts F_psi_Vrel i ltac:(lia)) as Ep.
  cbn [geo_get] in *. rewrite ED, ET, EV, Ea, Ep. tauto.
Qed.

(** From step 1 on, the iteration records the finite-difference geometry
    of every obstacle. *)
Lemma step_records (j : nat) :
  (1 <= k)%nat -> (j < n)%nat -> finite_difference_recorded C args s' k j.
Proof.
  intros Hk Hj. unfold finite_difference_recorded, finite_difference_cpa.
  rewrite (sf_geo _ _ _ _ _ _ _ _ facts).
  apply risk_analysis_cpa; [exact Hk | apply NoDup_seq | | ].
  - apply elem_of_seq. destruct step_obstacles. lia.
  - intros f. destruct (step_distance_row_shape f) as [Hlen Hrows].
    split; [lia|]. intros j' Hj'. apply elem_of_seq in Hj'.
    rewrite Hrows by assumption. destruct step_obstacles. lia.
Qed.

(** Row 0 of [Risk]: the branch without animation never writes it. *)
Lemma step_first_row_risk_plain :
  animated = false -> Risk (St.geo s') !!! 0%nat = Risk (St.geo s) !!! 0%nat.
Proof.
  intros Hplain. destruct (decide (k = 0)%nat) as [Hk|Hk].
  - rewrite (sf_geo _ _ _ _ _ _ _ _ facts). rewrite Hk, Hplain.
    rewrite risk_analysis_plain_step0. reflexivity.
  - apply (step_geo_frame _ _ _ _ _ _ _ _ facts F_Risk). lia.
Qed.

(** Row 0 of [Risk]: the animated branch fills it in the first iteration,
    from the initial fill values of [DCPA], [TCPA] and [Vrel]. *)
Lemma step_first_row_risk_animated (j : nat) :
  animated = true -> k = 0%nat -> (j < n)%nat ->
  first_row_untouched n (St.geo s) ->
  get2 (Risk (St.geo s')) 0 j
  = risk_calculations C 1000 1000 (get2 (Distance_ob (St.geo s')) 0 j) 0.
Proof.
  intros Hanim Hk Hj (HD & HT & HV & _).
  pose proof step_obstacles as [HX' _].
  pose proof step_distance_row_shape as Hg0.
  rewrite (sf_geo _ _ _ _ _ _ _ _ facts). rewrite Hk in *. rewrite Hanim.
  rewrite (risk_analysis_animated_step0 _ _ _ _ _ _ _ _ _ _ F_Distance_ob)
    by discriminate.
  rewrite risk_analysis_animated_step0_risk.
  - cbn [set_Distance_ob_row DCPA TCPA Vrel Distance_ob geo_get]. unfold get2 at 1 2 4.
    rewrite HD, HT, HV. unfold zeros. rewrite !repeat_lookup_total by assumption.
    reflexivity.
  - apply NoDup_seq.
  - apply elem_of_seq. lia.
  - destruct (Hg0 F_Risk) as [Hlen _]. cbn [geo_get] in Hlen. lia.
  - intros j' Hj'. apply elem_of_seq in Hj'.
    destruct (Hg0 F_Risk) as [_ Hrows]. cbn [geo_get] in Hrows.
    rewrite Hrows by lia. lia.
Qed.

Lemma step_first_row_risk_frame (j : nat) :
  (1 <= k)%nat ->
  get2 (Risk (St.geo s)) 0 j
  = risk_calculations C 1000 1000 (get2 (Distance_ob (St.geo s)) 0 j) 0 ->
  get2 (Risk (St.geo s')) 0 j
  = risk_calculations C 1000 1000 (get2 (Distance_ob (St.geo s')) 0 j) 0.
Proof.
  intros Hk Hrec. unfold get2 in *.
  pose proof (step_geo_frame _ _ _ _ _ _ _ _ facts F_Risk 0 ltac:(lia)) as ER.
  pose proof (step_geo_frame _ _ _ _ _ _ _ _ facts F_Distance_ob 0 ltac:(lia)) as ED.
  cbn [geo_get] in *. rewrite ER, ED. exact Hrec.
Qed.

End OneStep.

(** The invariant of the loop on the geometry arrays. *)
Lemma loop_geometry (s0 sf : St.Sim) :
  length (St.Xob s0) = n -> length (St.Yob s0) = n ->
  geo_shape Nsteps n (St.geo s0) ->
  ((0 < Nsteps)%nat -> first_row_untouched n (St.geo s0) /\
                       Risk (St.geo s0) !!! 0%nat = zeros n) ->
  for_each (loop_body C H args sc animated) (seq 0 Nsteps) s0 = Returns sf ->
  geo_shape Nsteps n (St.geo sf) /\
  ((0 < Nsteps)%nat -> first_row_untouched n (St.geo sf)) /\
  (forall i j, (1 <= i < Nsteps)%nat -> (j < n)%nat ->
               finite_difference_recorded C args sf i j) /\
  ((0 < Nsteps)%nat -> first_row_risk C animated n (St.geo sf)).
Proof.
  intros HX0 HY0 Hg0 Hrow0 Hrun.
  pose (Inv := fun (k : nat) (s : St.Sim) =>
    (length (St.Xob s) = n /\ length (St.Yob s) = n /\ geo_shape Nsteps n (St.geo s)) /\
    ((0 < Nsteps)%nat -> first_row_untouched n (St.geo s)) /\
    (forall i j, (1 <= i < k)%nat -> (j < n)%nat -> finite_difference_recorded C args s i j) /\
    ((0 < Nsteps)%nat -> animated = false -> Risk (St.geo s) !!! 0%nat = zeros n) /\
    ((1 <= k)%nat -> animated = true -> forall j, (j < n)%nat ->
       get2 (Risk (St.geo s)) 0 j
       = risk_calculations C 1000 1000 (get2 (Distance_ob (St.geo s)) 0 j) 0)).
  assert (Hfinal : Inv Nsteps sf).
  { apply (for_each_seq_invariant (loop_body C H args sc animated) Inv Nsteps)
      with (s0 := s0); [| |exact Hrun].
    - clear s0 sf HX0 HY0 Hg0 Hrow0 Hrun.
      intros k s s' Hk ((HX & HY & Hg) & Hrow & Hrec & Hplain & Hanim) Hstep.
      apply loop_body_facts in Hstep as Hf.
      split; [|split; [|split; [|split]]].
      + assert (Hobs : length (St.Xob s') = n /\ length (St.Yob s') = n)
          by (eapply (step_obstacles k s s'); eassumption).
        destruct Hobs. split; [assumption|]. split; [assumption|].
        eapply (step_shape k s s'); eassumption.
      + intros HN. eapply (step_first_row_untouched k s s'); try eassumption.
        now apply Hrow.
      + intros i j Hi Hj. destruct (decide (i = k)) as [->|Hne].
        * eapply (step_records k s s'); try eassumption. lia.
        * eapply (step_recorded_frame k s s'); try eassumption; [lia|].
          apply Hrec; [lia|assumption].
      + intros HN Hp. erewrite (step_first_row_risk_plain k s s'); try eassumption.
        now apply Hplain.
      + intros _ Ha j Hj. destruct (decide (k = 0)%nat) as [Hk0|Hk0].
        * eapply (step_first_row_risk_animated k s s'); try eassumption.
          apply Hrow. lia.
        * eapply (step_first_row_risk_frame k s s'); try eassumption; [lia|].
          apply Hanim; [lia|assumption|assumption].
    - split; [tauto|]. split; [tauto|]. split; [intros; lia|].
      split; [tauto|]. intros; lia. }
  destruct Hfinal as ((_ & _ & Hg) & Hrow & Hrec & Hplain & Hanim).
  split; [exact Hg|]. split; [exact Hrow|]. split; [exact Hrec|].
  intros HN. unfold first_row_risk. destruct animated.
  - apply Hanim; [lia|reflexivity].
  - now apply Hplain.
Qed.

End Geometry.

(** ** The geometry arrays of a whole run *)

Lemma loop_x_length (C : Components) (H : Hook) (args : Args) (sc : Scenario)
    (animated : bool) (n : nat) (s0 sf : St.Sim) :
  for_each (loop_body C H args sc animated) (seq 0 n) s0 = Returns sf ->
  length (St.x sf) = length (St.x s0).
Proof.
  apply (for_each_seq_invariant (loop_body C H args sc animated)
           (fun _ s => length (St.x s) = length (St.x s0)) n); [|reflexivity].
  intros k s s' _ Hlen Hstep. apply loop_body_facts in Hstep as Hf.
  rewrite (sf_x _ _ _ _ _ _ _ _ Hf), length_insert. exact Hlen.
Qed.

Lemma simulate_geometry (C : Components) (H : Hook) (args : Args) (sf : St.Sim) :
  shape_preserving C ->
  simulate C H args = Returns sf ->
  let n := length (get_obstacles (case_number args)) in
  let Nsteps := length (St.x sf) in
  (1 <= n)%nat /\
  IZR (Z.of_nat Nsteps) = IZR (py_round (sim_time args / dt args)) /\
  geo_shape Nsteps n (St.geo sf) /\
  ((0 < Nsteps)%nat -> first_row_untouched n (St.geo sf)) /\
  (forall i j, (1 <= i < Nsteps)%nat -> (j < n)%nat ->
               finite_difference_recorded C args sf i j) /\
  ((0 < Nsteps)%nat -> first_row_risk C (negb (no_animation args)) n (St.geo sf)).
Proof.
  intros Hshape Hrun n Nsteps.
  apply simulate_returns in Hrun as (sc & Hsetup & HVob & Hpsiob & Hne & Hloop).
  cbv zeta in *.
  apply setup_returns in Hsetup as (_ & _ & _ & _ & HN). cbn [fst] in HN.
  pose proof (loop_x_length _ _ _ _ _ _ _ _ Hloop) as Hx.
  destruct (initial_state_lengths (N sc)
              (map (fun o : obstacle => o.1.1) (get_obstacles (case_number args)))
              (map (fun o : obstacle => o.1.2) (get_obstacles (case_number args))))
    as (Hx0 & _).
  rewrite Hx0 in Hx. subst Nsteps. rewrite Hx.
  split; [subst n; destruct (get_obstacles (case_number args)); [congruence|cbn; lia]|].
  split; [exact HN|].
  apply (loop_geometry C H args sc (negb (no_animation args)) (N sc) n Hshape) with
    (s0 := initial_state (N sc)
             (map (fun o : obstacle => o.1.1) (get_obstacles (case_number args)))
             (map (fun o : obstacle => o.1.2) (get_obstacles (case_number args)))).
  - rewrite HVob. apply repeat_length.
  - rewrite Hpsiob. apply length_map.
  - cbn. apply length_map.
  - cbn. apply length_map.
  - apply initial_state_shape. apply length_map.
  - intros HNpos. apply initial_state_first_row; [apply length_map | exact HNpos].
  - exact Hloop.
Qed.

(** ** Concrete runs *)

Lemma still_components_shape : shape_preserving still_components.
Proof.
  intros Xob Yob Vob psiob dt HY HV Hpsi.
  cbn [obstacle_sim still_components]. unfold straight_line_obstacles.
  rewrite !length_zip_with. lia.
Qed.

Lemma animate_obstacle_returns (Vob : list R) (step j : nat) :
  (j < 3)%nat -> animate_obstacle Vob step j = Returns tt.
Proof.
  intros Hj. unfold animate_obstacle.
  repeat case_bool_decide; try reflexivity. lia.
Qed.

Lemma animate_step_returns (Xob Vob : list R) (step : nat) :
  (length Xob <= 3)%nat -> animate_step Xob Vob step = Returns tt.
Proof.
  intros Hlen. unfold animate_step. case_bool_decide; [|reflexivity].
  assert (Hgen : forall js, Forall (fun j => (j < 3)%nat) js ->
            for_each (fun j _ => animate_obstacle Vob step j) js tt = Returns tt).
  { induction js as [|j js IH]; intros Hjs; [reflexivity|].
    apply Forall_cons in Hjs as [Hj Hjs]. cbn [for_each].
    rewrite animate_obstacle_returns by assumption.
    cbn [mbind outcome_bind bind]. now apply IH. }
  apply Hgen. apply Forall_forall. intros j Hj. apply elem_of_seq in Hj. lia.
Qed.

Lemma step_animated_total (C : Components) (H : Hook) (args : Args) (sc : Scenario)
    (i : nat) (s : St.Sim) :
  (LLM_AVAILABLE H = true ->
   forall k, exists itp, COLREGSInterpreter H k (llm_provider args) = Returns itp) ->
  (length (St.Xob s) <= 3)%nat ->
  exists s', step_animated C H args sc i s = Returns s'.
Proof.
  intros Hok Hlen. unfold step_animated. cbv zeta.
  match goal with
  | |- context [llm_block ?h ?a ?k ?r ?d ?b ?dc ?tc ?kd] =>
      destruct (llm_block_returns h a k r d b dc tc kd Hok) as [Kdir' ->]
  end.
  cbn [mbind outcome_bind bind].
  rewrite animate_step_returns by (rewrite length_map; exact Hlen).
  eexists. reflexivity.
Qed.

(** A run returns whenever the set-up does, the construction of the
    interpreter never raises, and the scenario has at most three obstacles. *)
Lemma simulate_total (C : Components) (H : Hook) (args : Args) (init : Scenario * St.Sim) :
  shape_preserving C ->
  setup args = Returns init ->
  (LLM_AVAILABLE H = true ->
   forall k, exists itp, COLREGSInterpreter H k (llm_provider args) = Returns itp) ->
  (length (get_obstacles (case_number args)) <= 3)%nat ->
  exists sf, simulate C H args = Returns sf.
Proof.
  intros Hshape Hsetup Hok Hn. unfold simulate. rewrite Hsetup.
  cbn [mbind outcome_bind bind]. rewrite main_loop_body.
  destruct init as [sc s0].
  apply setup_returns in Hsetup as (Hs0 & HVob & Hpsiob & _). cbn [fst snd] in *.
  set (n := length (get_obstacles (case_number args))) in *.
  apply (for_each_total_on _ (fun s => length (St.Xob s) = n /\ length (St.Yob s) = n)).
  - intros i s [HX HY].
    assert (Hret : exists s', loop_body C H args sc (negb (no_animation args)) i s = Returns s').
    { unfold loop_body. destruct (negb (no_animation args)).
      - apply step_animated_total; [assumption|lia].
      - now apply step_plain_total. }
    destruct Hret as [s' Hs']. exists s'. split; [exact Hs'|].
    apply loop_body_facts in Hs' as Hf.
    eapply (step_obstacles C H args sc _ n Hshape); try eassumption.
    + rewrite HVob. apply repeat_length.
    + rewrite Hpsiob. apply length_map.
  - subst s0. cbn. rewrite !length_map. split; reflexivity.
Qed.

Lemma ra_bearing_ob_length (x_ob y_ob : list R) (x y psi t : R) :
  length y_ob = length x_ob ->
  length (ra_bearing_ob (reactive_avoidance x_ob y_ob x y psi t)) = length x_ob.
Proof.
  intros Hlen. unfold reactive_avoidance, ra_bearing_ob.
  rewrite length_map, length_zip_with, !length_map. lia.
Qed.

(** Every row of [Bearing_ob] has one entry per obstacle. *)
Lemma simulate_bearing_shape (C : Components) (H : Hook) (args : Args) (sf : St.Sim) :
  shape_preserving C ->
  simulate C H args = Returns sf ->
  forall r, (r < length (St.x sf))%nat ->
            length (St.Bearing_ob sf !!! r) = length (get_obstacles (case_number args)).
Proof.
  intros Hshape Hrun.
  apply simulate_returns in Hrun as (sc & _ & HVob & Hpsiob & _ & Hloop). cbv zeta in *.
  pose proof (loop_x_length _ _ _ _ _ _ _ _ Hloop) as Hx.
  set (n := length (get_obstacles (case_number args))) in *.
  set (s0 := initial_state (N sc) _ _) in *.
  assert (Hx0 : length (St.x s0) = N sc) by apply initial_state_lengths.
  rewrite Hx, Hx0.
  assert (Hfinal : (length (St.Xob sf) = n /\ length (St.Yob sf) = n) /\
                   length (St.Bearing_ob sf) = N sc /\
                   forall r, (r < N sc)%nat -> length (St.Bearing_ob sf !!! r) = n).
  { apply (for_each_seq_invariant (loop_body C H args sc (negb (no_animation args)))
             (fun _ s => (length (St.Xob s) = n /\ length (St.Yob s) = n) /\
                         length (St.Bearing_ob s) = N sc /\
                         forall r, (r < N sc)%nat -> length (St.Bearing_ob s !!! r) = n)
             (N sc)) with (s0 := s0); [| |exact Hloop].
    - intros k s s' Hk ([HX HY] & HB & Hrows) Hstep.
      apply loop_body_facts in Hstep as Hf.
      split.
      + eapply (step_obstacles C H args sc _ n Hshape); try eassumption.
        * rewrite HVob. apply repeat_length.
        * rewrite Hpsiob. apply length_map.
      + rewrite (sf_Bearing_ob _ _ _ _ _ _ _ _ Hf), length_insert. split; [exact HB|].
        intros r Hr. destruct (decide (r = k)) as [->|Hne].
        * rewrite list_lookup_total_insert_eq by lia.
          unfold avoidance_call. rewrite ra_bearing_ob_length; rewrite !length_map; lia.
        * rewrite list_lookup_total_insert_ne by congruence. now apply Hrows.
    - subst s0. cbn. rewrite !length_map, zeros2_length. repeat split.
      intros r Hr. rewrite zeros2_row by assumption. apply repeat_length. }
  apply Hfinal.
Qed.

Lemma vessel_states_nonempty (risk distance bearing dcpa tcpa : list R) :
  (1 <= length risk)%nat -> (1 <= length distance)%nat -> (1 <= length bearing)%nat ->
  (1 <= length dcpa)%nat -> (1 <= length tcpa)%nat ->
  vessel_states risk distance bearing dcpa tcpa <> [].
Proof.
  destruct risk, distance, bearing, dcpa, tcpa; cbn; intros; try lia; discriminate.
Qed.

Lemma short_run_returns (H : Hook) (v : bool) :
  (LLM_AVAILABLE H = true ->
   forall k, exists itp, COLREGSInterpreter H k None = Returns itp) ->
  exists sf, simulate still_components H (with_no_animation v short_run_args) = Returns sf.
Proof.
  intros Hok. destruct short_run_setup as (init & Hinit & _).
  apply (simulate_total still_components H _ init).
  - exact still_components_shape.
  - exact Hinit.
  - exact Hok.
  - cbn [case_number with_no_animation short_run_args]. rewrite case_1_obstacles. cbn. lia.
Qed.

Lemma short_run_final (H : Hook) (v : bool) :
  (LLM_AVAILABLE H = true ->
   forall k, exists itp, COLREGSInterpreter H k None = Returns itp) ->
  simulate still_components H (with_no_animation v short_run_args)
  = Returns (final_state (simulate still_components H (with_no_animation v short_run_args))).
Proof. intros Hok. destruct (short_run_returns H v Hok) as [sf ->]. reflexivity. Qed.

Lemma short_run_final_plain (H : Hook) :
  (LLM_AVAILABLE H = true ->
   forall k, exists itp, COLREGSInterpreter H k None = Returns itp) ->
  simulate still_components H short_run_args
  = Returns (final_state (simulate still_components H short_run_args)).
Proof. exact (short_run_final H true). Qed.

Lemma short_run_final_animated (H : Hook) :
  (LLM_AVAILABLE H = true ->
   forall k, exists itp, COLREGSInterpreter H k None = Returns itp) ->
  simulate still_components H short_animated_args
  = Returns (final_state (simulate still_components H short_animated_args)).
Proof. exact (short_run_final H false). Qed.

Lemma short_run_steps (H : Hook) (v : bool) (sf : St.Sim) :
  simulate still_components H (with_no_animation v short_run_args) = Returns sf ->
  length (St.x sf) = 2%nat /\ length (St.Kdir sf) = 2%nat /\ length (St.psi_p sf) = 2%nat.
Proof.
  intros Hrun.
  apply simulate_returns in Hrun as (sc & Hsetup & _ & _ & _ & Hloop). cbv zeta in *.
  apply setup_returns in Hsetup as (_ & _ & _ & _ & HN).
  cbn [fst with_no_animation short_run_args sim_time dt] in HN.
  replace (2 / 1) with (IZR 2) in HN by field. rewrite py_round_IZR in HN.
  apply eq_IZR in HN.
  pose proof (loop_x_length _ _ _ _ _ _ _ _ Hloop) as Hx.
  match type of Hloop with
  | for_each _ _ (initial_state ?n ?Xob ?Yob) = _ =>
      destruct (initial_state_lengths n Xob Yob) as (Hx0 & _ & HK & Hp & Hwp & Hoa & Hones)
  end.
  destruct (loop_heading _ _ _ _ _ (N sc) _ sf HK Hp Hwp Hoa Hones Hloop) as ((HKf & Hpf) & _).
  rewrite Hx, Hx0, HKf, Hpf. repeat split; lia.
Qed.

(** In the short run the hook is asked about one vessel at step 0. *)
Lemma short_run_vessels (H : Hook) (sf : St.Sim) :
  simulate still_components H short_run_args = Returns sf ->
  vessel_states (Risk (St.geo sf) !!! 0%nat) (Distance_ob (St.geo sf) !!! 0%nat)
    (St.Bearing_ob sf !!! 0%nat) (DCPA (St.geo sf) !!! 0%nat) (TCPA (St.geo sf) !!! 0%nat)
  <> [].
Proof.
  intros Hrun.
  destruct (short_run_steps H true sf Hrun) as (Hx & _).
  pose proof (simulate_bearing_shape _ _ _ _ still_components_shape Hrun 0%nat) as HB.
  destruct (simulate_geometry _ _ _ _ still_components_shape Hrun) as (_ & _ & Hg & _).
  cbv zeta in *. rewrite Hx in *.
  cbn [case_number short_run_args] in *. rewrite case_1_obstacles in *. cbn [length] in *.
  apply vessel_states_nonempty.
  - destruct (Hg F_Risk) as [_ Hr]. cbn [geo_get] in Hr. rewrite Hr; lia.
  - destruct (Hg F_Distance_ob) as [_ Hr]. cbn [geo_get] in Hr. rewrite Hr; lia.
  - rewrite HB; lia.
  - destruct (Hg F_DCPA) as [_ Hr]. cbn [geo_get] in Hr. rewrite Hr; lia.
  - destruct (Hg F_TCPA) as [_ Hr]. cbn [geo_get] in Hr. rewrite Hr; lia.
Qed.

Lemma short_run_decision_step (H : Hook) :
  LLM_AVAILABLE H = true -> decision_step H short_run_args 0.
Proof. intros Hav. split; [reflexivity|]. split; [exact Hav|reflexivity]. Qed.

Lemma answering_hook_answers (answer : string) :
  LLM_AVAILABLE (answering_hook answer) = true ->
  forall k, exists itp, COLREGSInterpreter (answering_hook answer) k None = Returns itp.
Proof. intros _ k. eexists. reflexivity. Qed.

Lemma keyless_hook_answers :
  LLM_AVAILABLE keyless_hook = true ->
  forall k, exists itp, COLREGSInterpreter keyless_hook k None = Returns itp.
Proof. intros _ k. eexists. reflexivity. Qed.

Lemma absent_hook_answers :
  LLM_AVAILABLE absent_hook = true ->
  forall k, exists itp, COLREGSInterpreter absent_hook k None = Returns itp.
Proof. discriminate. Qed.

Lemma directive_never_applied_witness :
  let sf := final_state (simulate still_components
                           (answering_hook "Give-way, turn to port") short_run_args) in
  St.psi_p sf !!! 0%nat = St.psi_wp sf !!! 0%nat + 1 * St.psi_oa sf !!! 0%nat /\
  St.Kdir sf !!! 0%nat = -1.
Proof.
  intros sf.
  pose proof (short_run_final _ true (answering_hook_answers "Give-way, turn to port"))
    as Hrun.
  change (simulate still_components (answering_hook "Give-way, turn to port")
            short_run_args = Returns sf) in Hrun.
  clearbody sf.
  destruct (short_run_steps _ true sf Hrun) as (_ & HK & Hp).
  destruct (directive_never_applied _ _ _ sf Hrun) as [Hhead Hrec].
  split; [apply Hhead; lia|].
  destruct (Hrec 0%nat ltac:(lia)
              (short_run_decision_step (answering_hook "Give-way, turn to port") eq_refl))
    as (decision & Hcolm & Hkdir).
  rewrite Hkdir. unfold run_colm in Hcolm. cbn in Hcolm.
  pose proof (short_run_vessels _ sf Hrun) as Hv.
  destruct (vessel_states _ _ _ _ _) as [|vessel vessels]; [congruence|].
  injection Hcolm as <-. vm_compute. lra.
Defined.

(** ** When the hook fails *)

Lemma simulate_hook_raises (C : Components) (H : Hook) (args : Args) (i : nat) (e : exn) :
  decision_step H args i ->
  (Z.of_nat i < py_round (sim_time args / dt args))%Z ->
  COLREGSInterpreter H i (llm_provider args) = Raises e ->
  exists e', simulate C H args = Raises e'.
Proof.
  intros Hd Hi Hraise. unfold simulate.
  destruct (setup args) as [[sc s0]|e0] eqn:Hsetup; [|exists e0; reflexivity].
  cbn [mbind outcome_bind bind fst snd]. rewrite main_loop_body.
  apply setup_returns in Hsetup as (Hs0 & _ & _ & _ & HN). cbn [fst snd] in *.
  apply eq_IZR in HN. subst s0.
  match goal with
  | |- context [length (St.x (initial_state ?n ?Xob ?Yob))] =>
      destruct (initial_state_lengths n Xob Yob) as (-> & _)
  end.
  apply (for_each_seq_raises _ (N sc) i); [lia|].
  intros s. exists e. now apply loop_body_raises.
Qed.

Lemma simulate_unavailable (C : Components) (H : Hook) (args : Args) (sf : St.Sim) (i : nat) :
  LLM_AVAILABLE H = false ->
  simulate C H args = Returns sf ->
  (i < length (St.Kdir sf))%nat -> St.Kdir sf !!! i = 1.
Proof.
  intros Hav Hrun Hi.
  destruct (simulate_heading C H args sf Hrun) as [_ Hrec].
  apply Hrec; [exact Hi|]. intros (_ & Habs & _). congruence.
Qed.

(** C1, as the code has it: when the interpreter could not be imported the
    hook is never asked and [Kdir] keeps the value 1 at every step; an answer
    that names neither starboard nor port is mapped to the directive 0, and 0
    is what the decision step stores in [Kdir]; an exception raised by the
    hook is not caught and ends the run. *)
Theorem hook_fallback (C : Components) (H : Hook) (args : Args) :
  (LLM_AVAILABLE H = false ->
   forall sf i, simulate C H args = Returns sf ->
                (i < length (St.Kdir sf))%nat -> St.Kdir sf !!! i = 1) /\
  (forall sf i, simulate C H args = Returns sf ->
     (i < length (St.Kdir sf))%nat -> decision_step H args i ->
     exists decision,
       run_colm H i (Risk (St.geo sf) !!! i) (Distance_ob (St.geo sf) !!! i)
         (St.Bearing_ob sf !!! i) (DCPA (St.geo sf) !!! i) (TCPA (St.geo sf) !!! i)
         0 (llm_provider args) = Returns decision /\
       (contains "starboard" (lower decision) = false ->
        contains "port" (lower decision) = false ->
        extract_kdir_from_response decision = 0%Z /\ St.Kdir sf !!! i = 0)) /\
  (forall i e, decision_step H args i ->
     (Z.of_nat i < py_round (sim_time args / dt args))%Z ->
     COLREGSInterpreter H i (llm_provider args) = Raises e ->
     exists e', simulate C H args = Raises e').
Proof.
  split; [|split].
  - intros Hav sf i Hrun Hi. now apply (simulate_unavailable C H args sf i).
  - intros sf i Hrun Hi Hd.
    destruct (simulate_heading C H args sf Hrun) as [_ Hrec].
    destruct (Hrec i Hi) as [Hdec _]. destruct (Hdec Hd) as (decision & Hcolm & Hkdir).
    exists decision. split; [exact Hcolm|]. intros Hs Hp.
    pose proof (extract_kdir_unrecognized decision Hs Hp) as Hzero.
    split; [exact Hzero|]. rewrite Hkdir, Hzero. reflexivity.
  - intros i e. apply simulate_hook_raises.
Qed.

Lemma short_run_horizon : (Z.of_nat 0 < py_round (sim_time short_run_args / dt short_run_args))%Z.
Proof.
  cbn [sim_time dt short_run_args]. replace (2 / 1) with (IZR 2) by field.
  rewrite py_round_IZR. lia.
Qed.

Lemma hook_fallback_witness :
  St.Kdir (final_state (simulate still_components absent_hook short_run_args)) !!! 0%nat = 1 /\
  St.Kdir (final_state (simulate still_components keyless_hook short_run_args)) !!! 0%nat = 0 /\
  exists e', simulate still_components raising_hook short_run_args = Raises e'.
Proof.
  split; [|split].
  - pose proof (short_run_final_plain _ absent_hook_answers) as Hrun.
    destruct (short_run_steps _ true _ Hrun) as (_ & HK & _).
    destruct (hook_fallback still_components absent_hook short_run_args) as (Hun & _ & _).
    apply (Hun eq_refl _ 0%nat Hrun). rewrite HK. lia.
  - pose proof (short_run_final_plain _ keyless_hook_answers) as Hrun.
    destruct (short_run_steps _ true _ Hrun) as (_ & HK & _).
    destruct (hook_fallback still_components keyless_hook short_run_args) as (_ & Hrec & _).
    destruct (Hrec _ 0%nat Hrun ltac:(rewrite HK; lia)
                (short_run_decision_step keyless_hook eq_refl))
      as (decision & Hcolm & Hzero).
    unfold run_colm in Hcolm. cbn [LLM_AVAILABLE keyless_hook negb COLREGSInterpreter
                                   mbind outcome_bind bind make_decision provider] in Hcolm.
    injection Hcolm as <-. apply Hzero; vm_compute; reflexivity.
  - destruct (hook_fallback still_components raising_hook short_run_args) as (_ & _ & Hraise).
    apply (Hraise 0%nat (HookError "connection refused")).
    + exact (short_run_decision_step raising_hook eq_refl).
    + exact short_run_horizon.
    + reflexivity.
Defined.

(** C1 refuted as stated: with an interpreter that has no provider the
    answer is not recognized and the decision step stores 0, not 1; with a
    hook that raises, the run ends with that exception. *)
Lemma fallback_is_not_noop :
  extract_kdir_from_response "No LLM provider available" = 0%Z /\
  St.Kdir (final_state (simulate still_components keyless_hook short_run_args)) !!! 0%nat = 0 /\
  St.Kdir (final_state (simulate still_components keyless_hook short_run_args)) !!! 0%nat <> 1 /\
  simulate still_components raising_hook short_run_args
  = Raises (HookError "connection refused").
Proof.
  assert (Hzero : St.Kdir (final_state (simulate still_components keyless_hook short_run_args))
                    !!! 0%nat = 0).
  { pose proof (short_run_final_plain _ keyless_hook_answers) as Hrun.
    destruct (short_run_steps _ true _ Hrun) as (_ & HK & _).
    destruct (simulate_heading _ _ _ _ Hrun) as [_ Hrec].
    destruct (Hrec 0%nat ltac:(rewrite HK; lia)) as [Hdec _].
    destruct (Hdec (short_run_decision_step keyless_hook eq_refl))
      as (decision & Hcolm & Hkdir).
    unfold run_colm in Hcolm. cbn [LLM_AVAILABLE keyless_hook negb COLREGSInterpreter
                                   mbind outcome_bind bind make_decision provider] in Hcolm.
    injection Hcolm as <-. rewrite Hkdir. vm_compute. reflexivity. }
  split; [vm_compute; reflexivity|]. split; [exact Hzero|]. split; [rewrite Hzero; lra|].
  unfold simulate. destruct short_run_setup as ([sc s0] & Hsetup & HN). rewrite Hsetup.
  cbn [mbind outcome_bind bind fst snd] in *. rewrite main_loop_body.
  apply setup_returns in Hsetup as (Hs0 & _). cbn [fst snd] in Hs0. subst s0.
  match goal with
  | |- context [length (St.x (initial_state ?n ?Xob ?Yob))] =>
      destruct (initial_state_lengths n Xob Yob) as (-> & _)
  end.
  rewrite HN. cbn [seq for_each].
  rewrite (loop_body_raises _ raising_hook short_run_args sc _ 0 _
             (HookError "connection refused")
             (short_run_decision_step raising_hook eq_refl) eq_refl).
  reflexivity.
Qed.

(** ** The finite-difference geometry *)

(** C5, as the code has it: step 0 does not compute the finite-difference
    variant; its [DCPA] and [TCPA] entries keep the value 1000 they were
    given in the set-up (the other arrays of the variant keep 0), and from
    step 1 on the entries of every obstacle hold what [cpa_calculations]
    returns for the positions recorded at steps [i] and [i - 1]. *)
Theorem first_step_fill_values (C : Components) (H : Hook) (args : Args) (sf : St.Sim) :
  shape_preserving C ->
  simulate C H args = Returns sf ->
  let n := length (get_obstacles (case_number args)) in
  let Nsteps := length (St.x sf) in
  ((0 < Nsteps)%nat ->
     DCPA (St.geo sf) !!! 0%nat = repeat 1000 n /\
     TCPA (St.geo sf) !!! 0%nat = repeat 1000 n /\
     first_row_untouched n (St.geo sf)) /\
  (forall i j, (1 <= i < Nsteps)%nat -> (j < n)%nat ->
               finite_difference_recorded C args sf i j).
Proof.
  intros Hshape Hrun n Nsteps.
  destruct (simulate_geometry C H args sf Hshape Hrun) as (_ & _ & _ & Hrow & Hrec & _).
  split; [|exact Hrec].
  intros HN. pose proof (Hrow HN) as Hu. split; [apply Hu|]. split; [apply Hu|exact Hu].
Qed.

Lemma first_step_fill_values_witness :
  let sf := final_state (simulate still_components absent_hook short_run_args) in
  DCPA (St.geo sf) !!! 0%nat = [1000] /\
  TCPA (St.geo sf) !!! 0%nat = [1000] /\
  finite_difference_recorded still_components short_run_args sf 1 0.
Proof.
  intros sf.
  pose proof (short_run_final_plain _ absent_hook_answers) as Hrun.
  change (simulate still_components absent_hook short_run_args = Returns sf) in Hrun.
  clearbody sf.
  destruct (short_run_steps _ true sf Hrun) as (Hx & _).
  destruct (first_step_fill_values _ _ _ sf still_components_shape Hrun) as [Hrow Hrec].
  cbn [case_number short_run_args] in *. rewrite case_1_obstacles, Hx in *.
  cbn [length repeat] in *.
  destruct (Hrow ltac:(lia)) as (HD & HT & _).
  split; [exact HD|]. split; [exact HT|]. apply Hrec; lia.
Defined.

(** C5 refuted as stated: after a run of case 1 the step-0 entries of
    [DCPA] and [TCPA] are 1000, not 0. *)
Lemma first_step_not_zero_filled :
  let sf := final_state (simulate still_components absent_hook short_run_args) in
  get2 (DCPA (St.geo sf)) 0 0 = 1000 /\ get2 (TCPA (St.geo sf)) 0 0 = 1000 /\
  get2 (DCPA (St.geo sf)) 0 0 <> 0 /\ get2 (TCPA (St.geo sf)) 0 0 <> 0.
Proof.
  intros sf.
  pose proof (short_run_final_plain _ absent_hook_answers) as Hrun.
  change (simulate still_components absent_hook short_run_args = Returns sf) in Hrun.
  clearbody sf.
  destruct (short_run_steps _ true sf Hrun) as (Hx & _).
  destruct (simulate_geometry _ _ _ sf still_components_shape Hrun) as (_ & _ & _ & Hrow & _).
  cbn [case_number short_run_args] in *. rewrite case_1_obstacles, Hx in *.
  destruct (Hrow ltac:(lia)) as (HD & HT & _). cbn [length repeat] in *.
  unfold get2. rewrite HD, HT.
  change ([1000] !!! 0%nat) with 1000. repeat split; lra.
Qed.

(** ** The two branches side by side *)

Lemma for_each_seq_lockstep {S : Type} (body1 body2 : nat -> S -> outcome S)
    (Rel : nat -> S -> S -> Prop) (n : nat) :
  (forall k s1 s2 s1' s2', (k < n)%nat -> Rel k s1 s2 ->
     body1 k s1 = Returns s1' -> body2 k s2 = Returns s2' -> Rel (Datatypes.S k) s1' s2') ->
  forall s1 s2 f1 f2, Rel 0%nat s1 s2 ->
    for_each body1 (seq 0 n) s1 = Returns f1 ->
    for_each body2 (seq 0 n) s2 = Returns f2 -> Rel n f1 f2.
Proof.
  intros Hstep.
  assert (Hgen : forall m a s1 s2 f1 f2, (a + m = n)%nat -> Rel a s1 s2 ->
                   for_each body1 (seq a m) s1 = Returns f1 ->
                   for_each body2 (seq a m) s2 = Returns f2 -> Rel n f1 f2).
  { induction m as [|m IH]; intros a s1 s2 f1 f2 Ham Ha H1 H2.
    - cbn in H1, H2. injection H1 as <-. injection H2 as <-.
      replace n with a by lia. exact Ha.
    - cbn [seq for_each] in H1, H2.
      destruct (body1 a s1) as [s1'|e1] eqn:Hb1; [|discriminate].
      destruct (body2 a s2) as [s2'|e2] eqn:Hb2; [|discriminate].
      apply (IH (Datatypes.S a) s1' s2' f1 f2); [lia| |exact H1|exact H2].
      apply (Hstep a s1 s2); [lia|assumption..]. }
  intros s1 s2 f1 f2. apply Hgen. lia.
Qed.

Section BranchesSideBySide.

Variable C : Components.
Variable Ts : R.
Variables x y V_x V_y : list R.
Variables Xobs Yobs Vxobs Vyobs : list (list R).



End BranchesSideBySide.




(** ** The two branches of the loop *)


(** [risk_scorer] keeps the contract of section 4.5 of the specification:
    it lies in (0, 1], it does not grow with the DCPA nor with the TCPA, and
    it is below any positive bound once the DCPA or the TCPA is large. *)
Lemma risk_scorer_contract (DCPA TCPA distance Vrel : R) :
  0 < risk_scorer DCPA TCPA distance Vrel <= 1 /\
  (forall DCPA', Rabs DCPA <= Rabs DCPA' ->
     risk_scorer DCPA' TCPA distance Vrel <= risk_scorer DCPA TCPA distance Vrel) /\
  (forall TCPA', TCPA <= TCPA' ->
     risk_scorer DCPA TCPA' distance Vrel <= risk_scorer DCPA TCPA distance Vrel) /\
  risk_scorer DCPA TCPA distance Vrel <= / (1 + Rabs DCPA) /\
  risk_scorer DCPA TCPA distance Vrel <= / (1 + Rmax 0 TCPA).
Proof.
  unfold risk_scorer.
  pose proof (Rabs_pos DCPA) as Hd. pose proof (Rmax_l 0 TCPA) as Ht.
  assert (Hprod : 1 <= (1 + Rabs DCPA) * (1 + Rmax 0 TCPA)) by nra.
  assert (Hmono : forall p q, 1 <= p -> p <= q -> / q <= / p).
  { intros p q Hp Hpq. apply Rinv_le_contravar; lra. }
  split; [|split; [|split; [|split]]].
  - split; [apply Rinv_0_lt_compat; lra|].
    rewrite <- Rinv_1. apply Hmono; lra.
  - intros DCPA' Hle. apply Hmono; [exact Hprod|]. nra.
  - intros TCPA' Hle. apply Hmono; [exact Hprod|].
    assert (Rmax 0 TCPA <= Rmax 0 TCPA') by (apply Rle_max_compat_l; exact Hle). nra.
  - apply Hmono; [lra|nra].
  - apply Hmono; [lra|nra].
Qed.





(** ** A step without obstacles *)





(** * Further properties of the code *)

(** ** The keyword scan of [extract_kdir_from_response] *)

Lemma lower_ascii_idempotent (c : ascii) : lower_ascii (lower_ascii c) = lower_ascii c.
Proof. destruct c as [[] [] [] [] [] [] [] []]; vm_compute; reflexivity. Qed.

Lemma lower_upper_ascii (c : ascii) : lower_ascii (upper_ascii c) = lower_ascii c.
Proof. destruct c as [[] [] [] [] [] [] [] []]; vm_compute; reflexivity. Qed.

Lemma lower_idempotent (s : string) : lower (lower s) = lower s.
Proof.
  induction s as [|c s IH]; cbn [lower]; [reflexivity|].
  rewrite lower_ascii_idempotent, IH. reflexivity.
Qed.

Lemma lower_upper (s : string) : lower (upper s) = lower s.
Proof.
  induction s as [|c s IH]; cbn [lower upper]; [reflexivity|].
  rewrite lower_upper_ascii, IH. reflexivity.
Qed.

Lemma lower_app (s1 s2 : string) : lower (s1 +:+ s2) = (lower s1 +:+ lower s2)%string.
Proof.
  induction s1 as [|c s1 IH]; simpl; [reflexivity|]. rewrite IH. reflexivity.
Qed.

Lemma contains_app_true (p q s : string) :
  contains q s = false -> contains (p +:+ q) s = false.
Proof.
  intros Hq. apply not_true_is_false. intros Hc.
  apply contains_app in Hc. congruence.
Qed.

(** The scan only depends on the two words "starboard" and "port". *)
Lemma extract_kdir_scan (response : string) :
  extract_kdir_from_response response
  = if contains "starboard" (lower response) then 1%Z
    else if contains "port" (lower response) then (-1)%Z else 0%Z.
Proof.
  unfold extract_kdir_from_response.
  destruct (contains "starboard" (lower response)) eqn:Hs.
  - rewrite !orb_true_r. reflexivity.
  - rewrite (contains_app_true "turn " "starboard"),
            (contains_app_true "alter course to " "starboard") by exact Hs.
    cbn [orb].
    destruct (contains "port" (lower response)) eqn:Hp.
    + rewrite !orb_true_r. reflexivity.
    + rewrite (contains_app_true "turn " "port"),
              (contains_app_true "alter course to " "port") by exact Hp.
      reflexivity.
Qed.

(** X1: the result of [extract_kdir_from_response] is decided by two words
    alone: it is 1 as soon as the lowered text contains "starboard", also
    when it contains "port" as well; else it is -1 as soon as the text
    contains "port", inside any word; else 0.  The longer phrases of the two
    tests never change the result. *)
Theorem extract_kdir_keywords (response : string) :
  (extract_kdir_from_response response = 1%Z
   <-> contains "starboard" (lower response) = true) /\
  (extract_kdir_from_response response = (-1)%Z
   <-> contains "starboard" (lower response) = false /\
       contains "port" (lower response) = true) /\
  (extract_kdir_from_response response = 0%Z
   <-> contains "starboard" (lower response) = false /\
       contains "port" (lower response) = false).
Proof.
  rewrite extract_kdir_scan.
  destruct (contains "starboard" (lower response)), (contains "port" (lower response));
    repeat split; intros; try tauto; try discriminate; try lia;
    match goal with
    | Hc : _ /\ _ |- _ => destruct Hc; discriminate
    end.
Qed.

(** X2: the scan ignores the case of the letters: a text, its lowered form
    and its uppercased form are mapped to the same directive. *)
Theorem extract_kdir_case_insensitive (response : string) :
  extract_kdir_from_response (lower response) = extract_kdir_from_response response /\
  extract_kdir_from_response (upper response) = extract_kdir_from_response response.
Proof.
  rewrite !extract_kdir_scan, lower_idempotent, lower_upper. split; reflexivity.
Qed.

(** ** The text [make_decision] hands to the scan *)

(** A word that does not contain the character [c] cannot lie across [c]. *)
Lemma prefix_split (sub a b : string) (c : ascii) :
  contains (String c EmptyString) sub = false ->
  String.prefix sub (a +:+ String c b) = String.prefix sub a.
Proof.
  revert a. induction sub as [|y sub IH]; intros a Hc.
  - destruct a; reflexivity.
  - cbn [contains String.prefix] in Hc.
    apply orb_false_iff in Hc as [Hy Hsub].
    destruct a as [|x a]; simpl.
    + destruct (ascii_dec y c) as [->|Hne]; [|reflexivity].
      destruct (ascii_dec c c); [|congruence]. destruct sub; discriminate.
    + destruct (ascii_dec y x); [|reflexivity]. apply IH, Hsub.
Qed.

Lemma contains_split (sub a b : string) (c : ascii) :
  contains (String c EmptyString) sub = false ->
  contains sub (a +:+ String c b) = contains sub a || contains sub b.
Proof.
  intros Hc. induction a as [|x a IH].
  - change (EmptyString +:+ String c b)%string with (String c b).
    cbn [contains]. rewrite <- (prefix_split sub EmptyString b c Hc).
    change (EmptyString +:+ String c b)%string with (String c b).
    now rewrite orb_false_r.
  - change (String x a +:+ String c b)%string with (String x (a +:+ String c b)).
    cbn [contains]. rewrite IH.
    rewrite <- (prefix_split sub (String x a) b c Hc).
    change (String x a +:+ String c b)%string with (String x (a +:+ String c b)).
    now rewrite orb_assoc.
Qed.

Lemma string_app_assoc (s1 s2 s3 : string) :
  ((s1 +:+ s2) +:+ s3 = s1 +:+ (s2 +:+ s3))%string.
Proof.
  induction s1 as [|c s1 IH]; [reflexivity|].
  change (String c ((s1 +:+ s2) +:+ s3) = String c (s1 +:+ (s2 +:+ s3)))%string.
  rewrite IH. reflexivity.
Qed.

(** The scan of a tagged answer [[NAME] response]. *)
Lemma contains_tagged (sub name response : string) :
  contains "[" sub = false -> contains "]" sub = false -> contains " " sub = false ->
  contains sub "" = false ->
  contains sub (lower (("[" +:+ upper name +:+ "] ") +:+ response))
  = contains sub (lower name) || contains sub (lower response).
Proof.
  intros Hopen Hclose Hspace Hne.
  rewrite !lower_app, lower_upper.
  change (lower "[") with "[". change (lower "] ") with "] ".
  change (("[" +:+ lower name +:+ "] ") +:+ lower response)%string
    with (EmptyString +:+ String "[" ((lower name +:+ "] ") +:+ lower response))%string.
  rewrite (contains_split sub _ _ _ Hopen), Hne. cbn [orb].
  rewrite string_app_assoc.
  change ("] " +:+ lower response)%string
    with (String "]" (EmptyString +:+ String " " (lower response)))%string.
  rewrite (contains_split sub _ _ _ Hclose). f_equal.
  rewrite (contains_split sub _ _ _ Hspace), Hne. reflexivity.
Qed.

(** X3: without a provider, or without vessels, [make_decision] returns a
    fixed text that the scan maps to 0.  Otherwise the scan runs over the
    tagged answer [[NAME] response], so the name of the provider takes part
    in it: the directive is 1 when the name or the answer contains
    "starboard", else -1 when either contains "port", else 0. *)
Theorem make_decision_directive (H : Hook) (self : MultiLLMCOLREGSInterpreter)
    (vessels : list VesselState) (time_idx : Z) :
  (provider self = None ->
   extract_kdir_from_response (make_decision H self vessels time_idx) = 0%Z) /\
  (vessels = [] ->
   extract_kdir_from_response (make_decision H self vessels time_idx) = 0%Z) /\
  (forall p, provider self = Some p -> vessels <> [] ->
     let response :=
       generate_response p
         (system_prompt +:+ newline +:+ newline +:+ format_situation_description H vessels) in
     extract_kdir_from_response (make_decision H self vessels time_idx)
     = if contains "starboard" (lower (provider_name self))
          || contains "starboard" (lower response) then 1%Z
       else if contains "port" (lower (provider_name self))
               || contains "port" (lower response) then (-1)%Z
       else 0%Z).
Proof.
  unfold make_decision. split; [|split].
  - intros ->. reflexivity.
  - intros ->. destruct (provider self); reflexivity.
  - intros p -> Hne. destruct vessels as [|v vs]; [congruence|].
    cbv zeta. rewrite extract_kdir_scan.
    rewrite !contains_tagged by reflexivity. reflexivity.
Qed.

Lemma make_decision_directive_witness :
  extract_kdir_from_response
    (make_decision keyless_hook {| provider_name := "openai"; provider := None |} [] 0) = 0%Z /\
  extract_kdir_from_response
    (make_decision (answering_hook "Stand on, no action")
       {| provider_name := "Portkey";
          provider := Some {| generate_response := fun _ => "Stand on, no action"%string |} |}
       [{| vs_risk := 0; vs_distance := 0; vs_bearing := 0; vs_dcpa := 0; vs_tcpa := 0 |}] 0)
  = (-1)%Z.
Proof.
  split.
  - apply (make_decision_directive keyless_hook
             {| provider_name := "openai"; provider := None |} [] 0). reflexivity.
  - refine (proj2 (proj2 (make_decision_directive (answering_hook "Stand on, no action")
             {| provider_name := "Portkey";
                provider := Some {| generate_response := fun _ => "Stand on, no action"%string |} |}
             [{| vs_risk := 0; vs_distance := 0; vs_bearing := 0; vs_dcpa := 0; vs_tcpa := 0 |}]
             0)) _ eq_refl _). discriminate.
Defined.

(** ** What the hook can and cannot change *)

Lemma for_each_ext {S : Type} (body1 body2 : nat -> S -> outcome S) (l : list nat) (s : S) :
  (forall i s, body1 i s = body2 i s) -> for_each body1 l s = for_each body2 l s.
Proof.
  intros Hext. revert s. induction l as [|i l IH]; intros s; [reflexivity|].
  cbn [for_each]. rewrite Hext. destruct (body2 i s); [apply IH|reflexivity].
Qed.

Lemma llm_block_off (H : Hook) (args : Args) (i : nat) (Ri Di Bi DCi TCi Kdir : list R) :
  llm args <> 1%Z -> llm_block H args i Ri Di Bi DCi TCi Kdir = Returns Kdir.
Proof. intros Hoff. apply llm_block_idle. intros (Hon & _). contradiction. Qed.

Lemma loop_body_off (C : Components) (H H' : Hook) (args : Args) (sc : Scenario)
    (animated : bool) (i : nat) (s : St.Sim) :
  llm args <> 1%Z ->
  loop_body C H args sc animated i s = loop_body C H' args sc animated i s.
Proof.
  intros Hoff. unfold loop_body. destruct animated.
  - unfold step_animated. cbv zeta. rewrite !(llm_block_off _ args) by exact Hoff. reflexivity.
  - unfold step_plain. cbv zeta. rewrite !(llm_block_off _ args) by exact Hoff. reflexivity.
Qed.

(** X4: when [--llm] is not 1 the hook is never consulted: the run is the
    same, exceptions included, whatever the hook would answer or raise. *)
Theorem llm_off_ignores_hook (C : Components) (H H' : Hook) (args : Args) :
  llm args <> 1%Z -> simulate C H args = simulate C H' args.
Proof.
  intros Hoff. unfold simulate. destruct (setup args) as [[sc s0]|e]; [|reflexivity].
  cbn [mbind outcome_bind bind fst snd]. rewrite !main_loop_body.
  apply for_each_ext. intros i s. now apply loop_body_off.
Qed.

Lemma llm_off_ignores_hook_witness :
  simulate still_components raising_hook (with_llm 0 short_run_args)
  = simulate still_components absent_hook (with_llm 0 short_run_args).
Proof. apply llm_off_ignores_hook. cbn. lia. Defined.

(** One iteration from two states that agree apart from [Kdir], under two
    hooks and two values of [--llm]. *)
Lemma step_hook_lockstep (C : Components) (H H' : Hook) (args : Args) (sc : Scenario)
    (animated : bool) (v w : Z) (k : nat) (sa sp sa' sp' : St.Sim) :
  without_Kdir sa = without_Kdir sp ->
  St.Kdir sa !!! k = St.Kdir sp !!! k ->
  loop_body C H (with_llm v args) sc animated k sa = Returns sa' ->
  loop_body C H' (with_llm w args) sc animated k sp = Returns sp' ->
  without_Kdir sa' = without_Kdir sp'.
Proof.
  intros Hsame HK Ha Hp.
  destruct sa as [ta Xa uia iwa Xoba Yoba timea Kdira xa ya psia ra ba ua vca upa tca taca
                  ppa pwpa poaa Vxa Vya xnmia ynmia Xobsa Yobsa Vxobsa Vyobsa Bearinga ga],
           sp as [tp Xp uip iwp Xobp Yobp timep Kdirp xp yp psip rp bp up vcp upp tcp tacp
                  ppp pwpp poap Vxp Vyp xnmip ynmip Xobsp Yobsp Vxobsp Vyobsp Bearingp gp].
  unfold without_Kdir in Hsame. cbn in Hsame, HK.
  injection Hsame as -> -> -> -> -> -> -> -> -> -> -> -> -> -> -> -> -> -> -> -> -> -> -> ->
                     -> -> -> -> -> ->.
  revert Ha Hp. unfold loop_body.
  destruct animated.
  - unfold step_animated. cbv zeta.
    cbn [St.t St.X St.ui_psi1 St.i_wpt St.Xob St.Yob St.time St.Kdir St.x St.y St.psi St.r
         St.b St.u St.v_c St.u_p St.tau_c St.tau_ac St.psi_p St.psi_wp St.psi_oa St.V_x St.V_y
         St.x_nmi St.y_nmi St.Xobs St.Yobs St.Vxobs St.Vyobs St.Bearing_ob St.geo
         with_llm dt llm llm_provider].
    rewrite HK.
    repeat match goal with
    | |- context [llm_block ?h ?a ?i ?r ?d ?b ?dc ?tc ?kd] =>
        destruct (llm_block h a i r d b dc tc kd) as [?Kdir'|?err]; [|discriminate]
    end.
    cbn [mbind outcome_bind bind].
    destruct (animate_step _ _ _) as [[]|err]; [|discriminate].
    cbn [mbind outcome_bind bind].
    intros [= <-] [= <-]. reflexivity.
  - unfold step_plain. cbv zeta.
    cbn [St.t St.X St.ui_psi1 St.i_wpt St.Xob St.Yob St.time St.Kdir St.x St.y St.psi St.r
         St.b St.u St.v_c St.u_p St.tau_c St.tau_ac St.psi_p St.psi_wp St.psi_oa St.V_x St.V_y
         St.x_nmi St.y_nmi St.Xobs St.Yobs St.Vxobs St.Vyobs St.Bearing_ob St.geo
         with_llm dt llm llm_provider].
    rewrite HK.
    repeat match goal with
    | |- context [llm_block ?h ?a ?i ?r ?d ?b ?dc ?tc ?kd] =>
        destruct (llm_block h a i r d b dc tc kd) as [?Kdir'|?err]; [|discriminate]
    end.
    cbn [mbind outcome_bind bind].
    intros [= <-] [= <-]. reflexivity.
Qed.

(** Two runs on the same arguments agree on everything but [Kdir]. *)
Lemma simulate_without_Kdir (C : Components) (H H' : Hook) (args : Args) (v w : Z)
    (sa sp : St.Sim) :
  simulate C H (with_llm v args) = Returns sa ->
  simulate C H' (with_llm w args) = Returns sp ->
  without_Kdir sa = without_Kdir sp.
Proof.
  unfold simulate.
  change (setup (with_llm v args)) with (setup args).
  change (setup (with_llm w args)) with (setup args).
  destruct (setup args) as [[sc s0]|e]; [|discriminate].
  cbn [mbind outcome_bind bind fst snd]. rewrite !main_loop_body.
  cbn [no_animation with_llm].
  intros Ha Hp.
  pose (Rel := fun (k : nat) (s1 s2 : St.Sim) =>
    without_Kdir s1 = without_Kdir s2 /\
    (forall j, (k <= j)%nat -> St.Kdir s1 !!! j = St.Kdir s2 !!! j)).
  assert (Hfinal : Rel (length (St.x s0)) sa sp).
  { apply (for_each_seq_lockstep
             (loop_body C H (with_llm v args) sc (negb (no_animation args)))
             (loop_body C H' (with_llm w args) sc (negb (no_animation args)))
             Rel (length (St.x s0)))
      with (s1 := s0) (s2 := s0); [| |exact Ha|exact Hp].
    - intros k s1 s2 s1' s2' _ (Hsame & HK) H1 H2. split.
      + exact (step_hook_lockstep C H H' args sc _ v w k s1 s2 s1' s2' Hsame
                 (HK k (le_n k)) H1 H2).
      + intros j Hj.
        pose proof (loop_body_facts _ _ _ _ _ _ _ _ H1) as Hf1.
        pose proof (loop_body_facts _ _ _ _ _ _ _ _ H2) as Hf2.
        rewrite (step_Kdir_frame _ _ _ _ _ _ _ _ Hf1) by lia.
        rewrite (step_Kdir_frame _ _ _ _ _ _ _ _ Hf2) by lia.
        apply HK. lia.
    - split; reflexivity. }
  exact (proj1 Hfinal).
Qed.

(** X5: nothing a run records, apart from [Kdir], depends on the hook or
    on [--llm]: two runs on the same arguments that both return agree on the
    trajectory, the obstacle tracks, the heading commands, the closing
    geometry and the risk. *)
Theorem hook_leaves_trajectory (C : Components) (H H' : Hook) (args : Args) (v w : Z)
    (sa sp : St.Sim) :
  simulate C H (with_llm v args) = Returns sa ->
  simulate C H' (with_llm w args) = Returns sp ->
  without_Kdir sa = without_Kdir sp.
Proof. apply simulate_without_Kdir. Qed.

Lemma short_llm_run_final (H : Hook) (v : Z) :
  (LLM_AVAILABLE H = true ->
   forall k, exists itp, COLREGSInterpreter H k None = Returns itp) ->
  simulate still_components H (with_llm v short_run_args)
  = Returns (final_state (simulate still_components H (with_llm v short_run_args))).
Proof.
  intros Hok. destruct short_run_setup as (init & Hinit & _).
  destruct (simulate_total still_components H (with_llm v short_run_args) init
              still_components_shape Hinit Hok) as [sf ->]; [|reflexivity].
  cbn [case_number with_llm short_run_args]. rewrite case_1_obstacles. cbn. lia.
Qed.

Lemma hook_leaves_trajectory_witness :
  without_Kdir (final_state (simulate still_components (answering_hook "turn to port")
                               (with_llm 1 short_run_args)))
  = without_Kdir (final_state (simulate still_components absent_hook
                                 (with_llm 0 short_run_args))).
Proof.
  apply (hook_leaves_trajectory still_components (answering_hook "turn to port") absent_hook
           short_run_args 1 0).
  - apply short_llm_run_final, answering_hook_answers.
  - apply short_llm_run_final, absent_hook_answers.
Defined.

(** X6: the two results of [run_comparison_simulation] agree on everything
    but [Kdir]: time, trajectory, heading commands, distances, DCPA, TCPA and
    risk of the run with the language model are those of the baseline, whose
    [Kdir] is 1 at every step. *)
Theorem comparison_runs_agree (C : Components) (H : Hook) (args : Args)
    (baseline_results llm_results : St.Sim) :
  run_comparison_simulation C H args = Returns (Comparison baseline_results llm_results) ->
  without_Kdir llm_results = without_Kdir baseline_results /\
  (forall i, (i < length (St.Kdir baseline_results))%nat ->
             St.Kdir baseline_results !!! i = 1).
Proof.
  unfold run_comparison_simulation.
  destruct (simulate C H (with_llm 0 args)) as [b|e] eqn:Hb; [|discriminate].
  destruct (simulate C H (with_llm 1 args)) as [l|e] eqn:Hl; [|discriminate].
  cbn [mbind outcome_bind bind]. intros [= <- <-]. split.
  - exact (simulate_without_Kdir C H H args 1 0 l b Hl Hb).
  - intros i Hi.
    destruct (simulate_heading C H (with_llm 0 args) b Hb) as [_ Hrec].
    apply Hrec; [exact Hi|]. intros (Hon & _). discriminate.
Qed.

(** The one-dimensional arrays keep the length the set-up gave them. *)
Lemma loop_lengths (C : Components) (H : Hook) (args : Args) (sc : Scenario)
    (animated : bool) (n : nat) (s0 sf : St.Sim) :
  for_each (loop_body C H args sc animated) (seq 0 n) s0 = Returns sf ->
  length (St.x sf) = length (St.x s0) /\ length (St.y sf) = length (St.y s0) /\
  length (St.Kdir sf) = length (St.Kdir s0) /\ length (St.psi_p sf) = length (St.psi_p s0) /\
  length (St.psi_wp sf) = length (St.psi_wp s0) /\
  length (St.psi_oa sf) = length (St.psi_oa s0).
Proof.
  apply (for_each_seq_invariant (loop_body C H args sc animated)
           (fun _ s =>
              length (St.x s) = length (St.x s0) /\ length (St.y s) = length (St.y s0) /\
              length (St.Kdir s) = length (St.Kdir s0) /\
              length (St.psi_p s) = length (St.psi_p s0) /\
              length (St.psi_wp s) = length (St.psi_wp s0) /\
              length (St.psi_oa s) = length (St.psi_oa s0)) n); [|repeat split].
  intros k s s' _ (Hx & Hy & HK & Hp & Hwp & Hoa) Hstep.
  apply loop_body_facts in Hstep as Hf.
  destruct (sf_psi_wp _ _ _ _ _ _ _ _ Hf) as [wp Ewp].
  rewrite (sf_x _ _ _ _ _ _ _ _ Hf), (sf_y _ _ _ _ _ _ _ _ Hf),
          (step_Kdir_length _ _ _ _ _ _ _ _ Hf), (sf_psi_p _ _ _ _ _ _ _ _ Hf), Ewp,
          (sf_psi_oa _ _ _ _ _ _ _ _ Hf), !length_insert.
  repeat split; assumption.
Qed.

(** After a run every one-dimensional array has one entry per step. *)
Lemma simulate_lengths (C : Components) (H : Hook) (args : Args) (sf : St.Sim) :
  simulate C H args = Returns sf ->
  exists n : nat,
    Z.of_nat n = py_round (sim_time args / dt args) /\
    length (St.x sf) = n /\ length (St.y sf) = n /\ length (St.Kdir sf) = n /\
    length (St.psi_p sf) = n /\ length (St.psi_wp sf) = n /\ length (St.psi_oa sf) = n.
Proof.
  intros Hrun.
  apply simulate_returns in Hrun as (sc & Hsetup & _ & _ & _ & Hloop). cbv zeta in *.
  apply setup_returns in Hsetup as (_ & _ & _ & _ & HN). cbn [fst] in HN.
  apply eq_IZR in HN.
  exists (N sc). split; [exact HN|].
  match type of Hloop with
  | for_each _ _ (initial_state ?n ?Xob ?Yob) = _ =>
      destruct (initial_state_lengths n Xob Yob) as (Hx0 & Hy0 & HK & Hp & Hwp & Hoa & _)
  end.
  destruct (loop_lengths _ _ _ _ _ _ _ _ Hloop) as (Hx & Hy & HKf & Hpf & Hwpf & Hoaf).
  rewrite Hx, Hy, HKf, Hpf, Hwpf, Hoaf. repeat split; assumption.
Qed.

Lemma short_llm_run_steps (H : Hook) (v : Z) (sf : St.Sim) :
  simulate still_components H (with_llm v short_run_args) = Returns sf ->
  length (St.x sf) = 2%nat /\ length (St.Kdir sf) = 2%nat /\ length (St.psi_oa sf) = 2%nat.
Proof.
  intros Hrun. destruct (simulate_lengths _ _ _ _ Hrun) as (n & HN & Hx & _ & HK & _ & _ & Hoa).
  cbn [with_llm short_run_args sim_time dt] in HN.
  replace (2 / 1) with (IZR 2) in HN by field. rewrite py_round_IZR in HN.
  rewrite Hx, HK, Hoa. repeat split; lia.
Qed.

Lemma comparison_runs_agree_witness :
  let b := final_state (simulate still_components (answering_hook "turn to port")
                          (with_llm 0 short_run_args)) in
  let l := final_state (simulate still_components (answering_hook "turn to port")
                          (with_llm 1 short_run_args)) in
  without_Kdir l = without_Kdir b /\ St.Kdir b !!! 0%nat = 1.
Proof.
  intros b l.
  pose proof (short_llm_run_final _ 0 (answering_hook_answers "turn to port")) as Hb.
  pose proof (short_llm_run_final _ 1 (answering_hook_answers "turn to port")) as Hl.
  fold b in Hb. fold l in Hl.
  destruct (comparison_runs_agree still_components (answering_hook "turn to port")
              short_run_args b l) as [Hsame Hones].
  - unfold run_comparison_simulation. rewrite Hb, Hl. reflexivity.
  - split; [exact Hsame|]. apply Hones.
    destruct (short_llm_run_steps _ _ _ Hb) as (_ & -> & _). lia.
Defined.

(** ** The ['kdir'] entry of the returned data *)

Lemma sum_zip_nonpos (w_r w_b : list R) :
  Forall (fun w => 0 <= w) w_r -> Forall (fun w => w <= 0) w_b ->
  Np.sum (zip_with Rmult w_r w_b) <= 0.
Proof.
  intros Hr. revert w_b. induction Hr as [|a w_r Ha Hr IH]; intros w_b Hb.
  - cbn. lra.
  - destruct Hb as [|b w_b Hb0 Hb]; [cbn; lra|].
    cbn [zip_with Np.sum foldr]. specialize (IH w_b Hb). unfold Np.sum in IH. nra.
Qed.

(** The avoidance bias is never positive. *)
Lemma ra_psi_oa_nonpos (x_ob y_ob : list R) (x y psi t : R) :
  ra_psi_oa (reactive_avoidance x_ob y_ob x y psi t) <= 0.
Proof.
  unfold reactive_avoidance, ra_psi_oa.
  match goal with
  | |- Np.sum (zip_with Rmult ?wr ?wb) * 2 <= 0 =>
      assert (Hsum : Np.sum (zip_with Rmult wr wb) <= 0); [|lra]
  end.
  apply sum_zip_nonpos.
  - rewrite zmf_map. apply Forall_map, Forall_forall. intros d _.
    apply (zmf_at_range ra_a ra_b d radii_ordered).
  - apply Forall_map, Forall_forall. intros be _.
    pose proof (w_b_range ra_sig be sigma_positive) as Hw. unfold FieldSpec.w_b in Hw. lra.
Qed.

Lemma insert_lookup_total_nonpos (l : list R) (i : nat) (v : R) :
  (forall j, l !!! j <= 0) -> v <= 0 -> forall j, <[i := v]> l !!! j <= 0.
Proof.
  intros Hl Hv j. destruct (decide (i < length l)%nat) as [Hi|Hi].
  - destruct (decide (j = i)) as [->|Hne].
    + rewrite list_lookup_total_insert_eq by exact Hi. exact Hv.
    + rewrite list_lookup_total_insert_ne by congruence. apply Hl.
  - rewrite list_insert_ge by lia. apply Hl.
Qed.

Lemma loop_psi_oa_nonpos (C : Components) (H : Hook) (args : Args) (sc : Scenario)
    (animated : bool) (n : nat) (s0 sf : St.Sim) :
  (forall j, St.psi_oa s0 !!! j <= 0) ->
  for_each (loop_body C H args sc animated) (seq 0 n) s0 = Returns sf ->
  forall j, St.psi_oa sf !!! j <= 0.
Proof.
  intros H0.
  apply (for_each_seq_invariant (loop_body C H args sc animated)
           (fun _ s => forall j, St.psi_oa s !!! j <= 0) n); [|exact H0].
  intros k s s' _ Hs Hstep. apply loop_body_facts in Hstep as Hf.
  rewrite (sf_psi_oa _ _ _ _ _ _ _ _ Hf).
  apply insert_lookup_total_nonpos; [exact Hs|]. apply ra_psi_oa_nonpos.
Qed.

Lemma zeros_lookup_total (n j : nat) : zeros n !!! j = 0.
Proof.
  unfold zeros. destruct (decide (j < n)%nat) as [Hj|Hj].
  - now apply repeat_lookup_total.
  - rewrite list_lookup_total_alt, lookup_ge_None_2; [reflexivity|].
    rewrite repeat_length. lia.
Qed.

(** Every recorded avoidance bias is at most 0. *)
Lemma simulate_psi_oa_nonpos (C : Components) (H : Hook) (args : Args) (sf : St.Sim) :
  simulate C H args = Returns sf -> forall j, St.psi_oa sf !!! j <= 0.
Proof.
  intros Hrun. apply simulate_returns in Hrun as (sc & _ & _ & _ & _ & Hloop).
  eapply loop_psi_oa_nonpos; [|exact Hloop].
  intros j. cbn [initial_state St.psi_oa]. rewrite zeros_lookup_total. lra.
Qed.

Lemma zip_with_lookup_total (f : R -> R -> R) (l k : list R) (i : nat) :
  (i < length l)%nat -> (i < length k)%nat ->
  zip_with f l k !!! i = f (l !!! i) (k !!! i).
Proof.
  intros Hl Hk.
  destruct (lookup_lt_is_Some_2 l i Hl) as [a Ha].
  destruct (lookup_lt_is_Some_2 k i Hk) as [b Hb].
  rewrite !list_lookup_total_alt, lookup_zip_with, Ha, Hb. reflexivity.
Qed.

(** The directive stored at a step is 1, -1 or 0. *)
Lemma simulate_Kdir_values (C : Components) (H : Hook) (args : Args) (sf : St.Sim) (i : nat) :
  simulate C H args = Returns sf -> (i < length (St.Kdir sf))%nat ->
  St.Kdir sf !!! i = 1 \/ St.Kdir sf !!! i = -1 \/ St.Kdir sf !!! i = 0.
Proof.
  intros Hrun Hi. destruct (simulate_heading C H args sf Hrun) as [_ Hrec].
  destruct (Hrec i Hi) as [Hdec Hidle].
  destruct (decision_step_dec H args i) as [Hd|Hd].
  - destruct (Hdec Hd) as (decision & _ & ->). rewrite extract_kdir_scan.
    destruct (contains "starboard" _); [now left|].
    destruct (contains "port" _); [right; now left|right; now right].
  - left. now apply Hidle.
Qed.

(** X7: entry [i] of the ['kdir'] array that [run_simulation] returns is the
    negated directive [- Kdir[i]] where the avoidance bias of the step is
    non-zero and 0 elsewhere, because the bias is never positive; so a
    starboard directive is reported as -1, and a run without the language
    model reports -1 or 0, never +1. *)
Theorem comparison_kdir_sign (C : Components) (H : Hook) (args : Args) (sf : St.Sim) (i : nat) :
  simulate C H args = Returns sf -> (i < length (St.Kdir sf))%nat ->
  comparison_kdir sf !!! i
  = (if decide (St.psi_oa sf !!! i < 0) then - St.Kdir sf !!! i else 0) /\
  (llm args <> 1%Z -> comparison_kdir sf !!! i <> 1).
Proof.
  intros Hrun Hi.
  destruct (simulate_lengths _ _ _ _ Hrun) as (n & _ & _ & _ & HK & _ & _ & Hoa).
  pose proof (simulate_psi_oa_nonpos _ _ _ _ Hrun i) as Hneg.
  pose proof (simulate_Kdir_values _ _ _ _ i Hrun Hi) as Hval.
  unfold comparison_kdir. rewrite zip_with_lookup_total by lia. cbv zeta.
  assert (Hsign : (if decide (0 < St.Kdir sf !!! i * St.psi_oa sf !!! i) then 1
                   else if decide (St.Kdir sf !!! i * St.psi_oa sf !!! i < 0) then -1 else 0)
                  = (if decide (St.psi_oa sf !!! i < 0) then - St.Kdir sf !!! i else 0)).
  { destruct Hval as [-> | [-> | ->]];
      repeat (destruct (decide _)); try lra. }
  split; [exact Hsign|].
  intros Hoff. rewrite Hsign.
  destruct (simulate_heading C H args sf Hrun) as [_ Hrec].
  destruct (Hrec i Hi) as [_ Hidle]. rewrite Hidle by (intros (Hon & _); contradiction).
  destruct (decide (St.psi_oa sf !!! i < 0)); intros Heq; lra.
Qed.

Lemma comparison_kdir_sign_witness :
  let sf := final_state (simulate still_components absent_hook (with_llm 0 short_run_args)) in
  comparison_kdir sf !!! 0%nat <> 1.
Proof.
  intros sf.
  pose proof (short_llm_run_final _ 0 absent_hook_answers) as Hrun. fold sf in Hrun.
  refine (proj2 (comparison_kdir_sign still_components absent_hook
                   (with_llm 0 short_run_args) sf 0 Hrun _) _).
  - destruct (short_llm_run_steps _ _ _ Hrun) as (_ & -> & _). lia.
  - cbn. lia.
Defined.

(** ** Where the avoidance bias vanishes *)

Lemma zmf_at_positive (a b d : R) : a < b -> d < b -> 0 < zmf_at a b d.
Proof.
  intros Hab Hd. rewrite zmf_at_spec by exact Hab. unfold FieldSpec.w_r.
  assert (Hinv : 0 < / (b - a)) by (apply Rinv_0_lt_compat; lra).
  destruct (decide (d <= a)); [lra|].
  destruct (decide (d < (a + b) / 2)).
  - assert (Ht : 0 <= (d - a) / (b - a) < 1 / 2).
    { split; [unfold Rdiv; nra|].
      apply (Rmult_lt_reg_r (b - a)); [lra|]. unfold Rdiv.
      rewrite Rmult_assoc, Rinv_l by lra. lra. }
    nra.
  - rewrite decide_True by exact Hd.
    assert (Ht : (d - a) / (b - a) < 1).
    { apply (Rmult_lt_reg_r (b - a)); [lra|]. unfold Rdiv.
      rewrite Rmult_assoc, Rinv_l by lra. lra. }
    nra.
Qed.

Lemma w_b_negative (sigma beta : R) : FieldSpec.w_b sigma beta < 0.
Proof.
  unfold FieldSpec.w_b. pose proof (exp_pos (- beta ^ 2 / (2 * sigma ^ 2))). lra.
Qed.

Lemma weighted_sum_zero (x y psi : R) (obs : list (R * R)) :
  FieldSpec.weighted_sum x y psi obs = 0
  <-> Forall (fun o => ra_b <= FieldSpec.distance x y o) obs.
Proof.
  induction obs as [|o obs IH]; cbn [FieldSpec.weighted_sum].
  - split; [constructor|reflexivity].
  - pose proof (weighted_sum_bounds x y psi obs) as [_ Hrest].
    pose proof (w_r_range ra_a ra_b (FieldSpec.distance x y o) radii_ordered) as Hr.
    pose proof (w_b_negative ra_sig (FieldSpec.bearing x y psi o)) as Hb.
    split.
    + intros Hsum.
      assert (Hw : FieldSpec.w_r ra_a ra_b (FieldSpec.distance x y o) = 0) by nra.
      assert (Hzero : FieldSpec.weighted_sum x y psi obs = 0) by nra.
      constructor; [|now apply IH].
      destruct (Rle_lt_dec ra_b (FieldSpec.distance x y o)) as [Hle|Hlt]; [exact Hle|].
      pose proof (zmf_at_positive ra_a ra_b _ radii_ordered Hlt) as Hpos.
      rewrite zmf_at_spec in Hpos by exact radii_ordered. lra.
    + intros Hall. apply Forall_cons in Hall as [Hd Hall].
      apply IH in Hall. rewrite Hall.
      rewrite <- zmf_at_spec by exact radii_ordered.
      rewrite zmf_at_above by (exact radii_ordered || exact Hd). lra.
Qed.

(** X8: the bias returned by [reactive_avoidance] is 0 exactly when every
    obstacle is at least the outer radius [1200/1852] away, whatever the
    bearings; as soon as one obstacle is closer the bias is negative. *)
Theorem reactive_avoidance_zero (obs : list (R * R)) (x y psi t : R) :
  let res := reactive_avoidance (map fst obs) (map snd obs) x y psi t in
  (ra_psi_oa res = 0 <-> Forall (fun d => ra_b <= d) (ra_distance_ob res)) /\
  (ra_psi_oa res < 0 <-> Exists (fun d => d < ra_b) (ra_distance_ob res)).
Proof.
  intros res. subst res. rewrite ra_psi_oa_bias, ra_distance_ob_map.
  unfold FieldSpec.bias.
  pose proof (weighted_sum_zero x y psi obs) as Hzero.
  pose proof (weighted_sum_bounds x y psi obs) as [_ Hle].
  rewrite Forall_map. rewrite Exists_map.
  split.
  - rewrite <- Hzero. split; intros; lra.
  - split.
    + intros Hneg.
      destruct (decide (Exists (fun o => FieldSpec.distance x y o < ra_b) obs))
        as [Hex|Hnex]; [exact Hex|].
      exfalso. assert (Hall : Forall (fun o => ra_b <= FieldSpec.distance x y o) obs).
      { apply Forall_forall. intros o Hin.
        destruct (Rle_lt_dec ra_b (FieldSpec.distance x y o)) as [Hge|Hlt]; [exact Hge|].
        exfalso. apply Hnex. apply Exists_exists. exists o. split; assumption. }
      apply Hzero in Hall. lra.
    + intros Hex. destruct (Req_dec (FieldSpec.weighted_sum x y psi obs) 0) as [Hz|Hnz]; [|lra].
      apply Hzero in Hz. apply Exists_exists in Hex as (o & Hin & Ho).
      rewrite Forall_forall in Hz. specialize (Hz o Hin). cbn in Ho. lra.
Qed.

(** ** Set-up: horizon and scenario table *)

Lemma setup_succeeds (args : Args) :
  dt args <> 0 -> get_obstacles (case_number args) <> [] ->
  (0 <= py_round (sim_time args / dt args))%Z ->
  exists sc,
    setup args
    = Returns (sc, initial_state (Z.to_nat (py_round (sim_time args / dt args)))
                     (map (fun o : obstacle => o.1.1) (get_obstacles (case_number args)))
                     (map (fun o : obstacle => o.1.2) (get_obstacles (case_number args)))).
Proof.
  intros Hdt Hobs HN. unfold setup, get_obstacle_data.
  rewrite decide_False by assumption.
  destruct (get_obstacles (case_number args)) as [|o obstacles]; [congruence|].
  cbn [length map repeat list_first mbind outcome_bind bind].
  rewrite bool_decide_eq_false_2 by lia.
  eexists. reflexivity.
Qed.

(** X9: the horizon [N = round(sim_time / dt)] decides how the set-up of a
    known case ends: a zero [dt] raises [ZeroDivisionError] before the case
    is looked up, a negative [N] raises [ValueError], and with [N = 0] the
    run returns at once with no step made: no time stamp, empty arrays, the
    hook never consulted. *)
Theorem horizon_outcomes (C : Components) (H : Hook) (args : Args) :
  (dt args = 0 -> simulate C H args = Raises ZeroDivisionError) /\
  (dt args <> 0 -> get_obstacles (case_number args) <> [] ->
   (py_round (sim_time args / dt args) < 0)%Z -> simulate C H args = Raises ValueError) /\
  (dt args <> 0 -> get_obstacles (case_number args) <> [] ->
   py_round (sim_time args / dt args) = 0%Z ->
   exists sf, simulate C H args = Returns sf /\
              St.time sf = [] /\ St.x sf = [] /\ St.Kdir sf = [] /\ Risk (St.geo sf) = []).
Proof.
  split; [|split].
  - intros Hdt. unfold simulate, setup. rewrite decide_True by exact Hdt. reflexivity.
  - intros Hdt Hobs HN. unfold simulate, setup, get_obstacle_data.
    rewrite decide_False by assumption.
    destruct (get_obstacles (case_number args)) as [|o obstacles]; [congruence|].
    cbn [length map repeat list_first mbind outcome_bind bind].
    rewrite bool_decide_eq_true_2 by lia. reflexivity.
  - intros Hdt Hobs HN.
    destruct (setup_succeeds args Hdt Hobs ltac:(lia)) as [sc Hsetup].
    rewrite HN in Hsetup. unfold simulate. rewrite Hsetup.
    cbn [mbind outcome_bind bind fst snd]. unfold main_loop.
    eexists. split.
    + destruct (negb (no_animation args)); reflexivity.
    + repeat split.
Qed.

Lemma horizon_outcomes_witness :
  simulate still_components raising_hook
    {| case_number := 1; sim_time := -2; dt := 1; no_animation := true;
       output_dir := "img/"; llm := 1; llm_provider := None; compare := false |}
  = Raises ValueError.
Proof.
  refine (proj1 (proj2 (horizon_outcomes still_components raising_hook _)) _ _ _).
  - cbn. lra.
  - cbn [case_number]. rewrite case_1_obstacles. discriminate.
  - cbn [sim_time dt]. replace (-2 / 1) with (IZR (-2)) by field.
    rewrite py_round_IZR. lia.
Defined.

(** No case has more than three obstacles, and the cases 1 to 23 have at
    least one. *)
Lemma obstacle_count (n : Z) :
  (length (get_obstacles n) <= 3)%nat /\
  ((1 <= n <= 23)%Z -> (1 <= length (get_obstacles n))%nat).
Proof.
  destruct (decide (1 <= n <= 23)%Z) as [Hn|Hn].
  - assert (Hcases : exists k : nat, (k < 23)%nat /\ n = (1 + Z.of_nat k)%Z).
    { exists (Z.to_nat (n - 1)). lia. }
    destruct Hcases as (k & Hk & ->).
    do 23 (destruct k as [|k]; [vm_compute; split; [lia|intros _; lia]|]). lia.
  - split; [|intros; lia].
    unfold get_obstacles.
    destruct (obstacle_cases !! case_key n) as [l|] eqn:Hl; [|cbn; lia].
    exfalso. apply Hn. apply case_known. eexists. exact Hl.
Qed.

(** X10: every predefined case (1 to 23) has between one and three
    obstacles, so that [colors[j]] in [animate_step] stays in range: with a
    non-zero [dt], a horizon that is not negative and a hook whose
    construction does not raise, the run returns, animated or not. *)
Theorem predefined_cases_run (C : Components) (H : Hook) (args : Args) :
  shape_preserving C ->
  (1 <= case_number args <= 23)%Z ->
  dt args <> 0 -> (0 <= py_round (sim_time args / dt args))%Z ->
  (LLM_AVAILABLE H = true ->
   forall k, exists itp, COLREGSInterpreter H k (llm_provider args) = Returns itp) ->
  (1 <= length (get_obstacles (case_number args)) <= 3)%nat /\
  exists sf, simulate C H args = Returns sf.
Proof.
  intros Hshape Hcase Hdt HN Hok.
  destruct (obstacle_count (case_number args)) as [Hmax Hmin].
  specialize (Hmin Hcase). split; [lia|].
  destruct (setup_succeeds args Hdt) as [sc Hsetup]; [|exact HN|].
  - destruct (get_obstacles (case_number args)); [cbn in Hmin; lia|discriminate].
  - exact (simulate_total C H args _ Hshape Hsetup Hok Hmax).
Qed.

Lemma predefined_cases_run_witness :
  exists sf, simulate still_components keyless_hook short_animated_args = Returns sf.
Proof.
  refine (proj2 (predefined_cases_run still_components keyless_hook short_animated_args
                   still_components_shape _ _ _ keyless_hook_answers)).
  - cbn. lia.
  - cbn. lra.
  - cbn [sim_time dt short_animated_args]. replace (2 / 1) with (IZR 2) by field.
    rewrite py_round_IZR. lia.
Defined.

(** ** Time stamps *)

Lemma loop_body_clock (C : Components) (H : Hook) (args : Args) (sc : Scenario)
    (animated : bool) (i : nat) (s s' : St.Sim) :
  loop_body C H args sc animated i s = Returns s' ->
  St.time s' = St.time s ++ [St.t s] /\ St.t s' = St.t s + dt args.
Proof.
  unfold loop_body. destruct animated.
  - unfold step_animated. cbv zeta.
    match goal with
    | |- context [llm_block ?h ?a ?k ?r ?d ?b ?dc ?tc ?kd] =>
        destruct (llm_block h a k r d b dc tc kd) as [Kdir'|err]
    end; [|discriminate].
    cbn [mbind outcome_bind bind].
    destruct (animate_step _ _ _) as [[]|err]; [|discriminate].
    cbn [mbind outcome_bind bind]. intros [= <-]. split; reflexivity.
  - unfold step_plain. cbv zeta.
    match goal with
    | |- context [llm_block ?h ?a ?k ?r ?d ?b ?dc ?tc ?kd] =>
        destruct (llm_block h a k r d b dc tc kd) as [Kdir'|err]
    end; [|discriminate].
    cbn [mbind outcome_bind bind]. intros [= <-]. split; reflexivity.
Qed.

Lemma loop_clock (C : Components) (H : Hook) (args : Args) (sc : Scenario)
    (animated : bool) (n : nat) (s0 sf : St.Sim) :
  St.time s0 = [] -> St.t s0 = 0 ->
  for_each (loop_body C H args sc animated) (seq 0 n) s0 = Returns sf ->
  St.time sf = map (fun i => INR i * dt args) (seq 0 n) /\ St.t sf = INR n * dt args.
Proof.
  intros Htime Ht.
  apply (for_each_seq_invariant (loop_body C H args sc animated)
           (fun k s => St.time s = map (fun i => INR i * dt args) (seq 0 k) /\
                       St.t s = INR k * dt args) n).
  - intros k s s' _ [Hts Hs] Hstep.
    apply loop_body_clock in Hstep as [-> ->].
    rewrite Hts, Hs, seq_S, map_app, S_INR. cbn [map Nat.add]. split; [reflexivity|ring].
  - rewrite Htime, Ht. cbn. split; [reflexivity|ring].
Qed.

(** X11: a run records one time stamp per step, [time[i] = i * dt] over the
    reals, for [N = round(sim_time / dt)] steps (ties to even); every
    one-dimensional array of the run has the same [N] entries. *)
Theorem simulate_time_stamps (C : Components) (H : Hook) (args : Args) (sf : St.Sim) :
  simulate C H args = Returns sf ->
  exists n : nat,
    Z.of_nat n = py_round (sim_time args / dt args) /\
    St.time sf = map (fun i => INR i * dt args) (seq 0 n) /\
    St.t sf = INR n * dt args /\
    length (St.x sf) = n /\ length (St.y sf) = n /\ length (St.Kdir sf) = n /\
    length (St.psi_p sf) = n /\ length (St.psi_wp sf) = n /\ length (St.psi_oa sf) = n.
Proof.
  intros Hrun.
  destruct (simulate_lengths _ _ _ _ Hrun) as (n & HN & Hlen).
  exists n. split; [exact HN|].
  apply simulate_returns in Hrun as (sc & Hsetup & _ & _ & _ & Hloop). cbv zeta in *.
  apply setup_returns in Hsetup as (_ & _ & _ & _ & HN'). cbn [fst] in HN'.
  apply eq_IZR in HN'. assert (N sc = n) as Hn by lia. rewrite Hn in Hloop.
  apply loop_clock in Hloop as [Htime Ht]; [|reflexivity..].
  split; [exact Htime|]. split; [exact Ht|exact Hlen].
Qed.

Lemma simulate_time_stamps_witness :
  St.time (final_state (simulate still_components absent_hook short_run_args))
  = [INR 0 * 1; INR 1 * 1].
Proof.
  pose proof (short_run_final_plain _ absent_hook_answers) as Hrun.
  destruct (simulate_time_stamps _ _ _ _ Hrun) as (n & HN & Htime & _).
  cbn [sim_time dt short_run_args] in HN, Htime.
  replace (2 / 1) with (IZR 2) in HN by field. rewrite py_round_IZR in HN.
  assert (n = 2%nat) as -> by lia. exact Htime.
Defined.

(** ** [decision_making]: what it can return *)

Lemma broadcast2_same (f : R -> R -> R) (a b : list R) :
  length a = length b -> broadcast2 f a b = Returns (zip_with f a b).
Proof. intros Hlen. unfold broadcast2. now rewrite decide_True. Qed.

Lemma array_get_lookup (v : list R) (i : nat) :
  (i < length v)%nat -> array_get v i = Returns (v !!! i).
Proof.
  intros Hi. unfold array_get.
  destruct (lookup_lt_is_Some_2 v i Hi) as [vi Hvi].
  rewrite Hvi. f_equal. symmetry. now apply list_lookup_total_correct.
Qed.

(** The sector rule of one obstacle, as a function of its relative bearing. *)
Lemma decision_making_obstacle_cases (v_rel u : R) (rbs : list R) (i : nat) (st st' : R * Z) :
  decision_making_obstacle v_rel u rbs i st = Returns st' ->
  exists rb, rbs !! i = Some rb /\
    st' = if decide (Rabs rb <= 6 * PI / 180)
          then (if decide (v_rel >= u) then 14 else 13, 1%Z)
          else if decide (6 * PI / 180 < rb) then
                 (if decide (rb <= 112 * PI / 180) then 15.1 else 13,
                  if decide (rb <= 112 * PI / 180) then 1%Z else 0%Z)
          else (if decide (-118 * PI / 180 <= rb) then 15.2 else 13, 0%Z).
Proof.
  unfold decision_making_obstacle, array_get.
  destruct (rbs !! i) as [rb|]; [|discriminate].
  cbn [mbind outcome_bind bind]. destruct st as [c h].
  intros Hst. exists rb. split; [reflexivity|].
  pose proof PI_RGT_0 as Hpi.
  destruct (decide (Rabs rb <= 6 * PI / 180)) as [Habs|Habs].
  - destruct (decide (v_rel >= u)); now injection Hst as <-.
  - assert (Hout : 6 * PI / 180 < rb \/ rb < - (6 * PI / 180)).
    { unfold Rabs in Habs. destruct (Rcase_abs rb); lra. }
    destruct (decide (6 * PI / 180 < rb)) as [Hpos|Hneg].
    + destruct (decide (rb <= 112 * PI / 180)) as [Hle|Hgt].
      * rewrite decide_True in Hst by lra. now injection Hst as <-.
      * rewrite decide_False in Hst by lra.
        rewrite (decide_False (P := -118 * PI / 180 <= rb /\ rb < -6 * PI / 180)) in Hst by lra.
        rewrite (decide_True (P := 112 * PI / 180 < rb \/ rb < -118 * PI / 180)) in Hst by lra.
        destruct (decide (v_rel >= u)); now injection Hst as <-.
    + rewrite decide_False in Hst by lra.
      destruct (decide (-118 * PI / 180 <= rb)) as [Hge|Hlt].
      * rewrite decide_True in Hst by lra. now injection Hst as <-.
      * rewrite decide_False in Hst by lra.
        rewrite (decide_True (P := 112 * PI / 180 < rb \/ rb < -118 * PI / 180)) in Hst by lra.
        destruct (decide (v_rel >= u)); now injection Hst as <-.
Qed.

Lemma decision_making_obstacle_range (v_rel u : R) (rbs : list R) (i : nat) (st st' : R * Z) :
  decision_making_obstacle v_rel u rbs i st = Returns st' ->
  (st'.2 = 0%Z \/ st'.2 = 1%Z) /\
  (st'.1 = 13 \/ st'.1 = 14 \/ st'.1 = 15.1 \/ st'.1 = 15.2).
Proof.
  intros Hst. apply decision_making_obstacle_cases in Hst as (rb & _ & ->).
  repeat (destruct (decide _)); cbn [fst snd]; split; auto.
Qed.

Lemma for_each_last {S : Type} (body : nat -> S -> outcome S) (n : nat) (s0 sf : S) :
  for_each body (seq 0 (Datatypes.S n)) s0 = Returns sf ->
  exists s, for_each body (seq 0 n) s0 = Returns s /\ body n s = Returns sf.
Proof.
  rewrite seq_S. cbn [Nat.add]. generalize (seq 0 n). intros l. revert s0.
  induction l as [|i l IH]; intros s0; cbn [for_each app].
  - destruct (body n s0) as [s'|e] eqn:Hb; [|discriminate].
    cbn [mbind outcome_bind bind]. intros [= <-]. exists s0. split; [reflexivity|exact Hb].
  - destruct (body i s0) as [s'|e]; [|discriminate].
    cbn [mbind outcome_bind bind]. apply IH.
Qed.

(** X12: [decision_making] never asks for a turn to port: whenever it
    returns, the heading direction is 0 or 1 (the docstring also lists -1)
    and the speed level is 0; the rule number is one of 13, 14, 15.1, 15.2,
    or 0 when there is no obstacle, in which case the heading direction is
    1. *)
Theorem decision_making_range (x y psi : R) (x_ob y_ob psi_ob : list R) (v_rel u : R)
    (risk : list R) (colreg_no : R) (heading_dir speed_level : Z) (rbs : list R) :
  decision_making x y psi x_ob y_ob psi_ob v_rel u risk
  = Returns (colreg_no, heading_dir, speed_level, rbs) ->
  (heading_dir = 0%Z \/ heading_dir = 1%Z) /\ speed_level = 0%Z /\
  (x_ob = [] -> colreg_no = 0 /\ heading_dir = 1%Z) /\
  (x_ob <> [] ->
   colreg_no = 13 \/ colreg_no = 14 \/ colreg_no = 15.1 \/ colreg_no = 15.2).
Proof.
  unfold decision_making. cbv zeta.
  destruct (broadcast2 (fun dx2 dy2 => sqrt (dx2 + dy2)) _ _) as [distance_ob|e];
    [|discriminate].
  cbn [mbind outcome_bind bind].
  destruct (broadcast2 arctan2 _ _) as [los_ob|e]; [|discriminate].
  cbn [mbind outcome_bind bind].
  destruct (for_each _ _ _) as [[c h]|e] eqn:Hloop; [|discriminate].
  cbn [mbind outcome_bind bind fst snd]. intros [= <- <- <- <-].
  destruct x_ob as [|xo x_ob _] using rev_ind.
  - cbn in Hloop. injection Hloop as <- <-.
    split; [now right|]. split; [reflexivity|]. split; [intros _; split; reflexivity|].
    congruence.
  - rewrite length_app, Nat.add_comm in Hloop. cbn [length Nat.add] in Hloop.
    apply for_each_last in Hloop as (s & _ & Hlast).
    apply decision_making_obstacle_range in Hlast as [Hh Hc]. cbn [fst snd] in *.
    split; [exact Hh|]. split; [reflexivity|]. split; [|intros _; exact Hc].
    intros Habs. now destruct x_ob.
Qed.

Lemma decision_making_range_witness :
  decision_making 0 0 0 [1] [0] [] 1 0 [] = Returns (14, 1%Z, 0%Z, [0 - arctan2 (0 - 0) (1 - 0)]) /\
  ((1 = 0)%Z \/ (1 = 1)%Z) /\
  (14 = 13 \/ 14 = 14 \/ 14 = 15.1 \/ 14 = 15.2).
Proof.
  assert (Hrb : 0 - arctan2 (0 - 0) (1 - 0) = 0).
  { unfold arctan2. rewrite decide_True by lra.
    replace ((0 - 0) / (1 - 0)) with 0 by (field; lra). rewrite atan_0. lra. }
  assert (Hrun : decision_making 0 0 0 [1] [0] [] 1 0 []
                 = Returns (14, 1%Z, 0%Z, [0 - arctan2 (0 - 0) (1 - 0)])).
  { unfold decision_making. cbv zeta. rewrite !broadcast2_same by reflexivity.
    cbn [mbind outcome_bind bind map zip_with length seq for_each].
    unfold decision_making_obstacle. rewrite array_get_lookup by (cbn; lia).
    cbn [mbind outcome_bind bind lookup_total list_lookup_total]. rewrite Hrb.
    pose proof PI_RGT_0 as Hpi.
    rewrite decide_True by (rewrite Rabs_R0; lra).
    rewrite decide_True by lra. reflexivity. }
  split; [exact Hrun|].
  destruct (decision_making_range 0 0 0 [1] [0] [] 1 0 [] 14 1 0 _ Hrun)
    as (Hh & _ & _ & Hc).
  split; [exact Hh|]. apply Hc. discriminate.
Defined.

Lemma for_each_app {S : Type} (body : nat -> S -> outcome S) (l1 l2 : list nat) (s0 : S) :
  for_each body (l1 ++ l2) s0 = (s ← for_each body l1 s0; for_each body l2 s).
Proof.
  revert s0. induction l1 as [|i l1 IH]; intros s0; cbn [app for_each]; [reflexivity|].
  destruct (body i s0) as [s'|e]; cbn [mbind outcome_bind bind]; [apply IH|reflexivity].
Qed.

Lemma decision_making_obstacle_total (v_rel u : R) (rbs : list R) (i : nat) (st : R * Z) :
  (i < length rbs)%nat -> exists st', decision_making_obstacle v_rel u rbs i st = Returns st'.
Proof.
  intros Hi. unfold decision_making_obstacle. rewrite array_get_lookup by exact Hi.
  cbn [mbind outcome_bind bind]. destruct st as [c h].
  repeat (destruct (decide _)); eexists; reflexivity.
Qed.

Lemma decision_making_loop_total (v_rel u : R) (rbs : list R) (n : nat) (st : R * Z) :
  (n <= length rbs)%nat ->
  exists st', for_each (decision_making_obstacle v_rel u rbs) (seq 0 n) st = Returns st'.
Proof.
  intros Hn. induction n as [|n IH].
  - eexists. reflexivity.
  - destruct IH as [s Hs]; [lia|].
    rewrite seq_S, for_each_app, Hs. cbn [mbind outcome_bind bind Nat.add for_each].
    destruct (decision_making_obstacle_total v_rel u rbs n s) as [st' ->]; [lia|].
    eexists. reflexivity.
Qed.

(** X13: only the last obstacle counts in [decision_making]: every pass of
    the loop overwrites the rule number and the heading direction, so for
    arrays of equal length the call returns what it returns for the last
    obstacle alone, whatever the bearings of the others. *)
Theorem decision_making_last_obstacle (x y psi : R) (x_ob y_ob : list R) (xl yl : R)
    (psi_ob psi_ob' : list R) (v_rel u : R) (risk risk' : list R) :
  length x_ob = length y_ob ->
  exists colreg_no heading_dir rbs,
    decision_making x y psi (x_ob ++ [xl]) (y_ob ++ [yl]) psi_ob v_rel u risk
    = Returns (colreg_no, heading_dir, 0%Z, rbs) /\
    decision_making x y psi [xl] [yl] psi_ob' v_rel u risk'
    = Returns (colreg_no, heading_dir, 0%Z, [psi - arctan2 (yl - y) (xl - x)]) /\
    rbs !! length x_ob = Some (psi - arctan2 (yl - y) (xl - x)).
Proof.
  intros Hlen. unfold decision_making. cbv zeta.
  rewrite !broadcast2_same by (rewrite !length_map, ?length_app; cbn; lia).
  cbn [mbind outcome_bind bind].
  set (rbs := map (fun l => psi - l)
                (zip_with arctan2 (map (fun yo => yo - y) (y_ob ++ [yl]))
                   (map (fun xo => xo - x) (x_ob ++ [xl])))).
  assert (Hrbs : length rbs = Datatypes.S (length x_ob)).
  { subst rbs. rewrite length_map, length_zip_with, !length_map, !length_app. cbn. lia. }
  assert (Hlast : rbs !! length x_ob = Some (psi - arctan2 (yl - y) (xl - x))).
  { subst rbs. rewrite !map_app, zip_with_app by (rewrite !length_map; lia).
    rewrite map_app, lookup_app_r
      by (rewrite length_map, length_zip_with, !length_map; lia).
    rewrite length_map, length_zip_with, !length_map, <- Hlen, Nat.min_id, Nat.sub_diag.
    reflexivity. }
  destruct (decision_making_loop_total v_rel u rbs (length (x_ob ++ [xl])) (0, 1%Z))
    as [[c h] Hloop]; [rewrite length_app; cbn; lia|].
  rewrite Hloop. cbn [mbind outcome_bind bind fst snd].
  exists c, h, rbs. split; [reflexivity|]. split; [|exact Hlast].
  rewrite length_app, Nat.add_comm in Hloop. cbn [length Nat.add] in Hloop.
  apply for_each_last in Hloop as (s & _ & Hstep).
  apply decision_making_obstacle_cases in Hstep as (rb & Hrb & Hst).
  rewrite Hlast in Hrb. injection Hrb as <-.
  cbn [map zip_with length seq for_each].
  destruct (decision_making_obstacle_total v_rel u [psi - arctan2 (yl - y) (xl - x)] 0 (0, 1%Z))
    as [[c1 h1] Hone]; [cbn; lia|].
  rewrite Hone. cbn [mbind outcome_bind bind fst snd].
  apply decision_making_obstacle_cases in Hone as (rb1 & Hrb1 & Hst1).
  cbn in Hrb1. injection Hrb1 as <-.
  rewrite <- Hst in Hst1. injection Hst1 as -> ->. reflexivity.
Qed.

Lemma decision_making_last_obstacle_witness :
  exists colreg_no heading_dir rbs,
    decision_making 0 0 0 [5; 1] [5; 0] [] 1 0 [] = Returns (colreg_no, heading_dir, 0%Z, rbs) /\
    decision_making 0 0 0 [1] [0] [] 1 0 []
    = Returns (colreg_no, heading_dir, 0%Z, [0 - arctan2 (0 - 0) (1 - 0)]).
Proof.
  destruct (decision_making_last_obstacle 0 0 0 [5] [5] 1 0 [] [] 1 0 [] [] eq_refl)
    as (c & h & rbs & H1 & H2 & _).
  exists c, h, rbs. split; assumption.
Defined.

Lemma broadcast2_mismatch (f : R -> R -> R) (a b : list R) :
  length a <> length b -> length a <> 1%nat -> length b <> 1%nat ->
  broadcast2 f a b = Raises ValueError.
Proof.
  intros Hne Ha Hb. unfold broadcast2. rewrite decide_False by exact Hne.
  destruct a as [|a0 [|a1 a]]; [|cbn in Ha; lia|];
    destruct b as [|b0 [|b1 b]]; cbn in Hne, Hb; try lia; reflexivity.
Qed.

(** X14: [decision_making] fails on obstacle arrays that do not fit: two
    lengths that differ, neither being 1, raise numpy's [ValueError]; one
    abscissa with no ordinate broadcasts to an empty bearing array, and the
    loop then raises [IndexError] at [relative_bearing_ob[0]]. *)
Theorem decision_making_shape_errors (x y psi : R) (x_ob y_ob psi_ob : list R) (v_rel u : R)
    (risk : list R) :
  (length x_ob <> length y_ob -> length x_ob <> 1%nat -> length y_ob <> 1%nat ->
   decision_making x y psi x_ob y_ob psi_ob v_rel u risk = Raises ValueError) /\
  (length x_ob = 1%nat -> y_ob = [] ->
   decision_making x y psi x_ob y_ob psi_ob v_rel u risk = Raises IndexError).
Proof.
  split.
  - intros Hne Hx Hy. unfold decision_making. cbv zeta.
    rewrite !broadcast2_mismatch by (rewrite !length_map; lia). reflexivity.
  - intros Hx ->. destruct x_ob as [|xo [|x1 x_ob]]; try discriminate. reflexivity.
Qed.

Lemma decision_making_shape_errors_witness :
  decision_making 0 0 0 [1; 2; 3] [1; 2] [] 0 0 [] = Raises ValueError /\
  decision_making 0 0 0 [1] [] [] 0 0 [] = Raises IndexError.
Proof.
  split.
  - apply (decision_making_shape_errors 0 0 0 [1; 2; 3] [1; 2] [] 0 0 []); cbn; lia.
  - apply (decision_making_shape_errors 0 0 0 [1] [] [] 0 0 []); reflexivity.
Defined.

(** ** [validation.py]: the fallback response *)

(** The rule of a fallback response is "FB". *)
Lemma fallback_rule (risk distance rel_bearing : R) (turning : bool)
    (situation : option string) :
  rule (get_fallback_response risk distance rel_bearing turning situation) = "FB"%string.
Proof.
  unfold get_fallback_response.
  destruct turning; [reflexivity|].
  destruct (bool_decide (0.7 < risk) && bool_decide (distance < 300)); reflexivity.
Qed.

(** X15: [get_fallback_response] never asks for a turn to port: the action
    is "Give-way, turn to starboard" when the vessel is already turning or
    when the risk is above 0.7 at less than 300 of distance, and "Stand on,
    no action" otherwise; the relative bearing plays no part, the rule is
    "FB" and the response is flagged as a fallback. *)
Theorem fallback_never_port (risk distance rel_bearing : R) (turning : bool)
    (situation : option string) :
  let v := get_fallback_response risk distance rel_bearing turning situation in
  action v <> "Give-way, turn to port"%string /\
  (action v = "Give-way, turn to starboard"%string
   <-> turning = true \/ (0.7 < risk /\ distance < 300)) /\
  (action v = "Stand on, no action"%string
   <-> turning = false /\ ~ (0.7 < risk /\ distance < 300)) /\
  rule v = "FB"%string /\ is_fallback v = true /\
  (situation_type v = "unknown"%string
   <-> situation = None \/ situation = Some EmptyString \/ situation = Some "unknown"%string) /\
  forall rel_bearing', get_fallback_response risk distance rel_bearing' turning situation = v.
Proof.
  intros v. subst v. unfold get_fallback_response.
  assert (Hsit : or_unknown situation = "unknown"%string
                 <-> situation = None \/ situation = Some EmptyString
                     \/ situation = Some "unknown"%string).
  { destruct situation as [[|c s]|]; cbn [or_unknown].
    - split; auto.
    - split.
      + intros ->. right. right. reflexivity.
      + intros [Hs|[Hs|Hs]]; try discriminate. congruence.
    - split; auto. }
  destruct turning.
  - cbn. repeat split; try discriminate; try tauto; try apply Hsit; auto.
    intros [Hf _]. discriminate.
  - destruct (bool_decide (0.7 < risk) && bool_decide (distance < 300)) eqn:Hcond; cbn.
    + apply andb_true_iff in Hcond as [Hr Hd].
      apply bool_decide_eq_true_1 in Hr, Hd.
      repeat split; try discriminate; try tauto; try apply Hsit; auto.
    + assert (Hno : ~ (0.7 < risk /\ distance < 300)).
      { intros [Hr Hd]. apply andb_false_iff in Hcond as [Hc|Hc];
          apply bool_decide_eq_false_1 in Hc; contradiction. }
      repeat split; try discriminate; try tauto; try apply Hsit; auto.
      intros [Hf|Hf]; [discriminate|contradiction].
Qed.

(** ** [validation.py]: what [parse_response] accepts *)

Lemma substring_0_0 (s : string) : String.substring 0 0 s = EmptyString.
Proof. destruct s; reflexivity. Qed.

Lemma string_drop_length (n : nat) (s : string) :
  (n <= String.length s)%nat ->
  String.length (string_drop n s) = (String.length s - n)%nat.
Proof.
  revert s. induction n as [|n IH]; intros s Hn; cbn [string_drop].
  - lia.
  - destruct s as [|c s]; cbn [String.length] in *; [lia|]. rewrite IH by lia. lia.
Qed.

(** A successful [class+] took some [n >= 1] characters of the class. *)
Lemma many1_inv {A : Type} (class : ascii -> bool) (s : string) (k : string -> option A)
    (result : A) :
  many1 class s k = Some result ->
  exists n, (1 <= n <= String.length s)%nat /\
            string_forall class (String.substring 0 n s) = true /\
            k (string_drop n s) = Some result.
Proof.
  induction s as [|c s IH]; cbn [many1]; [discriminate|].
  destruct (class c) eqn:Hc; [|discriminate].
  destruct (many1 class s k) as [r|] eqn:Hmany.
  - intros [= <-]. destruct (IH eq_refl) as (n & Hn & Hall & Hk).
    exists (Datatypes.S n). cbn [String.length String.substring string_forall string_drop].
    rewrite Hc, Hall. repeat split; [lia|lia|exact Hk].
  - intros Hk. exists 1%nat.
    cbn [String.length String.substring string_forall string_drop].
    rewrite substring_0_0, Hc. repeat split; [lia|lia|exact Hk].
Qed.

Lemma lit_inv (text s : string) (groups : list string)
    (k : string -> list string -> option (list string)) (result : list string) :
  re_match_at (Lit text) s groups k = Some result ->
  String.prefix text s = true /\
  k (string_drop (String.length text) s) groups = Some result.
Proof. cbn [re_match_at]. destruct (String.prefix text s); [auto|discriminate]. Qed.

Lemma group_many1_inv (class : ascii -> bool) (s : string) (groups : list string)
    (k : string -> list string -> option (list string)) (result : list string) :
  re_match_at (Group (Many1 class)) s groups k = Some result ->
  exists captured rest,
    captured <> EmptyString /\ string_forall class captured = true /\
    k rest (groups ++ [captured]) = Some result.
Proof.
  cbn [re_match_at]. intros Hm.
  apply many1_inv in Hm as (n & Hn & Hall & Hk).
  rewrite string_drop_length in Hk by lia.
  replace (String.length s - (String.length s - n))%nat with n in Hk by lia.
  exists (String.substring 0 n s), (string_drop n s). split; [|split; assumption].
  destruct s as [|c s]; cbn [String.length] in Hn; [lia|].
  destruct n as [|n]; [lia|]. discriminate.
Qed.

Lemma string_forall_lstrip (class : ascii -> bool) (s : string) :
  string_forall class s = true -> string_forall class (lstrip s) = true.
Proof.
  induction s as [|c s IH]; cbn [lstrip string_forall]; [reflexivity|].
  intros Hall. apply andb_true_iff in Hall as [Hc Hs].
  destruct (is_space c); [now apply IH|]. cbn [string_forall]. now rewrite Hc, Hs.
Qed.

Lemma string_forall_rstrip (class : ascii -> bool) (s : string) :
  string_forall class s = true -> string_forall class (rstrip s) = true.
Proof.
  induction s as [|c s IH]; cbn [rstrip string_forall]; [reflexivity|].
  intros Hall. apply andb_true_iff in Hall as [Hc Hs]. specialize (IH Hs).
  destruct (rstrip s) as [|c' r].
  - destruct (is_space c); cbn [string_forall]; [reflexivity|]. now rewrite Hc.
  - cbn [string_forall] in *. now rewrite Hc, IH.
Qed.

Lemma string_forall_strip (class : ascii -> bool) (s : string) :
  string_forall class s = true -> string_forall class (strip s) = true.
Proof. intros Hall. unfold strip. now apply string_forall_rstrip, string_forall_lstrip. Qed.

(** The four groups of a match of [response_pattern]. *)
Lemma response_pattern_groups (s : string) (groups : list string) :
  re_match response_pattern s = Some groups ->
  exists rule situation action explanation,
    groups = [rule; situation; action; explanation] /\
    rule <> EmptyString /\ string_forall is_digit rule = true /\
    situation <> EmptyString /\
    string_forall (fun c => is_word c || Ascii.eqb c "-") situation = true /\
    action <> EmptyString /\
    string_forall (fun c => is_word c || is_space c || Ascii.eqb c "," || Ascii.eqb c "-")
      action = true /\
    explanation <> EmptyString /\
    string_forall (fun c => negb (Ascii.eqb c "010")) explanation = true.
Proof.
  unfold re_match, response_pattern. intros Hm.
  change (re_match_at (Cat ?r1 ?r2) ?t ?g ?k)
    with (re_match_at r1 t g (fun rest groups' => re_match_at r2 rest groups' k)) in Hm.
  apply lit_inv in Hm as [_ Hm].
  change (re_match_at (Cat ?r1 ?r2) ?t ?g ?k)
    with (re_match_at r1 t g (fun rest groups' => re_match_at r2 rest groups' k)) in Hm.
  apply group_many1_inv in Hm as (c1 & rest1 & Hne1 & Hall1 & Hm).
  change (re_match_at (Cat ?r1 ?r2) ?t ?g ?k)
    with (re_match_at r1 t g (fun rest groups' => re_match_at r2 rest groups' k)) in Hm.
  apply lit_inv in Hm as [_ Hm].
  change (re_match_at (Cat ?r1 ?r2) ?t ?g ?k)
    with (re_match_at r1 t g (fun rest groups' => re_match_at r2 rest groups' k)) in Hm.
  apply group_many1_inv in Hm as (c2 & rest2 & Hne2 & Hall2 & Hm).
  change (re_match_at (Cat ?r1 ?r2) ?t ?g ?k)
    with (re_match_at r1 t g (fun rest groups' => re_match_at r2 rest groups' k)) in Hm.
  apply lit_inv in Hm as [_ Hm].
  change (re_match_at (Cat ?r1 ?r2) ?t ?g ?k)
    with (re_match_at r1 t g (fun rest groups' => re_match_at r2 rest groups' k)) in Hm.
  apply group_many1_inv in Hm as (c3 & rest3 & Hne3 & Hall3 & Hm).
  change (re_match_at (Cat ?r1 ?r2) ?t ?g ?k)
    with (re_match_at r1 t g (fun rest groups' => re_match_at r2 rest groups' k)) in Hm.
  apply lit_inv in Hm as [_ Hm].
  apply group_many1_inv in Hm as (c4 & rest4 & Hne4 & Hall4 & Hm).
  injection Hm as <-.
  exists c1, c2, c3, c4. repeat split; assumption.
Qed.

(** X16: whatever [parse_response] accepts is well formed: the rule is a
    non-empty run of digits, the situation is one of the three valid
    situations in lower case, the action is one of the three valid actions,
    the explanation has no line break, and the response is not flagged as a
    fallback. *)
Theorem parse_response_sound (llm_response : string) (v : ValidatedResponse) :
  parse_response llm_response = Some v ->
  rule v <> EmptyString /\ string_forall is_digit (rule v) = true /\
  situation_type v ∈ VALID_SITUATIONS /\ action v ∈ VALID_ACTIONS /\
  string_forall (fun c => negb (Ascii.eqb c "010")) (explanation v) = true /\
  is_fallback v = false.
Proof.
  unfold parse_response.
  destruct (re_match response_pattern (strip llm_response)) as [groups|] eqn:Hm;
    [|discriminate].
  destruct (response_pattern_groups _ _ Hm)
    as (r & s & a & e & -> & Hr & Hdigits & _ & _ & _ & _ & _ & He).
  destruct (bool_decide (lower s ∈ VALID_SITUATIONS)) eqn:Hs; [|discriminate].
  destruct (bool_decide (strip a ∈ VALID_ACTIONS)) eqn:Ha; [|discriminate].
  cbn [negb orb]. intros [= <-]. cbn [rule situation_type action explanation is_fallback].
  apply bool_decide_eq_true_1 in Hs, Ha.
  repeat split; try assumption. now apply string_forall_strip.
Qed.

Lemma parse_response_sound_witness :
  string_forall is_digit "15" = true /\
  ("crossing" : string) ∈ VALID_SITUATIONS /\ ("Stand on, no action" : string) ∈ VALID_ACTIONS.
Proof.
  destruct (parse_response_sound
    "Rule 15 (crossing), Action: Stand on, no action, explanation: Low risk, target on port side"
    {| rule := "15"; situation_type := "crossing"; action := "Stand on, no action";
       explanation := "Low risk, target on port side"; is_fallback := false |})
    as (_ & Hd & Hs & Ha & _).
  - vm_compute. reflexivity.
  - split; [exact Hd|]. split; [exact Hs|exact Ha].
Defined.

(** ** [validation.py]: the fallback text *)

Lemma rstrip_cons (c : ascii) (s : string) :
  is_space c = false -> rstrip (String c s) = String c (rstrip s).
Proof. intros Hc. cbn [rstrip]. rewrite Hc. destruct (rstrip s); reflexivity. Qed.

Lemma rstrip_cons_cons (c c' : ascii) (s : string) :
  is_space c' = false -> rstrip (String c (String c' s)) = String c (rstrip (String c' s)).
Proof.
  intros Hc. change (rstrip (String c (String c' s)))
    with (match rstrip (String c' s) with
          | EmptyString => if is_space c then EmptyString else String c EmptyString
          | r => String c r
          end).
  rewrite (rstrip_cons c' s Hc). reflexivity.
Qed.

(** A text built for the rule "FB" does not match the pattern. *)
Lemma fallback_text_invalid (v : ValidatedResponse) :
  rule v = "FB"%string -> parse_response (format_response v) = None.
Proof.
  intros Hrule. unfold parse_response, format_response, strip. rewrite Hrule.
  change ("Rule " +:+ "FB" +:+ ?rest)%string
    with (String "R" (String "u" (String "l" (String "e" (String " "
            (String "F" (String "B" rest))))))).
  cbn [lstrip]. change (is_space "R") with false. cbv iota.
  rewrite !rstrip_cons by reflexivity.
  rewrite rstrip_cons_cons by reflexivity.
  rewrite !rstrip_cons by reflexivity.
  reflexivity.
Qed.

(** X17: [enhanced_decision_making_llm] hands a response that
    [parse_response] accepts back unchanged.  For a response that is
    rejected it needs the module global [current_maneuver]: while nothing has
    assigned it the call ends in [NameError]; once it is assigned the answer
    is the fallback text, which starts with "Rule FB" and is itself rejected
    by [parse_response]. *)
Theorem enhanced_decision_outcomes
    (decision_making_llm : R -> R -> R -> R -> R -> Z -> outcome string)
    (current_maneuver : option Maneuver)
    (risk distance rel_bearing dcpa tcpa : R) (idx : Z) (llm_response : string) :
  decision_making_llm risk distance rel_bearing dcpa tcpa idx = Returns llm_response ->
  let result :=
    enhanced_decision_making_llm decision_making_llm current_maneuver
      risk distance rel_bearing dcpa tcpa idx in
  (is_Some (parse_response llm_response) -> result = Answer llm_response) /\
  (parse_response llm_response = None -> current_maneuver = None -> result = NameError) /\
  (parse_response llm_response = None ->
   forall m, current_maneuver = Some m ->
     exists text,
       result = Answer text /\
       String.prefix "Rule FB (" text = true /\
       parse_response text = None).
Proof.
  intros Hllm result. subst result. unfold enhanced_decision_making_llm. rewrite Hllm.
  split; [|split].
  - intros [v ->]. reflexivity.
  - intros -> ->. reflexivity.
  - intros -> m ->. eexists. split; [reflexivity|]. split.
    + unfold format_response.
      rewrite fallback_rule.
      simpl. match goal with |- String.prefix EmptyString ?t = true => now destruct t end.
    + apply fallback_text_invalid.
      apply fallback_rule.
Qed.

Lemma enhanced_decision_outcomes_witness :
  enhanced_decision_making_llm (fun _ _ _ _ _ _ => Returns "Invalid format response"%string)
    None 0 0 0 0 0 0 = NameError.
Proof.
  refine (proj1 (proj2 (enhanced_decision_outcomes
            (fun _ _ _ _ _ _ => Returns "Invalid format response"%string)
            None 0 0 0 0 0 0 "Invalid format response" eq_refl)) _ eq_refl).
  vm_compute. reflexivity.
Defined.

(** ** [validation.py]: from a response to its text and back *)

Lemma prefix_app (text rest : string) : String.prefix text (text +:+ rest) = true.
Proof.
  induction text as [|c text IH]; simpl; [now destruct rest|].
  destruct (ascii_dec c c); [exact IH|congruence].
Qed.

Lemma string_drop_app (text rest : string) :
  string_drop (String.length text) (text +:+ rest) = rest.
Proof. induction text as [|c text IH]; simpl; [reflexivity|exact IH]. Qed.

Lemma substring_app (text rest : string) :
  String.substring 0 (String.length text) (text +:+ rest) = text.
Proof.
  induction text as [|c text IH]; simpl; [apply substring_0_0|]. now rewrite IH.
Qed.

Lemma string_length_app (s1 s2 : string) :
  String.length (s1 +:+ s2) = (String.length s1 + String.length s2)%nat.
Proof. induction s1 as [|c s1 IH]; simpl; [reflexivity|]. now rewrite IH. Qed.

Lemma string_app_nil_r (s : string) : (s +:+ EmptyString)%string = s.
Proof.
  induction s as [|c s IH]; [reflexivity|].
  change (String c (s +:+ EmptyString) = String c s). now rewrite IH.
Qed.

Lemma lit_run (text rest : string) (groups result : list string)
    (k : string -> list string -> option (list string)) :
  k rest groups = Some result ->
  re_match_at (Lit text) (text +:+ rest) groups k = Some result.
Proof. intros Hk. cbn [re_match_at]. now rewrite prefix_app, string_drop_app. Qed.

(** [class+] in front of a text on which it cannot go on, or on which going
    on leads nowhere: it takes the whole run [w] when the rest of the
    pattern matches there. *)
Lemma many1_run {A : Type} (class : ascii -> bool) (w tail : string)
    (k : string -> option A) (result : A) :
  string_forall class w = true -> w <> EmptyString ->
  many1 class tail k = None -> k tail = Some result ->
  many1 class (w +:+ tail) k = Some result.
Proof.
  intros Hall Hne Hstop Hk. induction w as [|c w IH]; [congruence|].
  cbn [string_forall] in Hall. apply andb_true_iff in Hall as [Hc Hall].
  change (String c w +:+ tail)%string with (String c (w +:+ tail)).
  cbn [many1]. rewrite Hc. destruct w as [|c' w].
  - change (EmptyString +:+ tail)%string with tail. now rewrite Hstop.
  - rewrite IH by (assumption || discriminate). reflexivity.
Qed.

Lemma group_many1_run (class : ascii -> bool) (w tail : string) (groups result : list string)
    (k : string -> list string -> option (list string)) :
  string_forall class w = true -> w <> EmptyString ->
  many1 class tail (fun rest => k rest (groups ++ [String.substring 0
     (String.length (w +:+ tail) - String.length rest) (w +:+ tail)])) = None ->
  k tail (groups ++ [w]) = Some result ->
  re_match_at (Group (Many1 class)) (w +:+ tail) groups k = Some result.
Proof.
  intros Hall Hne Hstop Hk. cbn [re_match_at].
  apply many1_run; try assumption.
  rewrite string_length_app, Nat.add_sub, substring_app. exact Hk.
Qed.

Lemma many1_stop {A : Type} (class : ascii -> bool) (c : ascii) (s : string)
    (k : string -> option A) :
  class c = false -> many1 class (String c s) k = None.
Proof. intros Hc. cbn [many1]. now rewrite Hc. Qed.

Lemma strip_fixed (e : string) : strip e = e -> lstrip e = e /\ rstrip e = e.
Proof.
  assert (Hr : forall s, (String.length (rstrip s) <= String.length s)%nat).
  { induction s as [|c s IH]; cbn [rstrip]; [reflexivity|].
    destruct (rstrip s); [destruct (is_space c)|]; cbn [String.length] in *; lia. }
  assert (Hl : forall s, (String.length (lstrip s) <= String.length s)%nat).
  { induction s as [|c s IH]; cbn [lstrip]; [reflexivity|].
    destruct (is_space c); cbn [String.length]; lia. }
  intros Hs. assert (Hle : lstrip e = e).
  { destruct e as [|c e]; [reflexivity|]. cbn [lstrip].
    destruct (is_space c) eqn:Hc; [|reflexivity].
    exfalso. unfold strip in Hs. cbn [lstrip] in Hs. rewrite Hc in Hs.
    pose proof (Hr (lstrip e)) as H1. pose proof (Hl e) as H2.
    rewrite Hs in H1. cbn [String.length] in H1. lia. }
  split; [exact Hle|]. unfold strip in Hs. now rewrite Hle in Hs.
Qed.

Lemma rstrip_app (p e : string) :
  e <> EmptyString -> rstrip e = e -> rstrip (p +:+ e) = (p +:+ e)%string.
Proof.
  intros Hne He. induction p as [|c p IH]; [exact He|].
  change (String c p +:+ e)%string with (String c (p +:+ e)).
  assert (Hpe : (p +:+ e)%string <> EmptyString).
  { destruct p; [exact Hne|discriminate]. }
  cbn [rstrip]. rewrite IH. destruct (p +:+ e)%string; [congruence|reflexivity].
Qed.

(** X18: a response with well-formed fields survives the trip through its
    text: for a rule made of digits, a valid situation, a valid action and a
    one-line explanation without surrounding blanks, [parse_response] gives
    back the response from the text that [enhanced_decision_making_llm]
    builds with the same format. *)
Theorem parse_format_round_trip (v : ValidatedResponse) :
  rule v <> EmptyString -> string_forall is_digit (rule v) = true ->
  situation_type v ∈ VALID_SITUATIONS -> action v ∈ VALID_ACTIONS ->
  explanation v <> EmptyString ->
  string_forall (fun c => negb (Ascii.eqb c "010")) (explanation v) = true ->
  strip (explanation v) = explanation v ->
  is_fallback v = false ->
  parse_response (format_response v) = Some v.
Proof.
  destruct v as [r s a e f]. cbn [rule situation_type action explanation is_fallback].
  intros Hr Hdigits Hs Ha He Hline Hstrip ->.
  destruct (strip_fixed e Hstrip) as [_ Hrstrip].
  assert (Hgroups : re_match response_pattern
                      ("Rule " +:+ r +:+ " (" +:+ s +:+ "), " +:+ "Action: " +:+ a +:+ ", "
                       +:+ "explanation: " +:+ e)%string
                    = Some [r; s; a; e]).
  { unfold re_match, response_pattern.
    change (re_match_at (Cat ?r1 ?r2) ?t ?g ?k)
      with (re_match_at r1 t g (fun rest groups' => re_match_at r2 rest groups' k)).
    apply lit_run.
    change (re_match_at (Cat ?r1 ?r2) ?t ?g ?k)
      with (re_match_at r1 t g (fun rest groups' => re_match_at r2 rest groups' k)).
    apply group_many1_run; [exact Hdigits|exact Hr|apply many1_stop; reflexivity|].
    change (re_match_at (Cat ?r1 ?r2) ?t ?g ?k)
      with (re_match_at r1 t g (fun rest groups' => re_match_at r2 rest groups' k)).
    apply lit_run.
    change (re_match_at (Cat ?r1 ?r2) ?t ?g ?k)
      with (re_match_at r1 t g (fun rest groups' => re_match_at r2 rest groups' k)).
    assert (Hsit : string_forall (fun c => is_word c || Ascii.eqb c "-") s = true
                   /\ s <> EmptyString).
    { unfold VALID_SITUATIONS in Hs.
      repeat (apply elem_of_cons in Hs as [->|Hs]; [split; [reflexivity|discriminate]|]).
      now apply elem_of_nil in Hs. }
    destruct Hsit as [Hsit Hsne].
    apply group_many1_run; [exact Hsit|exact Hsne|apply many1_stop; reflexivity|].
    change ("), " +:+ "Action: " +:+ ?t)%string with ("), Action: " +:+ t)%string.
    change (re_match_at (Cat ?r1 ?r2) ?t ?g ?k)
      with (re_match_at r1 t g (fun rest groups' => re_match_at r2 rest groups' k)).
    apply lit_run.
    change (re_match_at (Cat ?r1 ?r2) ?t ?g ?k)
      with (re_match_at r1 t g (fun rest groups' => re_match_at r2 rest groups' k)).
    assert (Hact : string_forall
                     (fun c => is_word c || is_space c || Ascii.eqb c "," || Ascii.eqb c "-")
                     a = true /\ a <> EmptyString).
    { unfold VALID_ACTIONS in Ha.
      repeat (apply elem_of_cons in Ha as [->|Ha]; [split; [reflexivity|discriminate]|]).
      now apply elem_of_nil in Ha. }
    destruct Hact as [Hact Hane].
    destruct e as [|c0 e]; [congruence|].
    apply group_many1_run; [exact Hact|exact Hane| |].
    - reflexivity.
    - change (", " +:+ "explanation: " +:+ ?t)%string with (", explanation: " +:+ t)%string.
      change (re_match_at (Cat ?r1 ?r2) ?t ?g ?k)
        with (re_match_at r1 t g (fun rest groups' => re_match_at r2 rest groups' k)).
      apply lit_run.
      rewrite <- (string_app_nil_r (String c0 e)) at 1.
      apply group_many1_run; [exact Hline|discriminate|reflexivity|reflexivity]. }
  unfold parse_response, format_response.
  cbn [rule situation_type action explanation is_fallback].
  assert (Hwhole : strip ("Rule " +:+ r +:+ " (" +:+ s +:+ "), " +:+ "Action: " +:+ a +:+ ", "
                          +:+ "explanation: " +:+ e)%string
                   = ("Rule " +:+ r +:+ " (" +:+ s +:+ "), " +:+ "Action: " +:+ a +:+ ", "
                      +:+ "explanation: " +:+ e)%string).
  { unfold strip.
    change (lstrip ("Rule " +:+ ?t)%string) with ("Rule " +:+ t)%string.
    rewrite <- !string_app_assoc. apply rstrip_app; assumption. }
  rewrite Hwhole, Hgroups.
  assert (Hlow : lower s = s).
  { unfold VALID_SITUATIONS in Hs.
    repeat (apply elem_of_cons in Hs as [->|Hs]; [reflexivity|]). now apply elem_of_nil in Hs. }
  assert (Hsa : strip a = a).
  { unfold VALID_ACTIONS in Ha.
    repeat (apply elem_of_cons in Ha as [->|Ha]; [reflexivity|]). now apply elem_of_nil in Ha. }
  rewrite Hlow, Hsa, Hstrip, !bool_decide_eq_true_2 by assumption. reflexivity.
Qed.

Lemma parse_format_round_trip_witness :
  parse_response
    "Rule 15 (crossing), Action: Stand on, no action, explanation: Low risk, target on port side"
  = Some {| rule := "15"; situation_type := "crossing"; action := "Stand on, no action";
            explanation := "Low risk, target on port side"; is_fallback := false |}.
Proof.
  apply (parse_format_round_trip
           {| rule := "15"; situation_type := "crossing"; action := "Stand on, no action";
              explanation := "Low risk, target on port side"; is_fallback := false |}).
  - discriminate.
  - reflexivity.
  - unfold VALID_SITUATIONS. rewrite !elem_of_cons. tauto.
  - unfold VALID_ACTIONS. rewrite !elem_of_cons. tauto.
  - discriminate.
  - reflexivity.
  - reflexivity.
  - reflexivity.
Defined.

(** ** The units of [Distance_ob] *)

Lemma loop_body_nmi (C : Components) (H : Hook) (args : Args) (sc : Scenario)
    (animated : bool) (i : nat) (s s' : St.Sim) :
  loop_body C H args sc animated i s = Returns s' ->
  St.x_nmi s' = map (fun xi => xi * (1 / 1852)) (St.x s') /\
  St.y_nmi s' = map (fun yi => yi * (1 / 1852)) (St.y s').
Proof.
  unfold loop_body. destruct animated.
  - unfold step_animated. cbv zeta.
    match goal with
    | |- context [llm_block ?h ?a ?k ?r ?d ?b ?dc ?tc ?kd] =>
        destruct (llm_block h a k r d b dc tc kd) as [Kdir'|err]
    end; [|discriminate].
    cbn [mbind outcome_bind bind].
    destruct (animate_step _ _ _) as [[]|err]; [|discriminate].
    cbn [mbind outcome_bind bind]. intros [= <-]. split; reflexivity.
  - unfold step_plain. cbv zeta.
    match goal with
    | |- context [llm_block ?h ?a ?k ?r ?d ?b ?dc ?tc ?kd] =>
        destruct (llm_block h a k r d b dc tc kd) as [Kdir'|err]
    end; [|discriminate].
    cbn [mbind outcome_bind bind]. intros [= <-]. split; reflexivity.
Qed.

(** From step 1 on, the risk analysis loop overwrites the distance of every
    obstacle with the distance, in metres, between the recorded positions. *)
Lemma risk_analysis_distance (C : Components) (animated : bool) (Ts : R)
    (x y V_x V_y : list R) (Xobs Yobs Vxobs Vyobs : list (list R))
    (i : nat) (js : list nat) (g : Geo) (j : nat) :
  (1 <= i)%nat -> NoDup js -> j ∈ js ->
  (i < length (Distance_ob g))%nat ->
  (forall j', j' ∈ js -> (j' < length (Distance_ob g !!! i))%nat) ->
  get2 (Distance_ob
          (foldl (fun g j => risk_analysis C animated Ts x y V_x V_y Xobs Yobs Vxobs Vyobs i j g)
                 g js)) i j
  = sqrt ((get2 Xobs i j - x !!! i) ^ 2 + (get2 Yobs i j - y !!! i) ^ 2).
Proof.
  intros Hi Hnodup Hin Hrows Hcols.
  apply (entry_loop_values
           (risk_analysis C animated Ts x y V_x V_y Xobs Yobs Vxobs Vyobs i) i
           (risk_analysis_touch C Ts x y V_x V_y Xobs Yobs Vxobs Vyobs animated i)
           (fun _ => True) F_Distance_ob
           (fun j => sqrt ((get2 Xobs i j - x !!! i) ^ 2 + (get2 Yobs i j - y !!! i) ^ 2)));
    try assumption; [|exact I].
  intros j' g' _. split; [exact I|].
  unfold risk_analysis, risk_analysis_animated, risk_analysis_plain.
  destruct animated; rewrite bool_decide_eq_true_2 by assumption; reflexivity.
Qed.

(** At step 0 the risk analysis loop leaves [Distance_ob] alone. *)
Lemma risk_analysis_distance_step0 (C : Components) (animated : bool) (Ts : R)
    (x y V_x V_y : list R) (Xobs Yobs Vxobs Vyobs : list (list R))
    (js : list nat) (g : Geo) :
  Distance_ob
    (foldl (fun g j => risk_analysis C animated Ts x y V_x V_y Xobs Yobs Vxobs Vyobs 0 j g) g js)
  = Distance_ob g.
Proof.
  destruct animated.
  - apply (risk_analysis_animated_step0 C Ts x y V_x V_y Xobs Yobs Vxobs Vyobs F_Distance_ob).
    discriminate.
  - now rewrite risk_analysis_plain_step0.
Qed.

(** The distances that [reactive_avoidance] returns, from the origin, for
    obstacle positions scaled to nautical miles. *)
Lemma ra_distance_ob_origin (obstacles : list obstacle) (psi t : R) :
  ra_distance_ob
    (reactive_avoidance
       (map (fun xo => xo * (1 / 1852)) (map (fun o : obstacle => o.1.1) obstacles))
       (map (fun yo => yo * (1 / 1852)) (map (fun o : obstacle => o.1.2) obstacles))
       (0 * (1 / 1852)) (0 * (1 / 1852)) psi t)
  = map (fun o : obstacle => sqrt (o.1.1 ^ 2 + o.1.2 ^ 2) / 1852) obstacles.
Proof.
  unfold reactive_avoidance, ra_distance_ob.
  induction obstacles as [|o obstacles IH]; [reflexivity|].
  cbn [map zip_with]. rewrite IH. f_equal.
  replace ((o.1.1 * (1 / 1852) - 0 * (1 / 1852)) ^ 2 + (o.1.2 * (1 / 1852) - 0 * (1 / 1852)) ^ 2)
    with ((o.1.1 ^ 2 + o.1.2 ^ 2) * (1 / 1852) ^ 2) by field.
  rewrite sqrt_mult_alt by nra.
  rewrite sqrt_pow2 by lra. field.
Qed.

Lemma map_lookup_total (f : R -> R) (l : list R) (i : nat) :
  (i < length l)%nat -> map f l !!! i = f (l !!! i).
Proof.
  intros Hi. destruct (lookup_lt_is_Some_2 l i Hi) as [a Ha].
  rewrite !list_lookup_total_alt, Ha.
  change (map f l) with (f <$> l). rewrite list_lookup_fmap, Ha. reflexivity.
Qed.

Lemma step_distance (C : Components) (H : Hook) (args : Args) (sc : Scenario)
    (animated : bool) (Nsteps n k : nat) (s s' : St.Sim) :
  shape_preserving C -> length (Vob sc) = n -> length (psiob sc) = n ->
  loop_body C H args sc animated k s = Returns s' ->
  length (St.Xob s) = n -> length (St.Yob s) = n ->
  geo_shape Nsteps n (St.geo s) -> (k < Nsteps)%nat ->
  (k = 0%nat ->
   Distance_ob (St.geo s') !!! 0%nat
   = ra_distance_ob (avoidance_call 0 (St.Xob s) (St.Yob s) (St.t s) s')) /\
  ((1 <= k)%nat -> forall j, (j < n)%nat ->
     get2 (Distance_ob (St.geo s')) k j
     = sqrt ((get2 (St.Xobs s') k j - St.x s' !!! k) ^ 2
             + (get2 (St.Yobs s') k j - St.y s' !!! k) ^ 2)) /\
  (forall r, r <> k -> Distance_ob (St.geo s') !!! r = Distance_ob (St.geo s) !!! r).
Proof.
  intros Hshape HV Hpsi Hstep HX HY Hg Hk.
  apply loop_body_facts in Hstep as Hf.
  assert (Hobs : length (St.Xob s') = n /\ length (St.Yob s') = n)
    by (eapply (step_obstacles C H args sc animated n Hshape); eassumption).
  assert (Hg0 : geo_shape Nsteps n
                  (set_Distance_ob_row k
                     (ra_distance_ob (avoidance_call k (St.Xob s) (St.Yob s) (St.t s) s'))
                     (St.geo s)))
    by (eapply (step_distance_row_shape sc Nsteps n); eassumption).
  destruct (Hg0 F_Distance_ob) as [Hlen Hrows]. cbn [geo_get] in Hlen, Hrows.
  split; [|split].
  - intros ->. rewrite (sf_geo _ _ _ _ _ _ _ _ Hf), risk_analysis_distance_step0.
    cbn [set_Distance_ob_row Distance_ob].
    apply list_lookup_total_insert_eq.
    destruct (Hg F_Distance_ob) as [Hlen0 _]. cbn [geo_get] in Hlen0. lia.
  - intros Hk1 j Hj. rewrite (sf_geo _ _ _ _ _ _ _ _ Hf).
    apply risk_analysis_distance; [exact Hk1|apply NoDup_seq| | |].
    + apply elem_of_seq. lia.
    + lia.
    + intros j' Hj'. apply elem_of_seq in Hj'. rewrite Hrows by assumption. lia.
  - intros r Hr. exact (step_geo_frame _ _ _ _ _ _ _ _ Hf F_Distance_ob r Hr).
Qed.

(** The invariant of the loop on [Distance_ob]. *)
Lemma loop_distance (C : Components) (H : Hook) (args : Args) (sc : Scenario)
    (animated : bool) (Nsteps : nat) (obstacles : list obstacle) (sf : St.Sim) :
  shape_preserving C ->
  length (Vob sc) = length obstacles -> length (psiob sc) = length obstacles ->
  for_each (loop_body C H args sc animated) (seq 0 Nsteps)
    (initial_state Nsteps (map (fun o : obstacle => o.1.1) obstacles)
                   (map (fun o : obstacle => o.1.2) obstacles)) = Returns sf ->
  ((0 < Nsteps)%nat ->
   Distance_ob (St.geo sf) !!! 0%nat
   = map (fun o : obstacle => sqrt (o.1.1 ^ 2 + o.1.2 ^ 2) / 1852) obstacles) /\
  (forall i j, (1 <= i < Nsteps)%nat -> (j < length obstacles)%nat ->
     get2 (Distance_ob (St.geo sf)) i j
     = sqrt ((get2 (St.Xobs sf) i j - St.x sf !!! i) ^ 2
             + (get2 (St.Yobs sf) i j - St.y sf !!! i) ^ 2)).
Proof.
  intros Hshape HV Hpsi Hrun.
  set (n := length obstacles) in *.
  set (Xob0 := map (fun o : obstacle => o.1.1) obstacles) in *.
  set (Yob0 := map (fun o : obstacle => o.1.2) obstacles) in *.
  pose (Inv := fun (k : nat) (s : St.Sim) =>
    (length (St.Xob s) = n /\ length (St.Yob s) = n /\ geo_shape Nsteps n (St.geo s) /\
     length (St.x s) = Nsteps /\ length (St.y s) = Nsteps) /\
    (k = 0%nat -> St.Xob s = Xob0 /\ St.Yob s = Yob0 /\
                  St.X s !!! 0%nat = 0 /\ St.X s !!! 1%nat = 0) /\
    ((1 <= k)%nat ->
     Distance_ob (St.geo s) !!! 0%nat
     = map (fun o : obstacle => sqrt (o.1.1 ^ 2 + o.1.2 ^ 2) / 1852) obstacles) /\
    (forall i j, (1 <= i < k)%nat -> (j < n)%nat ->
       get2 (Distance_ob (St.geo s)) i j
       = sqrt ((get2 (St.Xobs s) i j - St.x s !!! i) ^ 2
               + (get2 (St.Yobs s) i j - St.y s !!! i) ^ 2))).
  assert (Hfinal : Inv Nsteps sf).
  { apply (for_each_seq_invariant (loop_body C H args sc animated) Inv Nsteps)
      with (s0 := initial_state Nsteps Xob0 Yob0); [| |exact Hrun].
    - clear sf Hrun.
      intros k s s' Hk ((HX & HY & Hg & Hx & Hy) & Hfirst & Hrow0 & Hrec) Hstep.
      destruct (step_distance C H args sc animated Nsteps n k s s'
                  Hshape HV Hpsi Hstep HX HY Hg Hk) as (Hzero & Hnew & Hframe).
      apply loop_body_nmi in Hstep as Hnmi. destruct Hnmi as [Exn Eyn].
      apply loop_body_facts in Hstep as Hf.
      pose proof (sf_x _ _ _ _ _ _ _ _ Hf) as Ex.
      pose proof (sf_y _ _ _ _ _ _ _ _ Hf) as Ey.
      split; [|split; [|split]].
      + assert (Hobs : length (St.Xob s') = n /\ length (St.Yob s') = n)
          by (eapply (step_obstacles C H args sc animated n Hshape); eassumption).
        destruct Hobs. split; [assumption|]. split; [assumption|]. split; [|split].
        * eapply (step_shape C H args sc animated Nsteps n); eassumption.
        * rewrite Ex, length_insert. exact Hx.
        * rewrite Ey, length_insert. exact Hy.
      + intros Habs. lia.
      + intros _. destruct (decide (k = 0%nat)) as [->|Hk0].
        * destruct (Hfirst eq_refl) as (EX & EY & EX0 & EX1).
          rewrite (Hzero eq_refl). unfold avoidance_call.
          rewrite Exn, Eyn, !map_lookup_total by (rewrite ?Ex, ?Ey, length_insert; lia).
          rewrite Ex, Ey, !list_lookup_total_insert_eq by lia.
          rewrite EX, EY, EX0, EX1. apply ra_distance_ob_origin.
        * rewrite Hframe by lia. apply Hrow0. lia.
      + intros i j Hi Hj. destruct (decide (i = k)) as [->|Hne].
        * apply Hnew; [lia|exact Hj].
        * unfold get2. rewrite Hframe by exact Hne.
          rewrite (sf_Xobs _ _ _ _ _ _ _ _ Hf), (sf_Yobs _ _ _ _ _ _ _ _ Hf), Ex, Ey.
          rewrite !list_lookup_total_insert_ne by congruence.
          apply Hrec; [lia|exact Hj].
    - split; [|split; [|split]].
      + subst Xob0 Yob0 n.
        split; [cbn; apply length_map|]. split; [cbn; apply length_map|].
        split; [apply initial_state_shape, length_map|].
        cbn. unfold zeros. rewrite !repeat_length. split; reflexivity.
      + intros _. cbn. unfold radians. repeat split; reflexivity.
      + intros Habs. lia.
      + intros i j Hi. lia. }
  destruct Hfinal as (_ & _ & Hrow0 & Hrec).
  split; [intros HN; apply Hrow0; lia|exact Hrec].
Qed.

(** X19: [Distance_ob] mixes two units.  Row 0 holds what
    [reactive_avoidance] returned at step 0, the distance in nautical miles
    from the origin to each obstacle's initial position; every later row is
    overwritten by the risk analysis with a distance in metres, between the
    own position recorded at step [i] and the obstacle position recorded at
    step [i], which is the obstacle's position after that step. *)
Theorem distance_ob_units (C : Components) (H : Hook) (args : Args) (sf : St.Sim) :
  shape_preserving C ->
  simulate C H args = Returns sf ->
  let obstacles := get_obstacles (case_number args) in
  ((0 < length (St.x sf))%nat ->
   Distance_ob (St.geo sf) !!! 0%nat
   = map (fun o : obstacle => sqrt (o.1.1 ^ 2 + o.1.2 ^ 2) / 1852) obstacles) /\
  (forall i j, (1 <= i < length (St.x sf))%nat -> (j < length obstacles)%nat ->
     get2 (Distance_ob (St.geo sf)) i j
     = sqrt ((get2 (St.Xobs sf) i j - St.x sf !!! i) ^ 2
             + (get2 (St.Yobs sf) i j - St.y sf !!! i) ^ 2)).
Proof.
  intros Hshape Hrun obstacles.
  apply simulate_returns in Hrun as (sc & _ & HVob & Hpsiob & _ & Hloop). cbv zeta in *.
  pose proof (loop_x_length _ _ _ _ _ _ _ _ Hloop) as Hx.
  match type of Hloop with
  | for_each _ _ (initial_state ?n ?Xob ?Yob) = _ =>
      destruct (initial_state_lengths n Xob Yob) as (Hx0 & _)
  end.
  rewrite Hx, Hx0.
  apply (loop_distance C H args sc (negb (no_animation args)) (N sc) obstacles sf Hshape);
    [| |exact Hloop].
  - rewrite HVob. apply repeat_length.
  - rewrite Hpsiob. apply length_map.
Qed.

Lemma distance_ob_units_witness :
  Distance_ob (St.geo (final_state (simulate still_components absent_hook short_run_args)))
    !!! 0%nat
  = [sqrt (nautical_to_meters 6 ^ 2 + nautical_to_meters 0 ^ 2) / 1852].
Proof.
  pose proof (short_run_final_plain _ absent_hook_answers) as Hrun.
  destruct (distance_ob_units _ _ _ _ still_components_shape Hrun) as [Hrow0 _].
  rewrite Hrow0.
  - cbn [case_number short_run_args]. rewrite case_1_obstacles. reflexivity.
  - destruct (short_run_steps _ true _ Hrun) as (-> & _). lia.
Defined.

(** ** [zmf] with radii in the wrong order *)

(** X20: with the radii equal or in the wrong order ([b <= a]) the two
    quadratic pieces of [zmf] are never selected, so no division by
    [b - a] takes effect: the result is the step function that is 1 up to
    [a] and 0 beyond. *)
Theorem zmf_reversed_radii (x : list R) (a b : R) :
  b <= a -> zmf x a b = map (fun xi => if decide (xi <= a) then 1 else 0) x.
Proof.
  intros Hba. rewrite zmf_map. apply map_ext. intros xi. unfold zmf_at.
  destruct (decide (xi <= a)) as [Hle|Hgt].
  - rewrite (bool_decide_eq_true_2 (xi <= a)) by exact Hle.
    rewrite (bool_decide_eq_false_2 (a < xi)) by lra. cbn [andb].
    destruct (bool_decide ((a + b) / 2 <= xi)) eqn:Hmid; [|reflexivity].
    apply bool_decide_eq_true_1 in Hmid.
    rewrite (bool_decide_eq_false_2 (xi < b)) by lra. reflexivity.
  - rewrite (bool_decide_eq_false_2 (xi <= a)) by exact Hgt.
    rewrite (bool_decide_eq_false_2 (xi < (a + b) / 2)) by lra.
    rewrite (bool_decide_eq_false_2 (xi < b)) by lra.
    rewrite !andb_false_r. reflexivity.
Qed.

Lemma zmf_reversed_radii_witness : zmf [0; 2] 1 1 = [1; 0].
Proof.
  rewrite zmf_reversed_radii by lra. cbn [map].
  rewrite decide_True by lra. rewrite decide_False by lra. reflexivity.
Defined.

(** ** The first heading command of the predefined cases *)

(** Every obstacle of the table starts at least 2.7 nautical miles ahead of
    the origin. *)
Lemma obstacles_start_ahead (n : Z) :
  Forall (fun o : obstacle => nautical_to_meters 2.7 <= o.1.1) (get_obstacles n).
Proof.
  unfold get_obstacles.
  destruct (obstacle_cases !! case_key n) as [l|] eqn:Hl; [|constructor].
  cbn [default]. unfold obstacle_cases in Hl.
  apply elem_of_list_to_map_2 in Hl.
  repeat match goal with
  | Hin : _ ∈ _ :: _ |- _ => apply elem_of_cons in Hin as [Hin|Hin]
  | Hin : _ ∈ [] |- _ => now apply elem_of_nil in Hin
  end;
  apply (f_equal snd) in Hl; cbn [snd] in Hl; subst l;
  repeat constructor; cbn [fst snd ob]; unfold nautical_to_meters; lra.
Qed.

Lemma ra_psi_oa_far (obstacles : list obstacle) (psi t : R) :
  Forall (fun o : obstacle => nautical_to_meters 2.7 <= o.1.1) obstacles ->
  ra_psi_oa
    (reactive_avoidance
       (map (fun xo => xo * (1 / 1852)) (map (fun o : obstacle => o.1.1) obstacles))
       (map (fun yo => yo * (1 / 1852)) (map (fun o : obstacle => o.1.2) obstacles))
       (0 * (1 / 1852)) (0 * (1 / 1852)) psi t) = 0.
Proof.
  intros Hfar.
  pose (obs := map (fun o : obstacle => (o.1.1 * (1 / 1852), o.1.2 * (1 / 1852))) obstacles).
  replace (map (fun xo => xo * (1 / 1852)) (map (fun o : obstacle => o.1.1) obstacles))
    with (map fst obs) by (subst obs; rewrite !map_map; reflexivity).
  replace (map (fun yo => yo * (1 / 1852)) (map (fun o : obstacle => o.1.2) obstacles))
    with (map snd obs) by (subst obs; rewrite !map_map; reflexivity).
  rewrite ra_psi_oa_bias. unfold FieldSpec.bias.
  assert (Hzero : FieldSpec.weighted_sum (0 * (1 / 1852)) (0 * (1 / 1852)) psi obs = 0); [|lra].
  apply weighted_sum_zero. subst obs. apply Forall_map.
  eapply Forall_impl; [exact Hfar|]. intros o Ho. cbn beta in *.
  unfold FieldSpec.distance, ra_b, nautical_to_meters in *. cbn [fst snd].
  apply Rle_trans with (sqrt ((o.1.1 * (1 / 1852)) ^ 2)).
  - rewrite sqrt_pow2 by lra. lra.
  - apply sqrt_le_1_alt. nra.
Qed.

(** X21: no predefined encounter starts inside the avoidance range: every
    obstacle of the table starts at least 2.7 nautical miles ahead, beyond
    the outer radius, so in every run the avoidance bias of step 0 is 0 and
    the first heading command is the waypoint heading alone. *)
Theorem first_step_without_avoidance (C : Components) (H : Hook) (args : Args) (sf : St.Sim) :
  simulate C H args = Returns sf -> (0 < length (St.x sf))%nat ->
  Forall (fun o : obstacle => nautical_to_meters 2.7 <= o.1.1)
         (get_obstacles (case_number args)) /\
  St.psi_oa sf !!! 0%nat = 0 /\ St.psi_p sf !!! 0%nat = St.psi_wp sf !!! 0%nat.
Proof.
  intros Hrun HN.
  pose proof (obstacles_start_ahead (case_number args)) as Hfar.
  split; [exact Hfar|].
  destruct (simulate_lengths _ _ _ _ Hrun) as (n & _ & Hxn & _ & _ & Hpn & _ & Hoan).
  destruct (simulate_heading C H args sf Hrun) as [Hhead _].
  assert (Hoa : St.psi_oa sf !!! 0%nat = 0).
  { apply simulate_returns in Hrun as (sc & _ & _ & _ & _ & Hloop). cbv zeta in *.
    pose proof (loop_x_length _ _ _ _ _ _ _ _ Hloop) as Hx.
    match type of Hloop with
    | for_each _ _ (initial_state ?n ?Xob ?Yob) = _ =>
        destruct (initial_state_lengths n Xob Yob) as (Hx0 & Hy0 & _ & _ & _ & Hoa0 & _)
    end.
    rewrite Hx0 in Hx.
    set (obstacles := get_obstacles (case_number args)) in *.
    set (s0 := initial_state (N sc) _ _) in *.
    pose (Inv := fun (k : nat) (s : St.Sim) =>
      (length (St.x s) = N sc /\ length (St.y s) = N sc /\ length (St.psi_oa s) = N sc) /\
      (k = 0%nat -> St.Xob s = St.Xob s0 /\ St.Yob s = St.Yob s0 /\
                    St.X s !!! 0%nat = 0 /\ St.X s !!! 1%nat = 0) /\
      ((1 <= k)%nat -> St.psi_oa s !!! 0%nat = 0)).
    assert (Hfinal : Inv (N sc) sf).
    { apply (for_each_seq_invariant (loop_body C H args sc (negb (no_animation args)))
               Inv (N sc)) with (s0 := s0); [| |exact Hloop].
      - intros k s s' Hk ((Hxs & Hys & Hoas) & Hfirst & Hzero) Hstep.
        apply loop_body_nmi in Hstep as Hnmi. destruct Hnmi as [Exn Eyn].
        apply loop_body_facts in Hstep as Hf.
        pose proof (sf_x _ _ _ _ _ _ _ _ Hf) as Ex.
        pose proof (sf_y _ _ _ _ _ _ _ _ Hf) as Ey.
        pose proof (sf_psi_oa _ _ _ _ _ _ _ _ Hf) as Eoa.
        split; [|split].
        + rewrite Ex, Ey, Eoa, !length_insert. tauto.
        + intros Habs. lia.
        + intros _. rewrite Eoa. destruct (decide (k = 0%nat)) as [->|Hk0].
          * rewrite list_lookup_total_insert_eq by lia.
            destruct (Hfirst eq_refl) as (EX & EY & EX0 & EX1).
            unfold avoidance_call.
            rewrite Exn, Eyn, !map_lookup_total by (rewrite ?Ex, ?Ey, length_insert; lia).
            rewrite Ex, Ey, !list_lookup_total_insert_eq by lia.
            rewrite EX, EY, EX0, EX1. subst s0. cbn [initial_state St.Xob St.Yob].
            apply ra_psi_oa_far. exact Hfar.
          * rewrite list_lookup_total_insert_ne by lia. apply Hzero. lia.
      - split; [|split].
        + repeat split; assumption.
        + intros _. subst s0. cbn. unfold radians. repeat split; reflexivity.
        + intros Habs. lia. }
    destruct Hfinal as (_ & _ & Hzero). apply Hzero. lia. }
  split; [exact Hoa|]. rewrite Hhead by lia. rewrite Hoa. lra.
Qed.

Lemma first_step_without_avoidance_witness :
  St.psi_oa (final_state (simulate still_components absent_hook short_run_args)) !!! 0%nat = 0.
Proof.
  pose proof (short_run_final_plain _ absent_hook_answers) as Hrun.
  refine (proj1 (proj2 (first_step_without_avoidance _ _ _ _ Hrun _))).
  destruct (short_run_steps _ true _ Hrun) as (-> & _). lia.
Defined.

(** ** [multi_llm_decision.py]: which provider answers *)

Lemma OpenAIProvider_init_returns (W : World) (model : string) (temperature : R)
    (max_tokens : Z) (p : OpenAIProvider) :
  OpenAIProvider_init W model temperature max_tokens = Returns p ->
  openai_model p = model /\ openai_temperature p = temperature /\
  openai_max_tokens p = max_tokens /\
  (openai_is_available W = true -> is_Some (openai_client p)).
Proof.
  unfold OpenAIProvider_init.
  destruct (OPENAI_AVAILABLE W && openai_is_available W) eqn:Hav.
  - destruct (ChatOpenAI W model temperature max_tokens) as [client|e]; [|discriminate].
    cbn [mbind outcome_bind bind]. intros [= <-]. cbn. repeat split. intros _. eexists; reflexivity.
  - intros [= <-]. cbn. repeat split. intros Hok.
    unfold openai_is_available in *. apply andb_true_iff in Hok as [Hlib Hkey].
    rewrite Hlib, Hkey in Hav. discriminate.
Qed.

Lemma ClaudeProvider_init_returns (W : World) (model : string) (temperature : R)
    (max_tokens : Z) (p : ClaudeProvider) :
  ClaudeProvider_init W model temperature max_tokens = Returns p ->
  claude_model p = model /\ claude_temperature p = temperature /\
  claude_max_tokens p = max_tokens /\
  (claude_is_available W = true -> is_Some (claude_client p)).
Proof.
  unfold ClaudeProvider_init.
  destruct (ANTHROPIC_AVAILABLE W && claude_is_available W) eqn:Hav.
  - destruct (Anthropic W (getenv W "CLAUDE_API_KEY")) as [client|e]; [|discriminate].
    cbn [mbind outcome_bind bind]. intros [= <-]. cbn. repeat split. intros _. eexists; reflexivity.
  - intros [= <-]. cbn. repeat split. intros Hok.
    unfold claude_is_available in *. apply andb_true_iff in Hok as [Hlib Hkey].
    rewrite Hlib, Hkey in Hav. discriminate.
Qed.

(** The outcome of [_initialize_provider], case by case. *)
Lemma provider_selection_cases (W : World) (provider_name : string)
    (chosen : option AnyProvider) :
  _initialize_provider W provider_name = Returns chosen ->
  match chosen with
  | Some (OpenAI p) =>
      openai_is_available W = true /\ is_Some (openai_client p) /\
      ((lower provider_name = "openai"%string /\
        openai_model p = getenv_default W "OPENAI_MODEL" "gpt-4") \/
       (lower provider_name = "claude"%string /\ claude_is_available W = false /\
        openai_model p = "gpt-4"%string /\ openai_temperature p = 0.1 /\
        openai_max_tokens p = 500%Z))
  | Some (Claude p) =>
      claude_is_available W = true /\ is_Some (claude_client p) /\
      ((lower provider_name = "claude"%string /\
        claude_model p = getenv_default W "CLAUDE_MODEL" "claude-sonnet-4-20250514") \/
       (lower provider_name <> "claude"%string /\
        (lower provider_name = "openai"%string -> openai_is_available W = false) /\
        claude_model p = "claude-sonnet-4-20250514"%string /\ claude_temperature p = 0.1 /\
        claude_max_tokens p = 500%Z))
  | None =>
      claude_is_available W = false /\
      (lower provider_name = "openai"%string \/ lower provider_name = "claude"%string ->
       openai_is_available W = false)
  end.
Proof.
  unfold _initialize_provider.
  destruct (String.eqb (lower provider_name) "openai") eqn:Hopenai.
  - apply String.eqb_eq in Hopenai.
    assert (Hnc : String.eqb (lower provider_name) "claude" = false)
      by (rewrite Hopenai; reflexivity).
    rewrite Hnc.
    destruct (py_float W _) as [t|e]; [|discriminate]. cbn [mbind outcome_bind bind].
    destruct (py_int W _) as [k|e]; [|discriminate]. cbn [mbind outcome_bind bind].
    destruct (OpenAIProvider_init W _ t k) as [p|e] eqn:Hp; [|discriminate].
    cbn [mbind outcome_bind bind].
    apply OpenAIProvider_init_returns in Hp as (Hm & _ & _ & Hclient).
    destruct (openai_is_available W) eqn:Hoa.
    + intros [= <-]. split; [reflexivity|]. split; [now apply Hclient|]. left. now split.
    + destruct (ClaudeProvider_init W _ _ _) as [q|e] eqn:Hq; [|discriminate].
      cbn [mbind outcome_bind bind].
      apply ClaudeProvider_init_returns in Hq as (Hqm & Hqt & Hqk & Hqclient).
      destruct (claude_is_available W) eqn:Hca; intros [= <-].
      * split; [reflexivity|]. split; [now apply Hqclient|]. right.
        split; [rewrite Hopenai; discriminate|]. repeat split; auto.
      * split; [reflexivity|]. intros _. reflexivity.
  - destruct (String.eqb (lower provider_name) "claude") eqn:Hclaude.
    + apply String.eqb_eq in Hclaude.
      destruct (py_float W _) as [t|e]; [|discriminate]. cbn [mbind outcome_bind bind].
      destruct (py_int W _) as [k|e]; [|discriminate]. cbn [mbind outcome_bind bind].
      destruct (ClaudeProvider_init W _ t k) as [q|e] eqn:Hq; [|discriminate].
      cbn [mbind outcome_bind bind].
      apply ClaudeProvider_init_returns in Hq as (Hqm & _ & _ & Hqclient).
      destruct (claude_is_available W) eqn:Hca.
      * intros [= <-]. split; [reflexivity|]. split; [now apply Hqclient|]. left. now split.
      * destruct (OpenAIProvider_init W _ _ _) as [p|e] eqn:Hp; [|discriminate].
        cbn [mbind outcome_bind bind].
        apply OpenAIProvider_init_returns in Hp as (Hm & Ht & Hk & Hclient).
        destruct (openai_is_available W) eqn:Hoa; intros [= <-].
        -- split; [reflexivity|]. split; [now apply Hclient|]. right. repeat split; auto.
        -- split; [reflexivity|]. intros _. reflexivity.
    + apply String.eqb_neq in Hopenai, Hclaude. cbn [mbind outcome_bind bind].
      destruct (ClaudeProvider_init W _ _ _) as [q|e] eqn:Hq; [|discriminate].
      cbn [mbind outcome_bind bind].
      apply ClaudeProvider_init_returns in Hq as (Hqm & Hqt & Hqk & Hqclient).
      destruct (claude_is_available W) eqn:Hca; intros [= <-].
      * split; [reflexivity|]. split; [now apply Hqclient|]. right.
        split; [exact Hclaude|]. split; [intros Habs; contradiction|]. repeat split; auto.
      * split; [reflexivity|]. intros [Habs|Habs]; contradiction.
Qed.

(** X22: which provider [_initialize_provider] selects, when it returns.
    The requested provider is used when its library and key are there, with
    the settings of the environment; otherwise the other one is used with
    the default settings (model, temperature 0.1, 500 tokens).  A name other
    than "openai" and "claude" only ever gets Claude: with just an OpenAI
    key the interpreter stays without provider.  A selected provider always
    has a client. *)
Theorem provider_selection (W : World) (provider_name : string) (chosen : option AnyProvider) :
  _initialize_provider W provider_name = Returns chosen ->
  match chosen with
  | Some (OpenAI p) =>
      openai_is_available W = true /\ is_Some (openai_client p) /\
      ((lower provider_name = "openai"%string /\
        openai_model p = getenv_default W "OPENAI_MODEL" "gpt-4") \/
       (lower provider_name = "claude"%string /\ claude_is_available W = false /\
        openai_model p = "gpt-4"%string /\ openai_temperature p = 0.1 /\
        openai_max_tokens p = 500%Z))
  | Some (Claude p) =>
      claude_is_available W = true /\ is_Some (claude_client p) /\
      ((lower provider_name = "claude"%string /\
        claude_model p = getenv_default W "CLAUDE_MODEL" "claude-sonnet-4-20250514") \/
       (lower provider_name <> "claude"%string /\
        (lower provider_name = "openai"%string -> openai_is_available W = false) /\
        claude_model p = "claude-sonnet-4-20250514"%string /\ claude_temperature p = 0.1 /\
        claude_max_tokens p = 500%Z))
  | None =>
      claude_is_available W = false /\
      (lower provider_name = "openai"%string \/ lower provider_name = "claude"%string ->
       openai_is_available W = false)
  end.
Proof. apply provider_selection_cases. Qed.

Lemma provider_selection_witness :
  _initialize_provider openai_only_world "gpt" = Returns None /\
  claude_is_available openai_only_world = false.
Proof.
  assert (Hrun : _initialize_provider openai_only_world "gpt" = Returns None)
    by (vm_compute; reflexivity).
  split; [exact Hrun|].
  exact (proj1 (provider_selection openai_only_world "gpt" None Hrun)).
Defined.

(** X23: an answer of the substitute provider carries the requested name.
    When "claude" is asked for without a usable Claude key and OpenAI is
    available, the interpreter is built on the OpenAI client with the
    default settings, keeps the name that was asked for, and [make_decision]
    returns the OpenAI answer behind the tag of the requested name. *)
Theorem fallback_keeps_requested_name (W : World) (name : string) (t : R) (k : Z)
    (client : string -> outcome string) (H : Hook) (v : VesselState)
    (vs : list VesselState) (time_idx : Z) :
  lower name = "claude"%string ->
  claude_is_available W = false -> openai_is_available W = true ->
  py_float W (getenv_default W "CLAUDE_TEMPERATURE" "0.1") = Returns t ->
  py_int W (getenv_default W "CLAUDE_MAX_TOKENS" "50") = Returns k ->
  ChatOpenAI W "gpt-4" 0.1 500 = Returns client ->
  exists itp,
    MultiLLMCOLREGSInterpreter_init W (Some name) = Returns itp /\
    provider_name itp = name /\
    make_decision H itp (v :: vs) time_idx
    = (("[" +:+ upper name +:+ "] ")
       +:+ openai_generate_response W
             {| openai_model := "gpt-4"; openai_temperature := 0.1;
                openai_max_tokens := 500; openai_client := Some client |}
             (system_prompt +:+ newline +:+ newline
              +:+ format_situation_description H (v :: vs)))%string.
Proof.
  intros Hname Hclaude Hopenai Hfloat Hint Hclient.
  assert (Hne : exists c s, name = String c s).
  { destruct name as [|c s]; [discriminate|]. eauto. }
  destruct Hne as (c & s & ->).
  assert (Hlib : OPENAI_AVAILABLE W = true).
  { unfold openai_is_available in Hopenai. now apply andb_true_iff in Hopenai as [? _]. }
  unfold MultiLLMCOLREGSInterpreter_init, _initialize_provider.
  rewrite Hname. change (String.eqb "claude" "openai") with false.
  change (String.eqb "claude" "claude") with true.
  rewrite Hfloat, Hint. cbn [mbind outcome_bind bind].
  unfold ClaudeProvider_init, OpenAIProvider_init.
  rewrite Hclaude, Hopenai, Hlib, andb_false_r. cbn [mbind outcome_bind bind andb].
  rewrite Hclient. cbn [mbind outcome_bind bind].
  eexists. split; [reflexivity|]. split; reflexivity.
Qed.

Lemma fallback_keeps_requested_name_witness :
  exists itp,
    MultiLLMCOLREGSInterpreter_init openai_only_world (Some "Claude"%string) = Returns itp /\
    provider_name itp = "Claude"%string.
Proof.
  destruct (fallback_keeps_requested_name openai_only_world "Claude" 0.1 50
              (fun _ => Returns "Stand on, no action"%string) keyless_hook
              {| vs_risk := 0; vs_distance := 0; vs_bearing := 0; vs_dcpa := 0; vs_tcpa := 0 |}
              [] 0) as (itp & Hitp & Hname & _);
    try (vm_compute; reflexivity).
  exists itp. split; assumption.
Defined.

(** Without a usable key the interpreter is built without provider. *)
Lemma interpreter_without_keys (W : World) (requested : option string)
    (itp : MultiLLMCOLREGSInterpreter) :
  openai_is_available W = false -> claude_is_available W = false ->
  MultiLLMCOLREGSInterpreter_init W requested = Returns itp ->
  provider itp = None.
Proof.
  intros Hoa Hca. unfold MultiLLMCOLREGSInterpreter_init.
  destruct (_initialize_provider W _) as [chosen|e] eqn:Hinit; [|discriminate].
  cbn [mbind outcome_bind bind]. intros [= <-]. cbn [provider].
  apply provider_selection_cases in Hinit.
  destruct chosen as [[p|p]|]; [| |reflexivity].
  - destruct Hinit as (Habs & _). congruence.
  - destruct Hinit as (Habs & _). congruence.
Qed.

(** Without a usable key the construction of the interpreter returns as soon
    as [float] and [int] accept the settings of the requested provider. *)
Lemma keyless_interpreter_returns (W : World) (requested : option string) :
  openai_is_available W = false -> claude_is_available W = false ->
  let name := requested_name W requested in
  (lower name = "openai"%string ->
   exists t k, py_float W (getenv_default W "OPENAI_TEMPERATURE" "0.1") = Returns t /\
               py_int W (getenv_default W "OPENAI_MAX_TOKENS" "50") = Returns k) ->
  (lower name = "claude"%string ->
   exists t k, py_float W (getenv_default W "CLAUDE_TEMPERATURE" "0.1") = Returns t /\
               py_int W (getenv_default W "CLAUDE_MAX_TOKENS" "50") = Returns k) ->
  exists itp, MultiLLMCOLREGSInterpreter_init W requested = Returns itp.
Proof.
  intros Hoa Hca name Hopenai Hclaude.
  unfold MultiLLMCOLREGSInterpreter_init. fold (requested_name W requested). fold name.
  cbv zeta.
  assert (Hinit : exists chosen, _initialize_provider W name = Returns chosen).
  { unfold _initialize_provider, OpenAIProvider_init, ClaudeProvider_init.
    rewrite Hoa, Hca, !andb_false_r.
    destruct (String.eqb (lower name) "openai") eqn:Eo.
    - apply String.eqb_eq in Eo. destruct (Hopenai Eo) as (t & k & -> & ->).
      rewrite Eo. change (String.eqb "openai" "claude") with false.
      cbn [mbind outcome_bind bind]. eexists. reflexivity.
    - destruct (String.eqb (lower name) "claude") eqn:Ec.
      + apply String.eqb_eq in Ec. destruct (Hclaude Ec) as (t & k & -> & ->).
        cbn [mbind outcome_bind bind]. eexists. reflexivity.
      + cbn [mbind outcome_bind bind]. eexists. reflexivity. }
  destruct Hinit as [chosen ->]. cbn [mbind outcome_bind bind]. eexists. reflexivity.
Qed.

(** A setting of the requested provider that [float] refuses makes the
    construction of the interpreter raise, keys or no keys. *)
Lemma malformed_temperature_raises (W : World) (requested : option string) (e : exn) :
  lower (requested_name W requested) = "openai"%string ->
  py_float W (getenv_default W "OPENAI_TEMPERATURE" "0.1") = Raises e ->
  MultiLLMCOLREGSInterpreter_init W requested = Raises e.
Proof.
  intros Hname Hfloat.
  unfold MultiLLMCOLREGSInterpreter_init. fold (requested_name W requested). cbv zeta.
  unfold _initialize_provider. rewrite Hname.
  change (String.eqb "openai" "openai") with true. cbv iota.
  rewrite Hfloat. reflexivity.
Qed.

(** X24: asking for the language model without a usable key.  With
    [--llm 1], the interpreter importable and neither provider available,
    the run is not stopped as long as [float] and [int] accept the settings
    of the requested provider: it returns, with the directive 0 in [Kdir] at
    every step that is a multiple of 200 and 1 at every other step.  A
    temperature that [float] refuses stops a run of at least one step with
    an exception, because the settings are parsed before the keys are looked
    at and nothing catches the error. *)
Theorem run_without_keys (C : Components) (W : World)
    (format : list VesselState -> string) (args : Args) (init : Scenario * St.Sim) :
  shape_preserving C ->
  setup args = Returns init ->
  (length (get_obstacles (case_number args)) <= 3)%nat ->
  openai_is_available W = false -> claude_is_available W = false ->
  llm args = 1%Z ->
  let name := requested_name W (llm_provider args) in
  ((lower name = "openai"%string ->
    exists t k, py_float W (getenv_default W "OPENAI_TEMPERATURE" "0.1") = Returns t /\
                py_int W (getenv_default W "OPENAI_MAX_TOKENS" "50") = Returns k) ->
   (lower name = "claude"%string ->
    exists t k, py_float W (getenv_default W "CLAUDE_TEMPERATURE" "0.1") = Returns t /\
                py_int W (getenv_default W "CLAUDE_MAX_TOKENS" "50") = Returns k) ->
   exists sf,
     simulate C (world_hook W true format) args = Returns sf /\
     forall i, (i < length (St.Kdir sf))%nat ->
               St.Kdir sf !!! i = if decide (i mod 200 = 0)%nat then 0 else 1) /\
  (forall e,
     lower name = "openai"%string ->
     py_float W (getenv_default W "OPENAI_TEMPERATURE" "0.1") = Raises e ->
     (0 < py_round (sim_time args / dt args))%Z ->
     exists e', simulate C (world_hook W true format) args = Raises e').
Proof.
  intros Hshape Hsetup Hn Hoa Hca Hllm name. split.
  - intros Hopenai Hclaude.
    destruct (keyless_interpreter_returns W (llm_provider args) Hoa Hca Hopenai Hclaude)
      as [itp0 Hitp0].
    destruct (simulate_total C (world_hook W true format) args init Hshape Hsetup)
      as [sf Hrun]; [intros _ k; exists itp0; exact Hitp0|exact Hn|].
    exists sf. split; [exact Hrun|]. intros i Hi.
    destruct (simulate_heading C _ args sf Hrun) as [_ Hrec].
    destruct (Hrec i Hi) as [Hdec Hidle].
    destruct (decide (i mod 200 = 0)%nat) as [Hmod|Hmod].
    + destruct Hdec as (decision & Hcolm & ->); [repeat split; assumption|].
      unfold run_colm in Hcolm.
      cbn [LLM_AVAILABLE world_hook negb COLREGSInterpreter] in Hcolm.
      destruct (MultiLLMCOLREGSInterpreter_init W (llm_provider args)) as [itp|e] eqn:Hitp;
        [|discriminate].
      cbn [mbind outcome_bind bind] in Hcolm. injection Hcolm as <-.
      unfold make_decision. rewrite (interpreter_without_keys W _ itp Hoa Hca Hitp).
      reflexivity.
    + apply Hidle. intros (_ & _ & Habs). contradiction.
  - intros e Hname Hfloat HN.
    apply (simulate_hook_raises C (world_hook W true format) args 0 e).
    + split; [exact Hllm|]. split; reflexivity.
    + exact HN.
    + cbn [COLREGSInterpreter world_hook].
      now apply malformed_temperature_raises.
Qed.

Lemma run_without_keys_witness :
  (exists sf,
     simulate still_components (world_hook keyless_world true (fun _ => EmptyString))
       short_run_args = Returns sf /\
     St.Kdir sf !!! 0%nat = 0 /\ St.Kdir sf !!! 1%nat = 1) /\
  exists e',
    simulate still_components (world_hook malformed_world true (fun _ => EmptyString))
      short_run_args = Raises e'.
Proof.
  destruct short_run_setup as (init & Hinit & _).
  assert (Hobs : (length (get_obstacles (case_number short_run_args)) <= 3)%nat).
  { cbn [case_number short_run_args]. rewrite case_1_obstacles. cbn. lia. }
  split.
  - destruct (run_without_keys still_components keyless_world (fun _ => EmptyString)
                short_run_args init still_components_shape Hinit Hobs
                eq_refl eq_refl eq_refl) as [Hreturns _].
    destruct Hreturns as (sf & Hrun & HK).
    + intros _. exists 0.1, 50%Z. split; reflexivity.
    + intros Habs. vm_compute in Habs. discriminate.
    + exists sf. split; [exact Hrun|].
      destruct (short_llm_run_steps _ 1 sf Hrun) as (_ & HKlen & _).
      split.
      * rewrite (HK 0%nat) by lia. reflexivity.
      * rewrite (HK 1%nat) by lia. reflexivity.
  - destruct (run_without_keys still_components malformed_world (fun _ => EmptyString)
                short_run_args init still_components_shape Hinit Hobs
                eq_refl eq_refl eq_refl) as [_ Hstops].
    apply (Hstops ValueError); [reflexivity|reflexivity|exact short_run_horizon].
Defined.

(** ** [comparison_simulation.py]: what the comparison can report *)

(** A directive can only remove turns from the ['kdir'] array: with the
    same avoidance bias, no array counts more turns than the one of the
    directive 1. *)
Lemma count_turns_le (K1 K2 oa : list R) :
  length K1 = length oa -> length K2 = length oa ->
  (forall i, (i < length oa)%nat -> K2 !!! i = 1) ->
  let sign := fun k p : R =>
    let control_value := k * p in
    if decide (0 < control_value) then 1
    else if decide (control_value < 0) then -1 else 0 in
  (count_turns (zip_with sign K1 oa) <= count_turns (zip_with sign K2 oa))%nat.
Proof.
  intros H1 H2 Hones sign. unfold count_turns.
  revert K1 K2 H1 H2 Hones. induction oa as [|p oa IH]; intros K1 K2 H1 H2 Hones.
  - destruct K1; [|discriminate]. destruct K2; [|discriminate]. cbn. lia.
  - destruct K1 as [|k1 K1]; [discriminate|]. destruct K2 as [|k2 K2]; [discriminate|].
    cbn [zip_with]. rewrite !filter_cons.
    assert (Hk2 : k2 = 1) by (apply (Hones 0%nat); cbn; lia). subst k2.
    specialize (IH K1 K2 ltac:(cbn in H1; lia) ltac:(cbn in H2; lia)
                   (fun i Hi => Hones (S i) ltac:(cbn; lia))).
    destruct (decide (0.1 < Rabs (sign k1 p))) as [Ht|Ht].
    + destruct (decide (0.1 < Rabs (sign 1 p))) as [Hb|Hb]; [cbn [length]; lia|].
      exfalso. apply Hb. clear Hb. revert Ht. unfold sign. cbv zeta.
      destruct (decide (0 < 1 * p)), (decide (1 * p < 0));
        try (intros _; unfold Rabs; destruct (Rcase_abs _); lra).
      assert (Hp : p = 0) by lra. rewrite Hp, Rmult_0_r.
      rewrite decide_False by lra. rewrite decide_False by lra. intros Ht; exact Ht.
    + destruct (decide (0.1 < Rabs (sign 1 p))); cbn [length]; lia.
Qed.

Lemma run_stats_returns (s : St.Sim) :
  concat (Risk (St.geo s)) <> [] -> St.x s <> [] -> St.y s <> [] ->
  exists st, run_stats s = Returns st.
Proof.
  intros Hr Hx Hy. unfold run_stats, np_max, list_last.
  destruct (concat (Risk (St.geo s))) as [|v vs]; [contradiction|].
  cbn [mbind outcome_bind bind].
  destruct (last (St.x s)) as [xl|] eqn:Ex; [|apply last_None in Ex; contradiction].
  destruct (last (St.y s)) as [yl|] eqn:Ey; [|apply last_None in Ey; contradiction].
  cbn [mbind outcome_bind bind]. eexists. reflexivity.
Qed.

(** The risk array of a run has an entry exactly when the run has a step. *)
Lemma risk_entries (N n : nat) (g : Geo) :
  geo_shape N n g -> (1 <= n)%nat ->
  (N = 0%nat -> concat (Risk g) = []) /\ ((0 < N)%nat -> concat (Risk g) <> []).
Proof.
  intros Hshape Hn. destruct (Hshape F_Risk) as [Hrows Hcols]. cbn [geo_get] in *.
  split.
  - intros ->. apply length_zero_iff_nil in Hrows. rewrite Hrows. reflexivity.
  - intros HN. specialize (Hcols 0%nat HN).
    destruct (Risk g) as [|row rows]; [cbn in Hrows; lia|].
    cbn in Hcols. destruct row as [|v row]; [cbn in Hcols; lia|]. discriminate.
Qed.

(** X25: what the comparison of a run with and without the language model
    can report.  With no step at all, [calculate_comparison_stats] raises
    [ValueError]; otherwise the statistics are computed, the largest risk
    and the final distance of the two runs are equal, the run with the
    language model never counts more turns than the baseline, the behaviour
    is never called "more conservative (more turns)", and the risk
    management is always called "Similar". *)
Theorem comparison_report_verdicts (C : Components) (H : Hook) (args : Args)
    (baseline_results llm_results : St.Sim) :
  shape_preserving C ->
  run_comparison_simulation C H args = Returns (Comparison baseline_results llm_results) ->
  (St.x baseline_results = [] ->
   calculate_comparison_stats baseline_results llm_results = Raises ValueError) /\
  (St.x baseline_results <> [] ->
   exists st, calculate_comparison_stats baseline_results llm_results = Returns st) /\
  (forall st, calculate_comparison_stats baseline_results llm_results = Returns st ->
     max_risk (stats_llm st) = max_risk (stats_baseline st) /\
     final_distance (stats_llm st) = final_distance (stats_baseline st) /\
     (total_turns (stats_llm st) <= total_turns (stats_baseline st))%nat /\
     behavior st <> "more conservative (more turns)"%string /\
     risk_management st = "Similar"%string).
Proof.
  intros Hshape. unfold run_comparison_simulation.
  destruct (simulate C H (with_llm 0 args)) as [b|e] eqn:Hb; [|discriminate].
  destruct (simulate C H (with_llm 1 args)) as [l|e] eqn:Hl; [|discriminate].
  cbn [mbind outcome_bind bind]. intros [= <- <-].
  pose proof (simulate_without_Kdir C H H args 1 0 l b Hl Hb) as Hsame.
  assert (Hgeo : St.geo l = St.geo b) by exact (f_equal St.geo Hsame).
  assert (Hx : St.x l = St.x b) by exact (f_equal St.x Hsame).
  assert (Hy : St.y l = St.y b) by exact (f_equal St.y Hsame).
  assert (Hoa : St.psi_oa l = St.psi_oa b) by exact (f_equal St.psi_oa Hsame).
  destruct (simulate_lengths _ _ _ _ Hb) as (n & Hn & Hxb & Hyb & HKb & _ & _ & Hoab).
  destruct (simulate_lengths _ _ _ _ Hl) as (n' & Hn' & _ & _ & HKl & _ & _ & Hoal).
  assert (n' = n) by (cbn [with_llm sim_time dt] in Hn, Hn'; lia). subst n'.
  destruct (simulate_geometry C H _ b Hshape Hb) as (Hobs & _ & Hgshape & _).
  destruct (risk_entries _ _ _ Hgshape Hobs) as [Hnone Hsome].
  assert (Hones : forall i, (i < length (St.psi_oa b))%nat -> St.Kdir b !!! i = 1).
  { intros i Hi. destruct (simulate_heading C H (with_llm 0 args) b Hb) as [_ Hrec].
    apply Hrec; [lia|]. intros (Hon & _). discriminate. }
  assert (Hturns : (count_turns (comparison_kdir l) <= count_turns (comparison_kdir b))%nat).
  { unfold comparison_kdir. rewrite Hoa.
    apply count_turns_le; [lia|lia|exact Hones]. }
  split; [|split].
  - intros Hx0. unfold calculate_comparison_stats, run_stats, np_max.
    rewrite Hnone by (rewrite Hx0; reflexivity). reflexivity.
  - intros Hxne.
    assert (Hpos : (0 < length (St.x b))%nat).
    { destruct (St.x b); [contradiction|cbn; lia]. }
    assert (Hyne : St.y b <> []).
    { intros Hy0. rewrite Hxb, <- Hyb, Hy0 in Hpos. cbn in Hpos. lia. }
    destruct (run_stats_returns b (Hsome Hpos) Hxne Hyne) as [sb Esb].
    destruct (run_stats_returns l) as [sl Esl]; [rewrite Hgeo|rewrite Hx|rewrite Hy|];
      try assumption; [exact (Hsome Hpos)|].
    unfold calculate_comparison_stats. rewrite Esb, Esl. cbn [mbind outcome_bind bind].
    eexists. reflexivity.
  - intros st. unfold calculate_comparison_stats, run_stats.
    rewrite Hgeo, Hx, Hy.
    destruct (np_max (Risk (St.geo b))) as [m|e]; [|discriminate].
    destruct (list_last (St.x b)) as [xl|e]; [|discriminate].
    destruct (list_last (St.y b)) as [yl|e]; [|discriminate].
    cbn [mbind outcome_bind bind total_turns max_risk]. intros [= <-].
    cbn [stats_baseline stats_llm behavior risk_management max_risk final_distance
         total_turns].
    split; [reflexivity|]. split; [reflexivity|]. split; [exact Hturns|]. split.
    + rewrite decide_False by lia.
      destruct (decide _); discriminate.
    + rewrite decide_False by lra.
      rewrite decide_True; [reflexivity|].
      replace (m - m) with 0 by lra. rewrite Rabs_R0. lra.
Qed.

Lemma comparison_report_verdicts_witness :
  let b := final_state (simulate still_components (answering_hook "turn to port")
                          (with_llm 0 short_run_args)) in
  let l := final_state (simulate still_components (answering_hook "turn to port")
                          (with_llm 1 short_run_args)) in
  exists st, calculate_comparison_stats b l = Returns st /\
             risk_management st = "Similar"%string.
Proof.
  intros b l.
  pose proof (short_llm_run_final _ 0 (answering_hook_answers "turn to port")) as Hb.
  pose proof (short_llm_run_final _ 1 (answering_hook_answers "turn to port")) as Hl.
  fold b in Hb. fold l in Hl.
  destruct (comparison_report_verdicts still_components (answering_hook "turn to port")
              short_run_args b l still_components_shape) as (_ & Hreturns & Hverdicts).
  - unfold run_comparison_simulation. rewrite Hb, Hl. reflexivity.
  - destruct Hreturns as [st Hst].
    + destruct (short_llm_run_steps _ _ _ Hb) as (Hlen & _).
      intros Hnil. rewrite Hnil in Hlen. discriminate.
    + exists st. split; [exact Hst|]. apply (Hverdicts st Hst).
Defined.

(** ** [multi_llm_decision.py]: the listed providers *)

(** X26: [get_available_providers] lists "openai" and "claude", in this
    order, each exactly when it is available; and a listed name, when asked
    for, is served by its own provider with the model of the environment,
    never by the substitute. *)
Theorem listed_provider_is_selected (W : World) (providers : list string) :
  get_available_providers W = Returns providers ->
  providers = (if openai_is_available W then ["openai"%string] else [])
              ++ (if claude_is_available W then ["claude"%string] else []) /\
  forall name chosen,
    name ∈ providers -> _initialize_provider W name = Returns chosen ->
    (name = "openai"%string /\
     exists p, chosen = Some (OpenAI p) /\
               openai_model p = getenv_default W "OPENAI_MODEL" "gpt-4") \/
    (name = "claude"%string /\
     exists p, chosen = Some (Claude p) /\
               claude_model p = getenv_default W "CLAUDE_MODEL" "claude-sonnet-4-20250514").
Proof.
  unfold get_available_providers.
  destruct (OpenAIProvider_init W _ _ _) as [po|e]; [|discriminate].
  cbn [mbind outcome_bind bind].
  destruct (ClaudeProvider_init W _ _ _) as [pc|e]; [|discriminate].
  cbn [mbind outcome_bind bind]. cbv zeta. intros [= <-].
  split.
  { destruct (openai_is_available W), (claude_is_available W); reflexivity. }
  intros name chosen Hin Hinit.
  apply provider_selection_cases in Hinit.
  assert (Hcases : (name = "openai"%string /\ openai_is_available W = true) \/
                   (name = "claude"%string /\ claude_is_available W = true)).
  { destruct (openai_is_available W), (claude_is_available W); cbn in Hin;
      rewrite ?elem_of_cons, ?elem_of_nil in Hin; intuition. }
  destruct Hcases as [[-> Hoa]|[-> Hca]].
  - left. split; [reflexivity|].
    change (lower "openai") with "openai"%string in Hinit.
    destruct chosen as [[p|p]|].
    + destruct Hinit as (_ & _ & [[_ Hm]|[Habs _]]); [|discriminate].
      exists p. split; [reflexivity|exact Hm].
    + destruct Hinit as (_ & _ & [[Habs _]|(_ & Habs & _)]); [discriminate|].
      specialize (Habs eq_refl). congruence.
    + destruct Hinit as (_ & Habs). specialize (Habs (or_introl eq_refl)). congruence.
  - right. split; [reflexivity|].
    change (lower "claude") with "claude"%string in Hinit.
    destruct chosen as [[p|p]|].
    + destruct Hinit as (_ & _ & [[Habs _]|(_ & Habs & _)]); [discriminate|congruence].
    + destruct Hinit as (_ & _ & [[_ Hm]|[Habs _]]); [|contradiction].
      exists p. split; [reflexivity|exact Hm].
    + destruct Hinit as (Habs & _). congruence.
Qed.

Lemma listed_provider_is_selected_witness :
  get_available_providers openai_only_world = Returns ["openai"%string] /\
  exists p, _initialize_provider openai_only_world "openai" = Returns (Some (OpenAI p)).
Proof.
  assert (Hlist : get_available_providers openai_only_world = Returns ["openai"%string])
    by (vm_compute; reflexivity).
  split; [exact Hlist|].
  destruct (_initialize_provider openai_only_world "openai") as [chosen|e] eqn:Hrun;
    [|vm_compute in Hrun; discriminate].
  destruct (listed_provider_is_selected openai_only_world _ Hlist) as [_ Hserved].
  destruct (Hserved "openai"%string chosen) as [(_ & p & -> & _)|(Habs & _)].
  - apply elem_of_cons. left. reflexivity.
  - exact Hrun.
  - exists p. reflexivity.
  - discriminate.
Defined.
